(** * cargo-orm: typed fields, array casting, enum registration, the binary
      codec and the expression compiler

    A shallow embedding of the field classes of [cargo/fields] and
    [bloom/fields], of the client call they rely on, and of the expression
    compiler, followed by the properties proved about them. *)

From Stdlib Require Import ZArith NArith String List Ascii Bool Lia DecimalString.
#[local] Set Warnings "-register-all".
Import ListNotations.
Open Scope string_scope.
Open Scope Z_scope.

(** ** Python values and exceptions *)

Module Py.

(** The Python values that reach the fields.  [VArr] is an [arraylist]
    (a [list] subclass) carrying the type name stored by [_add_arr_type];
    floats and user objects are left out.  A [str] is held one character
    per [ascii], the [ascii] being the code point of the character: the
    texts are those whose code points are below 256. *)
Inductive pyval : Type :=
  | VNone
  | VBool (b : bool)
  | VInt (z : Z)
  | VStr (s : string)
  | VTuple (items : list pyval)
  | VList (items : list pyval)
  | VArr (cargotype : string) (items : list pyval).

(** The exceptions the modelled code raises or lets through. *)
Inductive exn : Type :=
  | ValueError (msg : string)
  | TypeError (msg : string)
  | OtherError (cls : string) (msg : string).

Inductive result (A : Type) : Type :=
  | Ok (a : A)
  | Raise (e : exn).
Arguments Ok {A} a.
Arguments Raise {A} e.

Definition bind {A B : Type} (m : result A) (k : A -> result B) : result B :=
  match m with
  | Ok a => k a
  | Raise e => Raise e
  end.

Notation "x <- m ;; k" := (bind m (fun x => k))
  (at level 61, m at next level, right associativity).

Definition is_ok {A : Type} (m : result A) : bool :=
  match m with Ok _ => true | Raise _ => false end.

(** Evaluating a comprehension left to right: the first exception wins. *)
Fixpoint mapM {A B : Type} (f : A -> result B) (l : list A) : result (list B) :=
  match l with
  | [] => Ok []
  | x :: rest => y <- f x ;; ys <- mapM f rest ;; Ok (y :: ys)
  end.

(** [isinstance(x, list)]: true of lists and of arraylists. *)
Definition isinstance_list (x : pyval) : bool :=
  match x with
  | VList _ | VArr _ _ => true
  | _ => false
  end.

(** [isinstance(x, (list, tuple))]. *)
Definition isinstance_list_tuple (x : pyval) : bool :=
  match x with
  | VList _ | VArr _ _ | VTuple _ => true
  | _ => false
  end.

(** The integer a [bool] or [int] stands for in a comparison. *)
Definition as_int (x : pyval) : option Z :=
  match x with
  | VBool b => Some (if b then 1 else 0)
  | VInt z => Some z
  | _ => None
  end.

(** Python's [==].  [True == 1] holds, a tuple never equals a list, and an
    arraylist compares as the list it is. *)
Fixpoint py_eq (a b : pyval) {struct a} : bool :=
  let seq_eq :=
    fix seq_eq (l m : list pyval) {struct l} : bool :=
      match l, m with
      | [], [] => true
      | x :: l', y :: m' => py_eq x y && seq_eq l' m'
      | _, _ => false
      end in
  match a, b with
  | VNone, VNone => true
  | VBool x, VBool y => Bool.eqb x y
  | VBool x, VInt y => (if x then 1 else 0) =? y
  | VInt x, VBool y => x =? (if y then 1 else 0)
  | VInt x, VInt y => x =? y
  | VStr s, VStr t => String.eqb s t
  | VTuple l, VTuple m => seq_eq l m
  | VList l, VList m => seq_eq l m
  | VList l, VArr _ m => seq_eq l m
  | VArr _ l, VList m => seq_eq l m
  | VArr _ l, VArr _ m => seq_eq l m
  | _, _ => false
  end.

(** [value in types] on a tuple: some item compares equal. *)
Definition py_in (v : pyval) (types : list pyval) : bool :=
  existsb (fun item => py_eq item v) types.

(** [for x in value]: the items, or [None] when the value is not iterable.
    A string yields its characters. *)
Fixpoint chars (s : string) : list pyval :=
  match s with
  | EmptyString => []
  | String c rest => VStr (String c EmptyString) :: chars rest
  end.

Definition py_iter (v : pyval) : option (list pyval) :=
  match v with
  | VStr s => Some (chars s)
  | VTuple l | VList l | VArr _ l => Some l
  | _ => None
  end.

Definition str_of_Z (z : Z) : string := NilZero.string_of_int (Z.to_int z).

Definition hex_digit (n : N) : ascii :=
  match n with
  | 0 => "0" | 1 => "1" | 2 => "2" | 3 => "3" | 4 => "4" | 5 => "5"
  | 6 => "6" | 7 => "7" | 8 => "8" | 9 => "9" | 10 => "a" | 11 => "b"
  | 12 => "c" | 13 => "d" | 14 => "e" | _ => "f"
  end%N%char.

Fixpoint contains_char (c : ascii) (s : string) : bool :=
  match s with
  | EmptyString => false
  | String d rest => Ascii.eqb c d || contains_char c rest
  end.

Definition dquote : ascii := ascii_of_nat 34.

(** The body of [repr(s)] for a string, between the quotes [q].  The
    characters that are not printable are written as escapes: below 256
    these are the controls U+0000 to U+001F and U+007F to U+009F, the
    no-break space U+00A0 and the soft hyphen U+00AD. *)
Fixpoint repr_body (q : ascii) (s : string) : string :=
  match s with
  | EmptyString => EmptyString
  | String c rest =>
      let n := N_of_ascii c in
      let tail := repr_body q rest in
      if Ascii.eqb c "\" then String "\" (String "\" tail)
      else if Ascii.eqb c q then String "\" (String c tail)
      else if (n =? 9)%N then String "\" (String "t" tail)
      else if (n =? 10)%N then String "\" (String "n" tail)
      else if (n =? 13)%N then String "\" (String "r" tail)
      else if ((n <? 32) || ((127 <=? n) && (n <=? 160)) || (n =? 173))%N
           then String "\" (String "x" (String (hex_digit (n / 16))
                                          (String (hex_digit (n mod 16)) tail)))
      else String c tail
  end%char.

(** [repr] of a string: single quotes, unless the text holds a single quote
    and no double quote. *)
Definition repr_str (s : string) : string :=
  let q := if contains_char "'" s && negb (contains_char dquote s)
           then dquote else "'"%char in
  String q (repr_body q s ++ String q EmptyString).

Fixpoint join (sep : string) (l : list string) : string :=
  match l with
  | [] => EmptyString
  | [x] => x
  | x :: rest => x ++ sep ++ join sep rest
  end.

(** [repr(v)]. *)
Fixpoint py_repr (v : pyval) : string :=
  match v with
  | VNone => "None"
  | VBool b => if b then "True" else "False"
  | VInt z => str_of_Z z
  | VStr s => repr_str s
  | VTuple l =>
      match l with
      | [x] => "(" ++ py_repr x ++ ",)"
      | _ => "(" ++ join ", " (map py_repr l) ++ ")"
      end
  | VList l | VArr _ l => "[" ++ join ", " (map py_repr l) ++ "]"
  end.

(** [str(v)]: the text itself for a string, [repr] otherwise. *)
Definition py_str (v : pyval) : string :=
  match v with
  | VStr s => s
  | _ => py_repr v
  end.

(** Python's [x or y] on optional strings: [None] and the empty string are
    falsy. *)
Definition str_or (x : option string) (y : string) : string :=
  match x with
  | Some (String c rest) => String c rest
  | _ => y
  end.

End Py.
Import Py.

(** ** Fields *)

Module Field.

(** What a field holds: the [Field.empty] sentinel (unset), or a value, of
    which [VNone] is SQL NULL.  The same type is the argument of a call,
    whose default is [Field.empty]. *)
Inductive slot : Type :=
  | empty
  | Val (v : pyval).

(** Modelled from the spec: [Field.value_is_null] belongs to the base class
    [cargo.fields.field.Field], which is not among the sources; a field is
    null when it is unset or holds SQL NULL. *)
Definition slot_is_null (s : slot) : bool :=
  match s with
  | empty => true
  | Val VNone => true
  | Val _ => false
  end.

(** An initialized element field as an array sees it: calling it normalizes
    a value or raises, and it has a database type name
    ([self.type.type_name], or [OID_map[self.type.OID]]; the table is not
    among the sources, so the name is taken as given). *)
Record ElemField : Type := {
  call : pyval -> result pyval;
  elem_type_name : string
}.

End Field.
Import Field.

(** *** [cargo.fields.sequence.OneOf] *)

Module OneOf.

Record t : Type := {
  types : list pyval;
  _type_name : option string;
  _type_oid : option Z;
  _type_array_oid : option Z;
  table : option string;
  field_name : option string;
  value : slot
}.

Definition set_value (self : t) (v : slot) : t :=
  {| types := types self; _type_name := _type_name self;
     _type_oid := _type_oid self; _type_array_oid := _type_array_oid self;
     table := table self; field_name := field_name self; value := v |}.

Definition set_oids (self : t) (oid array_oid : option Z) : t :=
  {| types := types self; _type_name := _type_name self;
     _type_oid := oid; _type_array_oid := array_oid;
     table := table self; field_name := field_name self;
     value := value self |}.

Definition is_none (v : pyval) : bool :=
  match v with VNone => true | _ => false end.

(** The message of the [ValueError]: ["`{}` not in {}".format(value, types)]. *)
Definition not_in_message (v : pyval) (types : list pyval) : string :=
  "`" ++ py_str v ++ "` not in " ++ py_str (VTuple types).

(** [OneOf.__call__]: the outcome and the field afterwards. *)
Definition __call__ (self : t) (arg : slot) : result slot * t :=
  match arg with
  | empty => (Ok (value self), self)
  | Val v =>
      if is_none v || py_in v (types self)
      then let self' := set_value self (Val v) in (Ok (value self'), self')
      else (Raise (ValueError (not_in_message v (types self))), self)
  end.

(** The [type_name] property. *)
Definition type_name (self : t) : string :=
  str_or (_type_name self)
         (match table self with Some s => s | None => "" end ++ "_" ++
          match field_name self with Some s => s | None => "" end ++
          "_enumtype").

End OneOf.

(** *** [cargo.fields.sequence.Array] *)

Module Array.

Record t : Type := {
  minlen : Z;
  maxlen : Z;
  type : ElemField;
  dimensions : option Z;
  value : slot
}.

Definition set_value (self : t) (v : slot) : t :=
  {| minlen := minlen self; maxlen := maxlen self; type := type self;
     dimensions := dimensions self; value := v |}.

Definition _get_type_name (self : t) : string := elem_type_name (type self).

(** [_add_arr_type] on a fresh [arraylist] holding [items]. *)
Definition _add_arr_type (self : t) (items : list pyval) : pyval :=
  VArr (_get_type_name self) items.

Definition depth_message (dimension max_depth : Z) : string :=
  "Invalid dimensions (" ++ str_of_Z dimension ++
  "): max depth is set to " ++ str_of_Z max_depth.

(** [self.dimensions and dimension > self.dimensions]: the bound when the
    check applies and fails. *)
Definition depth_exceeded (self : t) (dimension : Z) : option Z :=
  match dimensions self with
  | None => None
  | Some n => if n =? 0 then None else if dimension >? n then Some n else None
  end.

Definition class_name (v : pyval) : string :=
  match v with
  | VNone => "NoneType"
  | VBool _ => "bool"
  | VInt _ => "int"
  | VStr _ => "str"
  | VTuple _ => "tuple"
  | VList _ => "list"
  | VArr _ _ => "arraylist"
  end.

Definition not_iterable (v : pyval) : exn :=
  TypeError ("'" ++ class_name v ++ "' object is not iterable").

(** [Array._cast].  The generator is consumed at once by [list] or
    [arraylist], so its items are evaluated in order and the first exception
    ends the cast.  The characters of a string are never lists, so they all
    go to the element field. *)
Fixpoint _cast (self : t) (value : pyval) (dimension : Z) {struct value}
  : result pyval :=
  match depth_exceeded self dimension with
  | Some n => Raise (ValueError (depth_message dimension n))
  | None =>
      let next_dimension := dimension + 1 in
      let arr :=
        fix arr (items : list pyval) {struct items} : result (list pyval) :=
          match items with
          | [] => Ok []
          | x :: rest =>
              y <- (if negb (isinstance_list x) then call (type self) x
                    else _cast self x next_dimension) ;;
              ys <- arr rest ;;
              Ok (y :: ys)
          end in
      let finish (items : list pyval) : pyval :=
        if dimension >? 1 then VList items else _add_arr_type self items in
      match value with
      | VTuple l | VList l | VArr _ l => items <- arr l ;; Ok (finish items)
      | VStr s => items <- mapM (call (type self)) (chars s) ;; Ok (finish items)
      | _ => Raise (not_iterable value)
      end
  end.

(** [Array.__call__]. *)
Definition __call__ (self : t) (arg : slot) : result slot * t :=
  match arg with
  | empty => (Ok (value self), self)
  | Val VNone => let self' := set_value self (Val VNone) in
                 (Ok (value self'), self')
  | Val v =>
      match _cast self v 1 with
      | Ok a => let self' := set_value self (Val a) in (Ok (value self'), self')
      | Raise e => (Raise e, self)
      end
  end.

Definition _select_cast (self : t) (value : pyval) (dimension : Z)
  : result pyval :=
  if negb (isinstance_list_tuple value) then call (type self) value
  else _cast self value dimension.

Definition _make_list (self : t) : t :=
  if slot_is_null (value self)
  then set_value self (Val (_add_arr_type self []))
  else self.

(** [list.insert(index, x)]: a negative index counts from the end, and an
    index past either end is clamped. *)
Definition list_insert (index : Z) (x : pyval) (l : list pyval) : list pyval :=
  let len := Z.of_nat (length l) in
  let i := if index <? 0 then Z.max 0 (index + len) else Z.min index len in
  (firstn (Z.to_nat i) l ++ x :: skipn (Z.to_nat i) l)%list.

(** A method of the list held in [self.value], applied in place. *)
Definition on_list (self : t) (meth : string)
           (f : list pyval -> result (list pyval)) : result unit * t :=
  match value self with
  | Val (VList l) =>
      match f l with
      | Ok l' => (Ok tt, set_value self (Val (VList l')))
      | Raise e => (Raise e, self)
      end
  | Val (VArr ty l) =>
      match f l with
      | Ok l' => (Ok tt, set_value self (Val (VArr ty l')))
      | Raise e => (Raise e, self)
      end
  | _ => (Raise (OtherError "AttributeError" meth), self)
  end.

(** [Array.append]: [_make_list] has run when the cast raises. *)
Definition append (self : t) (value : pyval) : result unit * t :=
  let self := _make_list self in
  on_list self "append"
    (fun l => x <- _select_cast self value 2 ;; Ok (l ++ [x])%list).

(** [Array.insert]. *)
Definition insert (self : t) (index : Z) (value : pyval) : result unit * t :=
  let self := _make_list self in
  on_list self "insert"
    (fun l => x <- _select_cast self value 2 ;; Ok (list_insert index x l)).

(** [Array.extend]: [_select_cast] is called with its default dimension, 1,
    and [list.extend] iterates what it returns. *)
Definition extend (self : t) (value : pyval) : result unit * t :=
  let self := _make_list self in
  on_list self "extend"
    (fun l =>
       r <- _select_cast self value 1 ;;
       match py_iter r with
       | Some items => Ok (l ++ items)%list
       | None => Raise (not_iterable r)
       end).

End Array.

(** *** [bloom.fields.sequence.Array], the older implementation *)

Module BloomArray.

(** [dimension > self.dimensions], which Python 3 refuses to evaluate when
    the bound is [None]. *)
Definition depth_exceeded (self : Array.t) (dimension : Z) : result bool :=
  match Array.dimensions self with
  | None =>
      Raise (TypeError
               "'>' not supported between instances of 'int' and 'NoneType'")
  | Some n => Ok (dimension >? n)
  end.

(** [Array._cast] of bloom: every level is an [arraylist] carrying the type
    name. *)
Fixpoint _cast (self : Array.t) (value : pyval) (dimension : Z) {struct value}
  : result pyval :=
  match depth_exceeded self dimension with
  | Raise e => Raise e
  | Ok true =>
      Raise (ValueError
               (Array.depth_message dimension
                  (match Array.dimensions self with Some n => n | None => 0 end)))
  | Ok false =>
      let next_dimension := dimension + 1 in
      let arr :=
        fix arr (items : list pyval) {struct items} : result (list pyval) :=
          match items with
          | [] => Ok []
          | x :: rest =>
              y <- (if negb (isinstance_list x) then call (Array.type self) x
                    else _cast self x next_dimension) ;;
              ys <- arr rest ;;
              Ok (y :: ys)
          end in
      match value with
      | VTuple l | VList l | VArr _ l =>
          items <- arr l ;; Ok (Array._add_arr_type self items)
      | VStr s =>
          items <- mapM (call (Array.type self)) (chars s) ;;
          Ok (Array._add_arr_type self items)
      | _ => Raise (Array.not_iterable value)
      end
  end.

End BloomArray.

(** *** [cargo.fields.networking] and [cargo.fields.bit] *)

Module Networking.

(** A Django, Flask or Bottle-like request: [remote_addr] and [META] are
    [None] when the object lacks the attribute. *)
Record request : Type := {
  remote_addr : option pyval;
  META : option (list (string * pyval))
}.

(** [dict.get(key)]. *)
Fixpoint dict_get (d : list (string * pyval)) (key : string) : pyval :=
  match d with
  | [] => VNone
  | (k, v) :: rest => if String.eqb k key then v else dict_get rest key
  end.

Definition truthy (v : pyval) : bool :=
  match v with
  | VNone => false
  | VBool b => b
  | VInt z => negb (z =? 0)
  | VStr s => negb (String.eqb s "")
  | VTuple l | VList l | VArr _ l => negb (Nat.eqb (length l) 0)
  end.

(** [str.isspace] on one character, which [str.strip] goes by: below 256
    the white space is U+0009 to U+000D, U+001C to U+0020, the next-line
    control U+0085 and the no-break space U+00A0. *)
Definition is_space (c : ascii) : bool :=
  let n := N_of_ascii c in
  (((9 <=? n) && (n <=? 13)) || ((28 <=? n) && (n <=? 32)) ||
   (n =? 133) || (n =? 160))%N.

Fixpoint lstrip (s : string) : string :=
  match s with
  | String c rest => if is_space c then lstrip rest else s
  | EmptyString => EmptyString
  end.

Fixpoint rstrip (s : string) : string :=
  match s with
  | EmptyString => EmptyString
  | String c rest =>
      match rstrip rest with
      | EmptyString => if is_space c then EmptyString else String c EmptyString
      | r => String c r
      end
  end.

(** [s.strip()]. *)
Definition strip (s : string) : string := rstrip (lstrip s).

(** [s.split(',')[-1]]: the text after the last comma. *)
Fixpoint last_field (s : string) (acc : string) : string :=
  match s with
  | EmptyString => acc
  | String c rest =>
      if Ascii.eqb c "," then last_field rest EmptyString
      else last_field rest (acc ++ String c EmptyString)
  end.

Section Fields.

(** The constructors of [netaddr] and [bitstring], which parse a value or
    raise. *)
Variables IPAddress IPNetwork EUI BitArray : pyval -> result pyval.

Record IP : Type := {
  _request : option request;
  _default : pyval;
  ip_value : slot
}.

(** [IP.current]. *)
Definition current : pyval := VInt (-1).

(** The [request_ip] property. *)
Definition request_ip (self : IP) : result pyval :=
  match _request self with
  | None => Ok VNone
  | Some r =>
      match remote_addr r with
      | Some addr => Ok addr
      | None =>
          match META r with
          | Some meta =>
              let x_forwarded_for := dict_get meta "HTTP_X_FORWARDED_FOR" in
              if truthy x_forwarded_for then
                match x_forwarded_for with
                | VStr s => Ok (VStr (strip (last_field s EmptyString)))
                | other =>
                    Raise (OtherError "AttributeError"
                             ("'" ++ Array.class_name other ++
                              "' object has no attribute 'split'"))
                end
              else Ok (dict_get meta "REMOTE_ADDR")
          | None => Ok VNone
          end
      end
  end.

Definition set_ip_value (self : IP) (v : slot) : IP :=
  {| _request := _request self; _default := _default self; ip_value := v |}.

(** A field whose call stores [None] as it is and any other value through
    the constructor [ctor]. *)
Definition store_through {F : Type} (ctor : pyval -> result pyval)
           (set : F -> slot -> F) (get : F -> slot) (self : F) (value : pyval)
  : result slot * F :=
  match value with
  | VNone => let self' := set self (Val VNone) in (Ok (get self'), self')
  | _ =>
      match ctor value with
      | Ok a => let self' := set self (Val a) in (Ok (get self'), self')
      | Raise e => (Raise e, self)
      end
  end.

(** [IP.__call__]. *)
Definition IP__call__ (self : IP) (arg : slot) : result slot * IP :=
  match arg with
  | empty => (Ok (ip_value self), self)
  | Val value =>
      match (if py_eq value current then request_ip self else Ok value) with
      | Ok value => store_through IPAddress set_ip_value ip_value self value
      | Raise e => (Raise e, self)
      end
  end.

(** [Cidr] and [MacAddress] keep the slots of [Field]; [Bit] adds its
    length.  Only the value slot is written by a call. *)
Record Cidr : Type := { cidr_value : slot }.
Record MacAddress : Type := { mac_value : slot }.
Record Bit : Type := { length : pyval; bit_value : slot }.

Definition set_cidr_value (self : Cidr) (v : slot) : Cidr :=
  {| cidr_value := v |}.
Definition set_mac_value (self : MacAddress) (v : slot) : MacAddress :=
  {| mac_value := v |}.
Definition set_bit_value (self : Bit) (v : slot) : Bit :=
  {| length := length self; bit_value := v |}.

(** [Cidr.__call__]. *)
Definition Cidr__call__ (self : Cidr) (arg : slot) : result slot * Cidr :=
  match arg with
  | empty => (Ok (cidr_value self), self)
  | Val value => store_through IPNetwork set_cidr_value cidr_value self value
  end.

(** [MacAddress.__call__]. *)
Definition MacAddress__call__ (self : MacAddress) (arg : slot)
  : result slot * MacAddress :=
  match arg with
  | empty => (Ok (mac_value self), self)
  | Val value => store_through EUI set_mac_value mac_value self value
  end.

(** [Bit.__call__], which [Varbit] inherits. *)
Definition Bit__call__ (self : Bit) (arg : slot) : result slot * Bit :=
  match arg with
  | empty => (Ok (bit_value self), self)
  | Val value => store_through BitArray set_bit_value bit_value self value
  end.

End Fields.

End Networking.

(** ** The binary codec of [bloom.fields.binary] *)

Module Base64.

Definition bytes : Type := list Byte.byte.

Definition byte_of (n : N) : Byte.byte :=
  match Byte.of_N n with
  | Some b => b
  | None => Byte.x00
  end.

(** The alphabet of RFC 4648: [A-Z], [a-z], [0-9], [+] and [/]. *)
Definition b64_char (n : N) : Byte.byte :=
  byte_of (if n <? 26 then 65 + n
           else if n <? 52 then 97 + (n - 26)
           else if n <? 62 then 48 + (n - 52)
           else if n =? 62 then 43 else 47)%N.

(** The position of a byte in the alphabet, [None] for any other byte. *)
Definition b64_index (b : Byte.byte) : option N :=
  let n := Byte.to_N b in
  (if (65 <=? n) && (n <=? 90) then Some (n - 65)
   else if (97 <=? n) && (n <=? 122) then Some (n - 97 + 26)
   else if (48 <=? n) && (n <=? 57) then Some (n - 48 + 52)
   else if n =? 43 then Some 62
   else if n =? 47 then Some 63
   else None)%N.

(** The pad byte, [=]. *)
Definition pad : Byte.byte := byte_of 61.

(** [base64.b64encode]: three bytes become four characters, and a last
    group of one or two bytes is padded. *)
Fixpoint b64encode (data : bytes) : bytes :=
  match data with
  | [] => []
  | [a] =>
      let a := Byte.to_N a in
      [b64_char (a / 4); b64_char ((a mod 4) * 16); pad; pad]%N
  | [a; b] =>
      let a := Byte.to_N a in
      let b := Byte.to_N b in
      [b64_char (a / 4); b64_char ((a mod 4) * 16 + b / 16);
       b64_char ((b mod 16) * 4); pad]%N
  | a :: b :: c :: rest =>
      let a := Byte.to_N a in
      let b := Byte.to_N b in
      let c := Byte.to_N c in
      (b64_char (a / 4) :: b64_char ((a mod 4) * 16 + b / 16) ::
       b64_char ((b mod 16) * 4 + c / 64) :: b64_char (c mod 64) ::
       b64encode rest)%N
  end.

(** The error [binascii.Error]. *)
Definition binascii_Error (msg : string) : exn := OtherError "binascii.Error" msg.

(** The loop of [binascii.a2b_base64] in its default, lenient mode: bytes
    outside the alphabet are skipped, a pad that completes a group ends the
    input, and an unfinished group at the end is an error (its message,
    which varies with the version of Python, is shortened here).  [out]
    holds the decoded bytes, last first. *)
Fixpoint a2b_loop (input : bytes) (quad_pos leftchar pads : N) (out : bytes)
  : result bytes :=
  match input with
  | [] =>
      if (quad_pos =? 0)%N then Ok (rev out)
      else if (quad_pos =? 1)%N
      then Raise (binascii_Error "Invalid base64-encoded string")
      else Raise (binascii_Error "Incorrect padding")
  | ch :: rest =>
      if Byte.eqb ch pad then
        if (2 <=? quad_pos)%N then
          if (4 <=? quad_pos + (pads + 1))%N then Ok (rev out)
          else a2b_loop rest quad_pos leftchar (pads + 1)%N out
        else a2b_loop rest quad_pos leftchar pads out
      else
        match b64_index ch with
        | None => a2b_loop rest quad_pos leftchar pads out
        | Some this_ch =>
            match quad_pos with
            | 0%N => a2b_loop rest 1%N this_ch 0%N out
            | 1%N =>
                a2b_loop rest 2%N (this_ch mod 16)%N 0%N
                         (byte_of (leftchar * 4 + this_ch / 16) :: out)
            | 2%N =>
                a2b_loop rest 3%N (this_ch mod 4)%N 0%N
                         (byte_of (leftchar * 16 + this_ch / 4) :: out)
            | _ =>
                a2b_loop rest 0%N 0%N 0%N
                         (byte_of (leftchar * 64 + this_ch) :: out)
            end
        end
  end.

(** [base64.b64decode] on a bytes-like value; [None] is refused with a
    [TypeError]. *)
Definition b64decode (s : option bytes) : result bytes :=
  match s with
  | None =>
      Raise (TypeError
               "argument should be a bytes-like object or ASCII string, not 'NoneType'")
  | Some data => a2b_loop data 0%N 0%N 0%N []
  end.

End Base64.

Module BloomBinary.

Import Base64.

Section Driver.

(** The driver: [psycopg2.Binary] wraps bytes for the database, and the
    typecaster [psycopg2.BINARY] parses what a cursor receives, [None]
    being SQL NULL. *)
Variables adapted wire : Type.
Variable Binary : bytes -> adapted.
Variable BINARY : option wire -> option bytes.

(** [bloombytes.to_db]. *)
Definition to_db (value : bytes) : adapted := Binary (b64encode value).

(** [Binary.to_python]: [TypeError] and [binascii.Error] are caught. *)
Definition to_python (value : option wire) : result (option bytes) :=
  match b64decode (BINARY value) with
  | Ok decoded => Ok (Some decoded)
  | Raise (TypeError _) => Ok (BINARY value)
  | Raise (OtherError "binascii.Error" _) => Ok (BINARY value)
  | Raise e => Raise e
  end.

End Driver.

End BloomBinary.

(** ** Enum type registration *)

Module Clients.

(** The database as the client sees it: the rows [(oid, name)] the catalog
    query returns for its two parameters, and the parameters of every query
    executed so far, latest first. *)
Record Postgres : Type := {
  pg_type : string -> string -> list (Z * string);
  executed : list (string * string)
}.

(** [BasePostgresClient.get_type_OID]. *)
Definition get_type_OID (db : Postgres) (typname : string)
  : list Z * Postgres :=
  let params := ("_" ++ typname, typname) in
  let res := pg_type db (fst params) (snd params) in
  (map fst res,
   {| pg_type := pg_type db; executed := params :: executed db |}).

End Clients.

Module Registration.

Import Clients.

(** Modelled from the spec: [reg_type] and [reg_array_type] belong to
    [cargo.etc.types], which is not among the sources.  The codec table is
    process-wide, maps a type identifier to its codec, and registering again
    overwrites. *)
Inductive codec : Type :=
  | Scalar (name : string)
  | ArrayOf (name : string) (element : codec).

Definition registry : Type := list (option Z * codec).

Definition same_oid (a b : option Z) : bool :=
  match a, b with
  | Some x, Some y => x =? y
  | None, None => true
  | _, _ => false
  end.

Definition register (oid : option Z) (c : codec) (r : registry) : registry :=
  (oid, c) :: filter (fun entry => negb (same_oid (fst entry) oid)) r.

Definition reg_type (name : string) (oid : option Z) (r : registry)
  : codec * registry :=
  (Scalar name, register oid (Scalar name) r).

Definition reg_array_type (name : string) (oid : option Z) (element : codec)
           (r : registry) : codec * registry :=
  (ArrayOf name element, register oid (ArrayOf name element) r).

(** What a registration can touch outside the field. *)
Record world : Type := {
  db : Postgres;
  types_registered : registry;
  warnings : list string
}.

(** [str.upper] on ASCII text. *)
Definition upper_char (c : ascii) : ascii :=
  let n := N_of_ascii c in
  if ((97 <=? n) && (n <=? 122))%N then ascii_of_N (n - 32) else c.

Fixpoint upper (s : string) : string :=
  match s with
  | EmptyString => EmptyString
  | String c rest => String (upper_char c) (upper rest)
  end.

(** [self._type_oid, self._type_array_oid = OIDs]. *)
Definition unpack2 (OIDs : list Z) : result (Z * Z) :=
  match OIDs with
  | [a; b] => Ok (a, b)
  | [] | [_] =>
      Raise (ValueError
               ("not enough values to unpack (expected 2, got " ++
                str_of_Z (Z.of_nat (List.length OIDs)) ++ ")"))
  | _ => Raise (ValueError "too many values to unpack (expected 2)")
  end.

(** [OneOf._register_oid]. *)
Definition _register_oid (self : OneOf.t) (d : Postgres)
  : result unit * OneOf.t * Postgres :=
  match OneOf._type_oid self, OneOf._type_array_oid self with
  | None, None =>
      let (OIDs, d') := get_type_OID d (OneOf.type_name self) in
      match unpack2 OIDs with
      | Ok (oid, array_oid) =>
          (Ok tt, OneOf.set_oids self (Some oid) (Some array_oid), d')
      | Raise e => (Raise e, self, d')
      end
  | _, _ => (Ok tt, self, d)
  end.

(** [OneOf.register_type]: a [ValueError] becomes a warning. *)
Definition register_type (self : OneOf.t) (w : world)
  : result unit * OneOf.t * world :=
  match _register_oid self (db w) with
  | (Ok _, self', d') =>
      let (ENUMTYPE, r1) :=
        reg_type (upper (OneOf.type_name self')) (OneOf._type_oid self')
                 (types_registered w) in
      let (_, r2) :=
        reg_array_type (upper (OneOf.type_name self') ++ "ARRAY")
                       (OneOf._type_array_oid self') ENUMTYPE r1 in
      (Ok tt, self',
       {| db := d'; types_registered := r2; warnings := warnings w |})
  | (Raise (ValueError _), self', d') =>
      (Ok tt, self',
       {| db := d'; types_registered := types_registered w;
          warnings := ("Type `" ++ OneOf.type_name self' ++
                       "` not found in the database.") :: warnings w |})
  | (Raise e, self', d') =>
      (Raise e, self',
       {| db := d'; types_registered := types_registered w;
          warnings := warnings w |})
  end.

(** [register_type] called [n] times in a row on the same field. *)
Fixpoint register_times (n : nat) (self : OneOf.t) (w : world)
  : OneOf.t * world :=
  match n with
  | O => (self, w)
  | S k =>
      let '(_, self', w') := register_type self w in
      register_times k self' w'
  end.

End Registration.

(** ** The expression tree and its compiler *)

Module Expressions.

(** Modelled from the spec: the module [cargo.expressions] ([Expression],
    [Clause], [Function], [Case], [safe] and the compilation of a tree to
    [.string] and [.params]) is not among the sources; only its unit tests
    and its callers are.  The definitions below follow the compilation
    algorithm of section 4.4 of the specification, rule by rule, and the
    strings of [unit_tests/expressions/Case.py], where a placeholder is the
    marker [%s] that [string % params] fills. *)

(** A bound field as a leaf: its table, if any, and its column. *)
Record field : Type := {
  table : option string;
  field_name : string
}.

(** The closed variant type of operands and nodes. *)
Inductive node : Type :=
  | Field (f : field)
  | Literal (v : pyval)
  | Safe (text : string)
  | Expression (left : node) (operator : string) (right : node)
               (alias : option string) (group : bool)
  | Function (name : string) (argument : option node) (alias : option string)
  | Clause (keyword : string) (children : list node) (alias : option string)
  | Case (conditions : list (node * node)) (el : option node)
         (alias : option string) (use_field_name : bool).

(** A compiled fragment: the SQL text and its bind parameters, in order. *)
Record compiled : Type := {
  text : string;
  params : list pyval
}.

Definition BuildError (msg : string) : exn := OtherError "BuildError" msg.

(** Rule 1: [table.column], or the column alone in bare-name mode. *)
Definition render_field (bare : bool) (f : field) : string :=
  if bare then field_name f
  else match table f with
       | Some t => t ++ "." ++ field_name f
       | None => field_name f
       end.

(** Rule 7: the alias trails the node's own rendering, and is dropped where
    the node is an operand of another. *)
Definition with_alias (nested : bool) (alias : option string) (s : string)
  : string :=
  if nested then s
  else match alias with
       | Some a => s ++ " " ++ a
       | None => s
       end.

Definition grouped (group : bool) (s : string) : string :=
  if group then "(" ++ s ++ ")" else s.

Definition nothing : compiled := {| text := ""; params := [] |}.

(** Rules 1 to 7.  [bare] is the bare-field-name mode and [nested] tells
    that the node is an operand of another node. *)
Fixpoint compile (bare nested : bool) (n : node) {struct n} : result compiled :=
  match n with
  | Field f => Ok {| text := render_field bare f; params := [] |}
  | Literal v => Ok {| text := "%s"; params := [v] |}
  | Safe s => Ok {| text := s; params := [] |}
  | Expression l op r alias group =>
      cl <- compile bare true l ;;
      cr <- compile bare true r ;;
      Ok {| text := with_alias nested alias
                      (grouped group (text cl ++ " " ++ op ++ " " ++ text cr));
            params := (params cl ++ params cr)%list |}
  | Function name argument alias =>
      match argument with
      | None =>
          Ok {| text := with_alias nested alias (name ++ "()"); params := [] |}
      | Some a =>
          ca <- compile bare true a ;;
          Ok {| text := with_alias nested alias (name ++ "(" ++ text ca ++ ")");
                params := params ca |}
      end
  | Clause keyword children alias =>
      let each :=
        fix each (l : list node) {struct l} : result (list compiled) :=
          match l with
          | [] => Ok []
          | c :: rest =>
              x <- compile bare true c ;; xs <- each rest ;; Ok (x :: xs)
          end in
      cs <- each children ;;
      Ok {| text := with_alias nested alias (join " " (keyword :: map text cs));
            params := concat (map params cs) |}
  | Case conditions el alias use_field_name =>
      let whens :=
        fix whens (l : list (node * node)) {struct l} : result compiled :=
          match l with
          | [] => Ok nothing
          | (c, r) :: rest =>
              cc <- compile (bare || use_field_name) true c ;;
              cr <- compile bare true r ;;
              cs <- whens rest ;;
              Ok {| text := " WHEN " ++ text cc ++ " THEN " ++ text cr ++ text cs;
                    params := (params cc ++ params cr ++ params cs)%list |}
          end in
      match conditions, el with
      | [], None => Raise (BuildError "CASE without WHEN or ELSE")
      | _, _ =>
          w <- whens conditions ;;
          e <- match el with
               | None => Ok nothing
               | Some x =>
                   ce <- compile bare true x ;;
                   Ok {| text := " ELSE " ++ text ce; params := params ce |}
               end ;;
          Ok {| text := with_alias nested alias
                          ("CASE" ++ text w ++ text e ++ " END");
                params := (params w ++ params e)%list |}
      end
  end.

(** The [.string] and [.params] of a node. *)
Definition compiled_of (n : node) : result compiled := compile false false n.

(** The fluent builder behind [Case]: [when] appends pairs in call order
    and [el] replaces the else branch. *)
Record CaseBuilder : Type := {
  case_conditions : list (node * node);
  case_el : option node;
  case_alias : option string;
  case_use_field_name : bool
}.

Definition new_case (args : list (node * node)) (el : option node)
           (alias : option string) (use_field_name : bool) : CaseBuilder :=
  {| case_conditions := args; case_el := el; case_alias := alias;
     case_use_field_name := use_field_name |}.

Definition when (c : CaseBuilder) (args : list (node * node)) : CaseBuilder :=
  {| case_conditions := (case_conditions c ++ args)%list;
     case_el := case_el c; case_alias := case_alias c;
     case_use_field_name := case_use_field_name c |}.

Definition el (c : CaseBuilder) (v : node) : CaseBuilder :=
  {| case_conditions := case_conditions c;
     case_el := Some v; case_alias := case_alias c;
     case_use_field_name := case_use_field_name c |}.

Definition case_node (c : CaseBuilder) : node :=
  Case (case_conditions c) (case_el c) (case_alias c) (case_use_field_name c).

(** [field == literal] builds an expression. *)
Definition eq (l r : node) : node := Expression l "=" r None false.

(** [string % params] with a tuple: [%s] takes the next parameter and [%%]
    is a percent sign.  Other conversions are not modelled and are reported
    as errors. *)
Fixpoint py_format (s : string) (args : list pyval) : result string :=
  match s with
  | EmptyString =>
      match args with
      | [] => Ok EmptyString
      | _ => Raise (TypeError
                      "not all arguments converted during string formatting")
      end
  | String c tail =>
      if Ascii.eqb c "%" then
        match tail with
        | String d rest =>
            if Ascii.eqb d "s" then
              match args with
              | [] => Raise (TypeError "not enough arguments for format string")
              | a :: args' =>
                  r <- py_format rest args' ;; Ok (py_str a ++ r)
              end
            else if Ascii.eqb d "%" then
              r <- py_format rest args ;; Ok (String "%" r)
            else Raise (ValueError "unsupported format character")
        | EmptyString => Raise (ValueError "incomplete format")
        end
      else r <- py_format tail args ;; Ok (String c r)
  end.

(** The text with its parameters inlined. *)
Definition inlined (n : node) : result string :=
  c <- compiled_of n ;; py_format (text c) (params c).

(** The number of positional placeholders of a text: [%s] is one, [%%] is
    an escaped percent sign. *)
Fixpoint count_placeholders (s : string) : nat :=
  match s with
  | EmptyString => O
  | String c tail =>
      if Ascii.eqb c "%" then
        match tail with
        | String d rest =>
            if Ascii.eqb d "s" then S (count_placeholders rest)
            else if Ascii.eqb d "%" then count_placeholders rest
            else count_placeholders tail
        | EmptyString => O
        end
      else count_placeholders tail
  end.

(** A verbatim text is escaped when each percent sign in it is doubled. *)
Fixpoint escaped (s : string) : bool :=
  match s with
  | EmptyString => true
  | String c tail =>
      if Ascii.eqb c "%" then
        match tail with
        | String d rest => Ascii.eqb d "%" && escaped rest
        | EmptyString => false
        end
      else escaped tail
  end.

Definition escaped_opt (s : option string) : bool :=
  match s with
  | Some x => escaped x
  | None => true
  end.

(** Every verbatim text of a tree (names, operators, keywords, aliases and
    safe literals) is escaped.  Literal values are free. *)
Fixpoint verbatim_escaped (n : node) : bool :=
  match n with
  | Field f => escaped_opt (table f) && escaped (field_name f)
  | Literal _ => true
  | Safe s => escaped s
  | Expression l op r alias _ =>
      verbatim_escaped l && escaped op && verbatim_escaped r &&
      escaped_opt alias
  | Function name argument alias =>
      escaped name && escaped_opt alias &&
      match argument with
      | Some a => verbatim_escaped a
      | None => true
      end
  | Clause keyword children alias =>
      escaped keyword && escaped_opt alias &&
      forallb verbatim_escaped children
  | Case conditions el alias _ =>
      escaped_opt alias &&
      forallb (fun cr => verbatim_escaped (fst cr) && verbatim_escaped (snd cr))
              conditions &&
      match el with
      | Some x => verbatim_escaped x
      | None => true
      end
  end.

(** The nodes of a tree, itself included. *)
Fixpoint subtrees (n : node) : list node :=
  n ::
  match n with
  | Field _ | Literal _ | Safe _ => []
  | Expression l _ r _ _ => subtrees l ++ subtrees r
  | Function _ argument _ =>
      match argument with
      | Some a => subtrees a
      | None => []
      end
  | Clause _ children _ => flat_map subtrees children
  | Case conditions el _ _ =>
      flat_map (fun cr => subtrees (fst cr) ++ subtrees (snd cr)) conditions ++
      match el with
      | Some x => subtrees x
      | None => []
      end
  end%list.

End Expressions.

(** ** The time fields of [bloom.fields.datetimes] *)

Module BloomTime.

Section Arrow.

(** The libraries: [arrow] objects and [datetime] objects, the parser of
    [dateutil], [arrow.get] on a plain value and on a parsed date, and the
    [fromdatetime] constructor of the field's arrow type.  Each may raise. *)
Variables arrow datetime : Type.
Variable dateparser_parse : string -> result datetime.
Variable arrow_get : pyval -> result arrow.
Variable arrow_get_datetime : datetime -> result arrow.
Variable fromdatetime : arrow -> result arrow.

(** What a time field is called with and what it holds: an expression
    node, an [arrow.Arrow], or a plain value. *)
Inductive time_value : Type :=
  | AnExpression (n : Expressions.node)
  | AnArrow (a : arrow)
  | Plain (v : pyval).

Inductive time_slot : Type :=
  | unset
  | Held (v : time_value).

Record Time : Type := {
  _arrow : option arrow;
  time_held : time_slot
}.

(** [_get_arrow(typ, value)] is [typ.fromdatetime(arrow.get(value))]. *)
Definition _get_arrow (value : pyval) : result arrow :=
  a <- arrow_get value ;; fromdatetime a.

Definition _get_arrow_parsed (value : datetime) : result arrow :=
  a <- arrow_get_datetime value ;; fromdatetime a.

(** [Time.__call__], which [TimeTZ], [Date], [Timestamp] and [TimestampTZ]
    share.  Modelled from the spec: [Field._set_value] belongs to the base
    class, which is not among the sources; it stores the value. *)
Definition __call__ (self : Time) (arg : time_slot) : result time_slot * Time :=
  match arg with
  | unset => (Ok (time_held self), self)
  | Held (AnExpression n) =>
      let self' := {| _arrow := None; time_held := Held (AnExpression n) |} in
      (Ok (time_held self'), self')
  | Held (AnArrow a) =>
      let self' := {| _arrow := Some a; time_held := Held (AnArrow a) |} in
      (Ok (time_held self'), self')
  | Held (Plain value) =>
      match (match value with
             | VStr s => d <- dateparser_parse s ;; _get_arrow_parsed d
             | _ => _get_arrow value
             end) with
      | Ok a =>
          let self' := {| _arrow := Some a; time_held := Held (AnArrow a) |} in
          (Ok (time_held self'), self')
      | Raise e => (Raise e, self)
      end
  end.

End Arrow.

End BloomTime.

(** ** Vocabulary of the array properties *)

Module ArrayDepth.

(** The number of list levels of a value: 0 for anything that is not a
    list. *)
Fixpoint nesting (v : pyval) : nat :=
  match v with
  | VList l | VArr _ l => S (list_max (map nesting l))
  | _ => O
  end.

(** The nesting depth of a whole value with the items [items]: the value
    itself is level 1. *)
Definition depth (items : list pyval) : nat := S (list_max (map nesting items)).

(** The scalars of a value, in the order in which a cast meets them. *)
Fixpoint leaves (v : pyval) : list pyval :=
  match v with
  | VList l | VArr _ l => flat_map leaves l
  | _ => [v]
  end.

(** The element field accepts every scalar among [items]. *)
Definition all_accepted (elem : ElemField) (items : list pyval) : Prop :=
  Forall (fun x => exists y, call elem x = Ok y) (flat_map leaves items).

(** An element field that stores any value as it is, for examples. *)
Definition plain : ElemField :=
  {| call := fun x => Ok x; elem_type_name := "text" |}.

(** An element field that takes integers only, for examples. *)
Definition strict_int : ElemField :=
  {| call := fun x => match x with
                      | VInt z => Ok (VInt z)
                      | _ => Raise (TypeError "an integer is required")
                      end;
     elem_type_name := "integer" |}.

(** The same array with the depth check switched off. *)
Definition unchecked (self : Array.t) : Array.t :=
  {| Array.minlen := Array.minlen self; Array.maxlen := Array.maxlen self;
     Array.type := Array.type self; Array.dimensions := None;
     Array.value := Array.value self |}.

Definition new_array (elem : ElemField) (dims : option Z) : Array.t :=
  {| Array.minlen := 0; Array.maxlen := -1; Array.type := elem;
     Array.dimensions := dims; Array.value := empty |}.

(** The walk of a cast under the bound [n], followed without the element
    field: for an item [x] of a sequence that is cast at [dimension], the
    values the walk hands to the element field, in the order in which it
    comes to them, up to the first list that it would cast past the bound;
    the flag tells whether it comes to such a list.  A list among the items
    is cast one dimension further; anything else is handed over as it
    is. *)
Fixpoint walk (n dimension : Z) (x : pyval) {struct x} : list pyval * bool :=
  let inside (l : list pyval) : list pyval * bool :=
    if dimension + 1 >? n then ([], true)
    else
      (fix walk_in (items : list pyval) {struct items} : list pyval * bool :=
         match items with
         | [] => ([], false)
         | y :: rest =>
             let (p, stop) := walk n (dimension + 1) y in
             if stop then (p, true)
             else let (q, stop') := walk_in rest in ((p ++ q)%list, stop')
         end) l in
  match x with
  | VList l | VArr _ l => inside l
  | _ => ([x], false)
  end.

(** The same over the items of a sequence cast at [dimension]. *)
Fixpoint walk_items (n dimension : Z) (items : list pyval)
  : list pyval * bool :=
  match items with
  | [] => ([], false)
  | y :: rest =>
      let (p, stop) := walk n dimension y in
      if stop then (p, true)
      else let (q, stop') := walk_items n dimension rest in
           ((p ++ q)%list, stop')
  end.

(** The values met before the first list past the bound, for a value with
    the items [items] that is cast at [dimension]: none when the value
    itself is past the bound. *)
Definition met_before (n dimension : Z) (items : list pyval) : list pyval :=
  if dimension >? n then [] else fst (walk_items n dimension items).

(** The element field accepts each of the values [l]. *)
Definition accepts (elem : ElemField) (l : list pyval) : Prop :=
  Forall (fun x => exists y, call elem x = Ok y) l.

End ArrayDepth.

(** ** Sample fields *)

Module Samples.

(** [OneOf('cat', 'dog', 'mouse')], unset and unbound. *)
Definition pets : OneOf.t :=
  {| OneOf.types := [VStr "cat"; VStr "dog"; VStr "mouse"];
     OneOf._type_name := None; OneOf._type_oid := None;
     OneOf._type_array_oid := None; OneOf.table := None;
     OneOf.field_name := None; OneOf.value := empty |}.

(** A constructor that refuses every value. *)
Definition refuse (v : pyval) : result pyval :=
  Raise (ValueError "refused").

(** An [IP] field built without a request. *)
Definition ip_without_request : Networking.IP :=
  {| Networking._request := None; Networking._default := VNone;
     Networking.ip_value := empty |}.

(** [Array(dimensions=1)] over an element field that accepts anything. *)
Definition one_dimension : Array.t :=
  ArrayDepth.new_array ArrayDepth.plain (Some 1).

(** A database that knows no type, with nothing executed, registered or
    warned about yet. *)
Definition blank_world : Registration.world :=
  {| Registration.db := {| Clients.pg_type := fun _ _ => [];
                           Clients.executed := [] |};
     Registration.types_registered := [];
     Registration.warnings := [] |}.

(** A database that holds the enum type of [pets] and its array type. *)
Definition pets_world : Registration.world :=
  {| Registration.db :=
       {| Clients.pg_type := fun _ _ => [(16385, "__enumtype");
                                         (16384, "___enumtype")];
          Clients.executed := [] |};
     Registration.types_registered := [];
     Registration.warnings := [] |}.

(** The scenario of [TestCase.test_el]: a field bound to table [foo],
    column [bar]; the case built in one call; and the case built step by
    step, with a second [el] after the first. *)
Definition fielda : Expressions.node :=
  Expressions.Field {| Expressions.table := Some "foo";
                       Expressions.field_name := "bar" |}.

Definition case : Expressions.CaseBuilder :=
  Expressions.new_case
    [(Expressions.eq fielda (Expressions.Literal (VInt 1)),
      Expressions.Literal (VStr "one"));
     (Expressions.eq fielda (Expressions.Literal (VInt 2)),
      Expressions.Literal (VStr "two"))]
    (Some (Expressions.Literal (VStr "three"))) None false.

Definition caseb : Expressions.CaseBuilder :=
  let c0 := Expressions.new_case [] None None false in
  let c1 := Expressions.when c0
              [(Expressions.eq fielda (Expressions.Literal (VInt 1)),
                Expressions.Literal (VStr "one"))] in
  let c2 := Expressions.when c1
              [(Expressions.eq fielda (Expressions.Literal (VInt 2)),
                Expressions.Literal (VStr "two"))] in
  let c3 := Expressions.el c2 (Expressions.Literal (VStr "four")) in
  Expressions.el c3 (Expressions.Literal (VStr "three")).

End Samples.

(** ** More of [cargo.fields.sequence] *)

Module EnumIndex.

(** [tuple.index(x)]: the position of the first item equal to [x]. *)
Fixpoint index_from (x : pyval) (l : list pyval) (i : nat) : option nat :=
  match l with
  | [] => None
  | item :: rest => if py_eq item x then Some i else index_from x rest (S i)
  end.

(** [OneOf.index_of]: [type or self.value] is looked up in [types].  The
    unset sentinel is in no tuple of values. *)
Definition index_of (self : OneOf.t) (type : pyval) : result nat :=
  let key := if Networking.truthy type then Val type else OneOf.value self in
  match key with
  | empty => Raise (ValueError "tuple.index(x): x not in tuple")
  | Val x =>
      match index_from x (OneOf.types self) O with
      | Some i => Ok i
      | None => Raise (ValueError "tuple.index(x): x not in tuple")
      end
  end.

End EnumIndex.

Module ArrayOps.

Definition IndexError (msg : string) : exn := OtherError "IndexError" msg.

(** The position that [index] denotes in a list: a negative index counts
    from the end, and a position outside the list is none. *)
Definition list_position (index : Z) (l : list pyval) : option nat :=
  let len := Z.of_nat (List.length l) in
  let i := if index <? 0 then index + len else index in
  if (0 <=? i) && (i <? len) then Some (Z.to_nat i) else None.

Fixpoint replace_at (k : nat) (y : pyval) (l : list pyval) : list pyval :=
  match l, k with
  | [], _ => []
  | _ :: rest, O => y :: rest
  | x :: rest, S k' => x :: replace_at k' y rest
  end.

Fixpoint remove_at (k : nat) (l : list pyval) : list pyval :=
  match l, k with
  | [], _ => []
  | _ :: rest, O => rest
  | x :: rest, S k' => x :: remove_at k' rest
  end.

(** The name of the class of what a field holds, for messages. *)
Definition held_class (s : slot) : string :=
  match s with
  | empty => "object"
  | Val v => Array.class_name v
  end.

(** [Array.__getitem__] with an integer index. *)
Definition __getitem__ (self : Array.t) (index : Z) : result pyval :=
  match Array.value self with
  | Val (VList l) | Val (VArr _ l) | Val (VTuple l) =>
      match list_position index l with
      | Some k => match nth_error l k with
                  | Some x => Ok x
                  | None => Raise (IndexError "list index out of range")
                  end
      | None => Raise (IndexError "list index out of range")
      end
  | Val (VStr s) =>
      match list_position index (chars s) with
      | Some k => match nth_error (chars s) k with
                  | Some x => Ok x
                  | None => Raise (IndexError "string index out of range")
                  end
      | None => Raise (IndexError "string index out of range")
      end
  | other =>
      Raise (TypeError ("'" ++ held_class other ++
                        "' object is not subscriptable"))
  end.

(** [Array.__setitem__] with an integer index: [_make_list] runs, then the
    value is cast with the default dimension of [_select_cast], 1, and only
    then is the position looked for. *)
Definition __setitem__ (self : Array.t) (index : Z) (value : pyval)
  : result unit * Array.t :=
  let self := Array._make_list self in
  match Array._select_cast self value 1 with
  | Raise e => (Raise e, self)
  | Ok y =>
      let store (l : list pyval) (wrap : list pyval -> pyval) :=
        match list_position index l with
        | Some k => (Ok tt, Array.set_value self (Val (wrap (replace_at k y l))))
        | None =>
            (Raise (IndexError "list assignment index out of range"), self)
        end in
      match Array.value self with
      | Val (VList l) => store l VList
      | Val (VArr ty l) => store l (VArr ty)
      | other =>
          (Raise (TypeError ("'" ++ held_class other ++
                             "' object does not support item assignment")),
           self)
      end
  end.

(** [Array.pop], whose default index is 0. *)
Definition pop (self : Array.t) (index : Z) : result pyval * Array.t :=
  let take (l : list pyval) (wrap : list pyval -> pyval) :=
    match l with
    | [] => (Raise (IndexError "pop from empty list"), self)
    | _ =>
        match list_position index l with
        | Some k =>
            match nth_error l k with
            | Some x => (Ok x, Array.set_value self (Val (wrap (remove_at k l))))
            | None => (Raise (IndexError "pop index out of range"), self)
            end
        | None => (Raise (IndexError "pop index out of range"), self)
        end
    end in
  match Array.value self with
  | Val (VList l) => take l VList
  | Val (VArr ty l) => take l (VArr ty)
  | _ => (Raise (OtherError "AttributeError" "pop"), self)
  end.

Fixpoint is_prefix (p s : string) : bool :=
  match p, s with
  | EmptyString, _ => true
  | String c p', String d s' => Ascii.eqb c d && is_prefix p' s'
  | _, _ => false
  end.

(** [p in s] on strings. *)
Fixpoint is_substring (p s : string) : bool :=
  is_prefix p s ||
  match s with
  | EmptyString => false
  | String _ rest => is_substring p rest
  end.

(** [Array.__contains__]: the value is cast first, from dimension 1, then
    looked for in what the field holds. *)
Definition __contains__ (self : Array.t) (value : pyval) : result bool :=
  match Array._select_cast self value 1 with
  | Raise e => Raise e
  | Ok y =>
      match Array.value self with
      | Val (VList l) | Val (VArr _ l) | Val (VTuple l) => Ok (py_in y l)
      | Val (VStr s) =>
          match y with
          | VStr p => Ok (is_substring p s)
          | _ =>
              Raise (TypeError
                       ("'in <string>' requires string as left operand, not " ++
                        Array.class_name y))
          end
      | other =>
          Raise (TypeError ("argument of type '" ++ held_class other ++
                            "' is not iterable"))
      end
  end.

End ArrayOps.

Module ListAdapter.

Section Quoting.

(** The driver: [psycopg2._psycopg.List(value)], prepared on the
    connection, and its [getquoted()]. *)
Variable List_getquoted : list pyval -> string.

(** [_ListAdapter.getquoted] on an arraylist that carries a type name:
    an array without items, or with an empty type name, is quoted by the
    driver alone; any other is followed by a cast to the array type. *)
Definition getquoted (cargotype : string) (items : list pyval) : string :=
  if Nat.eqb (List.length items) 0 || String.eqb cargotype ""
  then List_getquoted items
  else List_getquoted items ++ "::" ++ cargotype ++ "[]".

(** The adapter applied to what an array field holds; [None] when the
    value is not an arraylist, which other adapters handle. *)
Definition adapt_held (s : slot) : option string :=
  match s with
  | Val (VArr cargotype items) => Some (getquoted cargotype items)
  | _ => None
  end.

End Quoting.

End ListAdapter.

(** ** More of [bloom.fields.sequence] *)

Module BloomOneOf.

(** The [type_name] property of bloom:
    [(self._type_name or self.field_name or "") + '_enum_type']. *)
Definition type_name (self : OneOf.t) : string :=
  str_or (OneOf._type_name self)
         (match OneOf.field_name self with Some s => s | None => "" end)
  ++ "_enum_type".

(** [OneOf.register_type] of bloom: the identifiers are looked up at every
    call and kept nowhere. *)
Definition register_type (self : OneOf.t) (w : Registration.world)
  : result unit * Registration.world :=
  let (OIDs, d') := Clients.get_type_OID (Registration.db w) (type_name self) in
  match Registration.unpack2 OIDs with
  | Ok (typ, atyp) =>
      let (ENUMTYPE, r1) :=
        Registration.reg_type (Registration.upper (type_name self)) (Some typ)
                              (Registration.types_registered w) in
      let (_, r2) :=
        Registration.reg_array_type
          (Registration.upper (type_name self) ++ "ARRAY") (Some atyp)
          ENUMTYPE r1 in
      (Ok tt,
       {| Registration.db := d'; Registration.types_registered := r2;
          Registration.warnings := Registration.warnings w |})
  | Raise (ValueError _) =>
      (Ok tt,
       {| Registration.db := d';
          Registration.types_registered := Registration.types_registered w;
          Registration.warnings :=
            ("Type `" ++ type_name self ++ "` not found in the database.")
            :: Registration.warnings w |})
  | Raise e =>
      (Raise e,
       {| Registration.db := d';
          Registration.types_registered := Registration.types_registered w;
          Registration.warnings := Registration.warnings w |})
  end.

Fixpoint register_times (n : nat) (self : OneOf.t) (w : Registration.world)
  : Registration.world :=
  match n with
  | O => w
  | S k => register_times k self (snd (register_type self w))
  end.

End BloomOneOf.

(** ** More of [cargo.clients] *)

Module ClientEvents.

Definition KeyError (key : string) : exn := OtherError "KeyError" key.

(** A dictionary with string keys, in insertion order. *)
Fixpoint lookup {A : Type} (key : string) (d : list (string * A)) : option A :=
  match d with
  | [] => None
  | (k, v) :: rest => if String.eqb k key then Some v else lookup key rest
  end.

(** [d[key] = v]: the value of an existing key is replaced where it is, a
    new key goes last. *)
Fixpoint store {A : Type} (key : string) (v : A) (d : list (string * A))
  : list (string * A) :=
  match d with
  | [] => [(key, v)]
  | (k, old) :: rest =>
      if String.eqb k key then (k, v) :: rest else (k, old) :: store key v rest
  end.

(** The hooks of a client: [self._events], from [when] to event name to
    the tasks attached, each task standing for a callable.  By default the
    outer dictionary is a [defaultdict(dict)]; a dictionary passed by the
    caller is not. *)
Record events : Type := {
  is_defaultdict : bool;
  whens : list (string * list (string * list nat))
}.

(** [self._events[when]]: a defaultdict creates the missing entry. *)
Definition get_when (ev : events) (when : string)
  : result (list (string * list nat)) * events :=
  match lookup when (whens ev) with
  | Some t => (Ok t, ev)
  | None =>
      if is_defaultdict ev
      then (Ok [], {| is_defaultdict := true;
                      whens := store when [] (whens ev) |})
      else (Raise (KeyError when), ev)
  end.

Definition set_hooks (ev : events) (when event : string) (l : list nat)
  : events :=
  {| is_defaultdict := is_defaultdict ev;
     whens := store when
                (store event l
                   (match lookup when (whens ev) with
                    | Some t => t
                    | None => []
                    end))
                (whens ev) |}.

(** [BasePostgresClient._attach_event]. *)
Definition _attach_event (ev : events) (when event : string) (task : nat)
  : result unit * events :=
  let event := Registration.upper event in
  let attempt :=
    match get_when ev when with
    | (Raise e, ev1) => (Raise e, ev1)
    | (Ok t, ev1) =>
        match lookup event t with
        | None => (Raise (KeyError event), ev1)
        | Some l =>
            if existsb (Nat.eqb task) l then (Ok tt, ev1)
            else (Ok tt, set_hooks ev1 when event (l ++ [task])%list)
        end
    end in
  match attempt with
  | (Raise (OtherError "KeyError" _), ev1) =>
      match get_when ev1 when with
      | (Raise e, ev2) => (Raise e, ev2)
      | (Ok _, ev2) => (Ok tt, set_hooks ev2 when event [task])
      end
  | other => other
  end.

(** [before] and [after]. *)
Definition before (ev : events) (event : string) (task : nat)
  : result unit * events := _attach_event ev "BEFORE" event task.

Definition after (ev : events) (event : string) (task : nat)
  : result unit * events := _attach_event ev "AFTER" event task.

Section Callbacks.

(** What the callables do: each runs on whatever it can reach, and may
    raise.  The callables do not attach hooks themselves. *)
Variable W : Type.
Variable run : nat -> W -> result unit * W.

Fixpoint run_all (l : list nat) (w : W) : result unit * W :=
  match l with
  | [] => (Ok tt, w)
  | t :: rest =>
      match run t w with
      | (Ok _, w') => run_all rest w'
      | (Raise e, w') => (Raise e, w')
      end
  end.

(** [BasePostgresClient._apply_event]: the lookup and the loop are both
    inside the [try], so a [KeyError] of either is dropped. *)
Definition _apply_event (ev : events) (when event : string) (w : W)
  : result unit * events * W :=
  let event := Registration.upper event in
  match get_when ev when with
  | (Raise (OtherError "KeyError" _), ev1) => (Ok tt, ev1, w)
  | (Raise e, ev1) => (Raise e, ev1, w)
  | (Ok t, ev1) =>
      match lookup event t with
      | None => (Ok tt, ev1, w)
      | Some l =>
          match run_all l w with
          | (Raise (OtherError "KeyError" _), w') => (Ok tt, ev1, w')
          | (r, w') => (r, ev1, w')
          end
      end
  end.

End Callbacks.

End ClientEvents.

Module ClientConfig.

(** The configuration of a [Postgres] client that its [schema] property
    reads. *)
Record config : Type := {
  _connection_options : list (string * pyval);
  _schema : pyval
}.

(** The [schema] property:
    [opt.get('schema', opt.get('search_path', self._schema))]. *)
Definition schema (self : config) : pyval :=
  match ClientEvents.lookup "schema" (_connection_options self) with
  | Some v => v
  | None =>
      match ClientEvents.lookup "search_path" (_connection_options self) with
      | Some v => v
      | None => _schema self
      end
  end.

(** [set_schema]. *)
Definition set_schema (self : config) (s : pyval) : config :=
  {| _connection_options := _connection_options self; _schema := s |}.

(** [str.replace(old, new)] for a non-empty [old]: occurrences are taken
    from the left and do not overlap.  [skip] counts the characters of a
    replaced occurrence still to pass. *)
Fixpoint replace_from (old new : string) (skip : nat) (s : string) : string :=
  match s with
  | EmptyString => EmptyString
  | String c rest =>
      match skip with
      | S k => replace_from old new k rest
      | O =>
          if ArrayOps.is_prefix old s
          then new ++ replace_from old new (String.length old - 1) rest
          else String c (replace_from old new O rest)
      end
  end.

Definition replace (old new s : string) : string := replace_from old new O s.

(** The options of a connection: a dictionary, or anything else, here a
    text, which has no [items]. *)
Inductive dsn_options : Type :=
  | DsnText (s : string)
  | DsnDict (d : list (string * pyval)).

Definition dsn_key (k : string) : bool :=
  existsb (String.eqb k)
          ["dbname"; "database"; "user"; "password"; "host"; "port"].

(** [BasePostgresClient.to_dsn]. *)
Definition to_dsn (opt : dsn_options) : string :=
  match opt with
  | DsnText s => s
  | DsnDict d =>
      join " "
           (map (fun kv => replace "database" "dbname" (fst kv) ++ "=" ++
                           py_str (snd kv))
                (filter (fun kv => dsn_key (fst kv)) d))
  end.

Section TypeNames.

(** The table [OID_map] of [cargo.etc.translator.postgres], which is not
    among the sources, and the catalog query of [get_type_name]: creating
    the cursor, executing and [fetchall()], which returns a list of rows
    or raises. *)
Variable OID_map : Z -> option string.
Variable fetch_type : Z -> result (list (Z * string)).

(** [BasePostgresClient.get_type_name]: the list that [fetchall()] returns
    has no attribute [oid]. *)
Definition get_type_name (OID : Z) : result string :=
  match OID_map OID with
  | Some name => Ok name
  | None =>
      match fetch_type OID with
      | Raise e => Raise e
      | Ok res =>
          Raise (OtherError "AttributeError"
                            "'list' object has no attribute 'oid'")
      end
  end.

End TypeNames.

End ClientConfig.

(** ** The password hasher of [bloom.fields.extras] *)

Module BloomHasher.

Definition IncorrectPasswordError : exn :=
  OtherError "IncorrectPasswordError" "The given password is incorrect.".

Definition VerificationError (msg : string) : exn :=
  OtherError "argon2.exceptions.VerificationError" msg.

Section Context.

(** [self.context.verify(value, hash)], which tells or raises. *)
Variable context_verify : pyval -> pyval -> result bool.

(** [Hasher._raise_if]: [raises is True]. *)
Definition _raise_if (raises : pyval) : result unit :=
  match raises with
  | VBool true => Raise IncorrectPasswordError
  | _ => Ok tt
  end.

(** [Hasher.verify].  [_raise_if] is called whatever the verdict.  Of the
    exceptions of the context, [ValueError] and argon2's
    [VerificationError] are caught; a class that derives from one of them is
    not told apart here and counts as any other exception. *)
Definition verify (raises : pyval) (value hash : pyval) : result bool :=
  match hash, value with
  | VNone, _ | _, VNone => _ <- _raise_if raises ;; Ok false
  | _, _ =>
      verdict <- match context_verify value hash with
                 | Ok b => Ok b
                 | Raise (OtherError "argon2.exceptions.VerificationError" _) =>
                     Ok false
                 | Raise (ValueError _) => Ok false
                 | Raise e => Raise e
                 end ;;
      _ <- _raise_if raises ;;
      Ok verdict
  end.

End Context.

End BloomHasher.

(** ** Auxiliary definitions of the proofs *)

Section ProofVocabulary.

Import Expressions.

(** One step of the generator of [_cast], as a function of the item. *)
Definition cast_item (self : Array.t) (next_dimension : Z) (x : pyval)
  : result pyval :=
  if negb (isinstance_list x) then call (Array.type self) x
  else Array._cast self x next_dimension.

Definition bloom_cast_item (self : Array.t) (next_dimension : Z) (x : pyval)
  : result pyval :=
  if negb (isinstance_list x) then call (Array.type self) x
  else BloomArray._cast self x next_dimension.

(** What [_cast] returns for the cast items: a plain list below the top
    level, the tagged arraylist at the top. *)
Definition finish (self : Array.t) (dimension : Z) (items : list pyval)
  : pyval :=
  if dimension >? 1 then VList items else Array._add_arr_type self items.

(** The depth check passes on [levels] consecutive dimensions from [d]. *)
Definition fits (self : Array.t) (d : Z) (levels : nat) : Prop :=
  forall k : nat, (k < levels)%nat ->
    Array.depth_exceeded self (d + Z.of_nat k) = None.

(** Two outcomes agree: the same exception, or equal values. *)
Definition agree (r1 r2 : result pyval) : Prop :=
  match r1, r2 with
  | Ok a, Ok b => py_eq a b = true
  | Raise e1, Raise e2 => e1 = e2
  | _, _ => False
  end.

(** The queries executed so far, latest first. *)
Definition queries (w : Registration.world) : list (string * string) :=
  Clients.executed (Registration.db w).

(** A field whose cache holds an identifier. *)
Definition cached (self : OneOf.t) : Prop :=
  OneOf._type_oid self <> None \/ OneOf._type_array_oid self <> None.

(** A text is closed when no percent sign is left dangling: each one starts
    [%s] or [%%]. *)
Fixpoint closed (s : string) : bool :=
  match s with
  | EmptyString => true
  | String c tail =>
      if Ascii.eqb c "%" then
        match tail with
        | String d rest => (Ascii.eqb d "s" || Ascii.eqb d "%") && closed rest
        | EmptyString => false
        end
      else closed tail
  end.

(** [s] is closed and holds [n] placeholders. *)
Definition holds (s : string) (n : nat) : Prop :=
  closed s = true /\ count_placeholders s = n.

(** A compiled fragment is aligned when its text is closed and holds as
    many placeholders as it has parameters. *)
Definition aligned (c : compiled) : Prop :=
  closed (text c) = true /\
  count_placeholders (text c) = List.length (params c).

Definition compiles_aligned (n : node) : Prop :=
  verbatim_escaped n = true ->
  forall (bare nested : bool) (c : compiled),
    compile bare nested n = Ok c -> aligned c.

(** The loop over the pairs of a case, as a function of its own. *)
Fixpoint compile_whens (bare use_field_name : bool) (l : list (node * node))
  : result compiled :=
  match l with
  | [] => Ok nothing
  | (c, r) :: rest =>
      cc <- compile (bare || use_field_name) true c ;;
      cr <- compile bare true r ;;
      cs <- compile_whens bare use_field_name rest ;;
      Ok {| text := " WHEN " ++ text cc ++ " THEN " ++ text cr ++ text cs;
            params := (params cc ++ params cr ++ params cs)%list |}
  end.

Definition compile_else (bare : bool) (el : option node) : result compiled :=
  match el with
  | None => Ok nothing
  | Some x =>
      ce <- compile bare true x ;;
      Ok {| text := " ELSE " ++ text ce; params := params ce |}
  end.

(** An outcome [r] follows a walk [w] under the bound [n]: when the
    element field accepts every value of the walk, [r] is the depth
    ValueError if the walk came to a list past the bound and a value if it
    did not; and when the element field refuses a value of the walk, having
    accepted those before it, [r] is the exception of that value. *)
Definition walked {A : Type} (self : Array.t) (n : Z)
           (w : list pyval * bool) (r : result A) : Prop :=
  (ArrayDepth.accepts (Array.type self) (fst w) ->
   if snd w then r = Raise (ValueError (Array.depth_message (n + 1) n))
   else exists a, r = Ok a)
  /\
  (forall (pre : list pyval) (z : pyval) (post : list pyval) (e : exn),
      fst w = (pre ++ z :: post)%list ->
      ArrayDepth.accepts (Array.type self) pre ->
      call (Array.type self) z = Raise e ->
      r = Raise e).

End ProofVocabulary.

(** ** Auxiliary definitions of the further proofs *)

Section FurtherVocabulary.

(** The element field turns a value that is not a list into a value that
    is not a list. *)
Definition scalar_results (elem : ElemField) : Prop :=
  forall x y, isinstance_list x = false -> call elem x = Ok y ->
              isinstance_list y = false.

(** What a field holds has at most [n] levels. *)
Definition within_bound (s : slot) (n : Z) : Prop :=
  match s with
  | Val (VList l) | Val (VArr _ l) => Z.of_nat (ArrayDepth.depth l) <= n
  | _ => True
  end.

(** A byte that base64 decoding looks at: one of the alphabet, or the
    pad. *)
Definition is_b64_byte (b : Byte.byte) : bool :=
  match Base64.b64_index b with
  | Some _ => true
  | None => Byte.eqb b Base64.pad
  end.

Definition starts_with_space (s : string) : bool :=
  match s with
  | String c _ => Networking.is_space c
  | EmptyString => false
  end.

Fixpoint ends_with_space (s : string) : bool :=
  match s with
  | EmptyString => false
  | String c EmptyString => Networking.is_space c
  | String _ rest => ends_with_space rest
  end.

(** The tasks attached to an event, in the order in which they fire. *)
Definition registered (ev : ClientEvents.events) (when event : string)
  : list nat :=
  match ClientEvents.lookup when (ClientEvents.whens ev) with
  | Some t =>
      match ClientEvents.lookup (Registration.upper event) t with
      | Some l => l
      | None => []
      end
  | None => []
  end.

(** The key [database] written as [dbname]. *)
Definition canonical_key (kv : string * pyval) : string * pyval :=
  (if String.eqb (fst kv) "database" then "dbname" else fst kv, snd kv).

End FurtherVocabulary.

(** * Properties *)

(** ** Induction on values *)

Section PyvalInduction.

Variable P : pyval -> Prop.
Hypothesis HNone : P VNone.
Hypothesis HBool : forall b, P (VBool b).
Hypothesis HInt : forall z, P (VInt z).
Hypothesis HStr : forall s, P (VStr s).
Hypothesis HTuple : forall l, Forall P l -> P (VTuple l).
Hypothesis HList : forall l, Forall P l -> P (VList l).
Hypothesis HArr : forall t l, Forall P l -> P (VArr t l).

Lemma pyval_nested_ind : forall v, P v.
Proof.
  fix IH 1.
  assert (all : forall l, Forall P l).
  { fix IHl 1. intros [|x l].
    - constructor.
    - constructor; [apply IH | apply IHl]. }
  intros [| b | z | s | l | l | t l].
  - exact HNone.
  - apply HBool.
  - apply HInt.
  - apply HStr.
  - apply HTuple, all.
  - apply HList, all.
  - apply HArr, all.
Qed.

End PyvalInduction.

Lemma bind_ok {A B : Type} (m : result A) (k : A -> result B) (a : A) :
  m = Ok a -> bind m k = k a.
Proof. intros ->. reflexivity. Qed.

Lemma bind_raise {A B : Type} (m : result A) (k : A -> result B) (e : exn) :
  m = Raise e -> bind m k = Raise e.
Proof. intros ->. reflexivity. Qed.

(** ** Equality of values *)

Lemma py_eq_refl : forall v, py_eq v v = true.
Proof.
  induction v as [| b | z | s | l IH | l IH | t l IH] using pyval_nested_ind;
    simpl.
  - reflexivity.
  - destruct b; reflexivity.
  - apply Z.eqb_refl.
  - apply String.eqb_refl.
  - induction IH as [|x l Hx _ IHl]; [reflexivity|]. now rewrite Hx.
  - induction IH as [|x l Hx _ IHl]; [reflexivity|]. now rewrite Hx.
  - induction IH as [|x l Hx _ IHl]; [reflexivity|]. now rewrite Hx.
Qed.

Lemma py_in_spec (v : pyval) (types : list pyval) :
  py_in v types = true <-> exists m, In m types /\ py_eq m v = true.
Proof. unfold py_in. apply existsb_exists. Qed.

(** ** Enumerated fields *)

(** C4: a call of a OneOf field with a value that is None, or that compares
    equal to a member of [types], stores and returns that value; a call with
    any other value raises a ValueError whose message is the attempted value
    between backquotes, followed by "not in" and the whole tuple, and leaves
    the field as it was.  None is stored whatever [types] holds. *)
Theorem oneof_call_membership (self : OneOf.t) (v : pyval) :
  ((v = VNone \/ exists m, In m (OneOf.types self) /\ py_eq m v = true) ->
   OneOf.__call__ self (Val v) = (Ok (Val v), OneOf.set_value self (Val v)))
  /\
  (v <> VNone ->
   (forall m, In m (OneOf.types self) -> py_eq m v = false) ->
   OneOf.__call__ self (Val v) =
     (Raise (ValueError ("`" ++ py_str v ++ "` not in " ++
                         py_repr (VTuple (OneOf.types self)))), self))
  /\
  OneOf.__call__ self (Val VNone) =
    (Ok (Val VNone), OneOf.set_value self (Val VNone)).
Proof.
  split; [|split].
  - intros H. unfold OneOf.__call__.
    assert (E : OneOf.is_none v || py_in v (OneOf.types self) = true).
    { destruct H as [-> | H]; [reflexivity|].
      apply orb_true_iff. right. now apply py_in_spec. }
    rewrite E. reflexivity.
  - intros Hnone Hnot. unfold OneOf.__call__.
    assert (E : OneOf.is_none v || py_in v (OneOf.types self) = false).
    { apply orb_false_iff. split.
      - destruct v; try reflexivity. now elim Hnone.
      - destruct (py_in v (OneOf.types self)) eqn:Hin; [|reflexivity].
        apply py_in_spec in Hin. destruct Hin as [m [Hm Heq]].
        rewrite (Hnot m Hm) in Heq. discriminate. }
    rewrite E. reflexivity.
  - reflexivity.
Qed.

Lemma oneof_call_membership_witness :
  OneOf.__call__ Samples.pets (Val (VStr "goat")) =
    (Raise (ValueError "`goat` not in ('cat', 'dog', 'mouse')"), Samples.pets)
  /\ OneOf.__call__ Samples.pets (Val (VStr "dog")) =
       (Ok (Val (VStr "dog")), OneOf.set_value Samples.pets (Val (VStr "dog")))
  /\ fst (OneOf.__call__
            {| OneOf.types := [VStr (String "a" (String (ascii_of_nat 133) "b"))];
               OneOf._type_name := None; OneOf._type_oid := None;
               OneOf._type_array_oid := None; OneOf.table := None;
               OneOf.field_name := None; OneOf.value := empty |}
            (Val (VInt 3))) =
       Raise (ValueError "`3` not in ('a\x85b',)").
Proof.
  split; [|split].
  - refine (proj1 (proj2 (oneof_call_membership Samples.pets (VStr "goat"))) _ _).
    + discriminate.
    + intros m [<- | [<- | [<- | []]]]; reflexivity.
  - apply (proj1 (oneof_call_membership Samples.pets (VStr "dog"))).
    right. exists (VStr "dog"). split; [simpl; auto | reflexivity].
  - rewrite (proj1 (proj2 (oneof_call_membership
               {| OneOf.types :=
                    [VStr (String "a" (String (ascii_of_nat 133) "b"))];
                  OneOf._type_name := None; OneOf._type_oid := None;
                  OneOf._type_array_oid := None; OneOf.table := None;
                  OneOf.field_name := None; OneOf.value := empty |}
               (VInt 3)))).
    + reflexivity.
    + discriminate.
    + intros m [<- | []]; reflexivity.
Defined.

(** ** None is SQL NULL *)

(** The fields of cargo: whatever the constructors of the element field,
    of netaddr and of bitstring do, and whatever the field held, calling an
    Array, OneOf, IP, Cidr, MacAddress or Bit field with None returns None
    and leaves None in the value slot, which differs from the unset
    sentinel; no constructor decides the outcome, so none is consulted. *)
Theorem call_with_none_stores_null
        (IPAddress IPNetwork EUI BitArray : pyval -> result pyval) :
  (forall a : Array.t,
      Array.__call__ a (Val VNone) = (Ok (Val VNone), Array.set_value a (Val VNone)))
  /\ (forall o : OneOf.t,
      OneOf.__call__ o (Val VNone) = (Ok (Val VNone), OneOf.set_value o (Val VNone)))
  /\ (forall i : Networking.IP,
      Networking.IP__call__ IPAddress i (Val VNone) =
        (Ok (Val VNone), Networking.set_ip_value i (Val VNone)))
  /\ (forall c : Networking.Cidr,
      Networking.Cidr__call__ IPNetwork c (Val VNone) =
        (Ok (Val VNone), Networking.set_cidr_value c (Val VNone)))
  /\ (forall m : Networking.MacAddress,
      Networking.MacAddress__call__ EUI m (Val VNone) =
        (Ok (Val VNone), Networking.set_mac_value m (Val VNone)))
  /\ (forall b : Networking.Bit,
      Networking.Bit__call__ BitArray b (Val VNone) =
        (Ok (Val VNone), Networking.set_bit_value b (Val VNone)))
  /\ Val VNone <> empty.
Proof.
  repeat split; try reflexivity. discriminate.
Qed.

(** C5, where the code departs from it: the time fields of bloom ([Time],
    [TimeTZ], [Date], [Timestamp], [TimestampTZ]) have no branch for None.
    Called with None they hand None to [arrow.get] and to [fromdatetime]:
    the call raises when either refuses it, and otherwise stores the arrow
    object they build, so the field never holds None after such a call
    returns. *)
Theorem bloom_time_call_with_none
        (arrow datetime : Type)
        (dateparser_parse : string -> result datetime)
        (arrow_get : pyval -> result arrow)
        (arrow_get_datetime : datetime -> result arrow)
        (fromdatetime : arrow -> result arrow)
        (self : BloomTime.Time arrow) :
  BloomTime.__call__ arrow datetime dateparser_parse arrow_get
                     arrow_get_datetime fromdatetime self
                     (BloomTime.Held arrow (BloomTime.Plain arrow VNone)) =
    match (a <- arrow_get VNone ;; fromdatetime a) with
    | Ok a =>
        (Ok (BloomTime.Held arrow (BloomTime.AnArrow arrow a)),
         {| BloomTime._arrow := Some a;
            BloomTime.time_held :=
              BloomTime.Held arrow (BloomTime.AnArrow arrow a) |})
    | Raise e => (Raise e, self)
    end
  /\
  (forall r self',
      BloomTime.__call__ arrow datetime dateparser_parse arrow_get
                         arrow_get_datetime fromdatetime self
                         (BloomTime.Held arrow (BloomTime.Plain arrow VNone)) =
        (Ok r, self') ->
      BloomTime.time_held arrow self' <>
        BloomTime.Held arrow (BloomTime.Plain arrow VNone)).
Proof.
  split.
  - unfold BloomTime.__call__, BloomTime._get_arrow. reflexivity.
  - intros r self'. unfold BloomTime.__call__, BloomTime._get_arrow.
    destruct (a <- arrow_get VNone ;; fromdatetime a) as [a|e]; intros H.
    + injection H as _ <-. discriminate.
    + discriminate.
Qed.

(** ** The current address of a field without a request *)

(** C10: an IP field built with no request, called with IP.current (-1),
    takes the request address, which is None, returns None without raising
    and holds None afterwards; the address constructor plays no part. *)
Theorem ip_current_without_request
        (IPAddress : pyval -> result pyval) (default : pyval) (held : slot) :
  let self := {| Networking._request := None; Networking._default := default;
                 Networking.ip_value := held |} in
  Networking.current = VInt (-1)
  /\ Networking.request_ip self = Ok VNone
  /\ Networking.IP__call__ IPAddress self (Val Networking.current) =
       (Ok (Val VNone), Networking.set_ip_value self (Val VNone)).
Proof.
  repeat split.
Qed.

(** ** Array casting *)

Section ArrayCast.

Import ArrayDepth.

Variable self : Array.t.

Lemma mapM_ext {A B : Type} (f g : A -> result B) (l : list A) :
  Forall (fun x => f x = g x) l -> mapM f l = mapM g l.
Proof.
  induction 1 as [|x l Hx _ IH]; simpl; [reflexivity|].
  now rewrite Hx, IH.
Qed.

Lemma chars_not_lists (s : string) :
  Forall (fun x => isinstance_list x = false) (chars s).
Proof. induction s; simpl; constructor; auto. Qed.

Lemma cast_iter (v : pyval) (d : Z) (items : list pyval) :
  py_iter v = Some items ->
  Array._cast self v d =
    match Array.depth_exceeded self d with
    | Some n => Raise (ValueError (Array.depth_message d n))
    | None => ys <- mapM (cast_item self (d + 1)) items ;; Ok (finish self d ys)
    end.
Proof.
  assert (loop : forall l,
    (fix arr (items : list pyval) : result (list pyval) :=
       match items with
       | [] => Ok []
       | x :: rest =>
           y <- (if negb (isinstance_list x) then call (Array.type self) x
                 else Array._cast self x (d + 1)) ;;
           ys <- arr rest ;; Ok (y :: ys)
       end) l = mapM (cast_item self (d + 1)) l).
  { induction l as [|x l IH]; [reflexivity|].
    simpl mapM. rewrite <- IH. reflexivity. }
  intros Hiter.
  destruct v; try discriminate; simpl in Hiter; injection Hiter as <-;
    simpl; destruct (Array.depth_exceeded self d); try reflexivity.
  - rewrite (mapM_ext (call (Array.type self)) (cast_item self (d + 1))).
    + reflexivity.
    + eapply Forall_impl; [|apply chars_not_lists].
      intros x Hx. unfold cast_item. now rewrite Hx.
  - rewrite loop. reflexivity.
  - rewrite loop. reflexivity.
  - rewrite loop. reflexivity.
Qed.

Lemma cast_not_iterable (v : pyval) (d : Z) :
  py_iter v = None ->
  Array._cast self v d =
    match Array.depth_exceeded self d with
    | Some n => Raise (ValueError (Array.depth_message d n))
    | None => Raise (Array.not_iterable v)
    end.
Proof.
  destruct v; try discriminate; intros _; simpl;
    destruct (Array.depth_exceeded self d); reflexivity.
Qed.

Lemma bloom_cast_iter (v : pyval) (d n : Z) (items : list pyval) :
  Array.dimensions self = Some n ->
  py_iter v = Some items ->
  BloomArray._cast self v d =
    if d >? n then Raise (ValueError (Array.depth_message d n))
    else ys <- mapM (bloom_cast_item self (d + 1)) items ;;
         Ok (Array._add_arr_type self ys).
Proof.
  assert (loop : forall l,
    (fix arr (items : list pyval) : result (list pyval) :=
       match items with
       | [] => Ok []
       | x :: rest =>
           y <- (if negb (isinstance_list x) then call (Array.type self) x
                 else BloomArray._cast self x (d + 1)) ;;
           ys <- arr rest ;; Ok (y :: ys)
       end) l = mapM (bloom_cast_item self (d + 1)) l).
  { induction l as [|x l IH]; [reflexivity|].
    simpl mapM. rewrite <- IH. reflexivity. }
  intros Hn Hiter.
  destruct v; try discriminate; simpl in Hiter; injection Hiter as <-;
    simpl; unfold BloomArray.depth_exceeded; rewrite Hn;
    destruct (d >? n); try reflexivity.
  - rewrite (mapM_ext (call (Array.type self)) (bloom_cast_item self (d + 1))).
    + reflexivity.
    + eapply Forall_impl; [|apply chars_not_lists].
      intros x Hx. unfold bloom_cast_item. now rewrite Hx.
  - rewrite loop. reflexivity.
  - rewrite loop. reflexivity.
  - rewrite loop. reflexivity.
Qed.

Lemma bloom_cast_not_iterable (v : pyval) (d n : Z) :
  Array.dimensions self = Some n ->
  py_iter v = None ->
  BloomArray._cast self v d =
    if d >? n then Raise (ValueError (Array.depth_message d n))
    else Raise (Array.not_iterable v).
Proof.
  intros Hn.
  destruct v; try discriminate; intros _; simpl;
    unfold BloomArray.depth_exceeded; rewrite Hn;
    destruct (d >? n); reflexivity.
Qed.

End ArrayCast.

Section ArrayDepthCheck.

Import ArrayDepth.

Variable self : Array.t.

Lemma nesting_list (x : pyval) (items : list pyval) :
  isinstance_list x = true -> py_iter x = Some items -> nesting x = depth items.
Proof.
  destruct x; try discriminate; intros _ H; injection H as <-; reflexivity.
Qed.

Lemma list_iterable (x : pyval) :
  isinstance_list x = true -> exists items, py_iter x = Some items.
Proof. destruct x; try discriminate; intros _; eexists; reflexivity. Qed.

Lemma leaves_list (x : pyval) (items : list pyval) :
  isinstance_list x = true -> py_iter x = Some items ->
  leaves x = flat_map leaves items.
Proof.
  destruct x; try discriminate; intros _ H; injection H as <-; reflexivity.
Qed.

Lemma leaves_scalar (x : pyval) : isinstance_list x = false -> leaves x = [x].
Proof. destruct x; try discriminate; reflexivity. Qed.

Lemma nesting_scalar (x : pyval) : isinstance_list x = false -> nesting x = O.
Proof. destruct x; try discriminate; reflexivity. Qed.

Lemma all_accepted_cons (elem : ElemField) (x : pyval) (rest : list pyval) :
  all_accepted elem (x :: rest) ->
  Forall (fun v => exists y, call elem v = Ok y) (leaves x) /\
  all_accepted elem rest.
Proof.
  unfold all_accepted. simpl. intros H. now apply Forall_app in H.
Qed.

Lemma depth_chars (s : string) : depth (chars s) = 1%nat.
Proof.
  unfold depth. f_equal. induction s; simpl; [reflexivity|].
  unfold list_max in *. simpl. exact IHs.
Qed.

(** A value whose levels all pass the check, and whose scalars the element
    field accepts, is cast. *)
Lemma cast_accepts :
  forall (v : pyval) (d : Z) (items : list pyval),
    py_iter v = Some items ->
    fits self d (depth items) ->
    all_accepted (Array.type self) items ->
    exists a, Array._cast self v d = Ok a.
Proof.
  assert (step : forall (l : list pyval) (d : Z),
    Forall (fun v => isinstance_list v = true ->
              forall d items, py_iter v = Some items ->
              fits self d (depth items) ->
              all_accepted (Array.type self) items ->
              exists a, Array._cast self v d = Ok a) l ->
    fits self d (depth l) ->
    all_accepted (Array.type self) l ->
    exists a, ys <- mapM (cast_item self (d + 1)) l ;; Ok (finish self d ys) = Ok a).
  { intros l d IH Hfit Hacc.
    assert (H : exists ys, mapM (cast_item self (d + 1)) l = Ok ys).
    { induction IH as [|x l Hx _ IHl]; [eexists; reflexivity|].
      apply all_accepted_cons in Hacc. destruct Hacc as [Hleaf Hrest].
      assert (Hy : exists y, cast_item self (d + 1) x = Ok y).
      { unfold cast_item. destruct (isinstance_list x) eqn:Hx'; simpl.
        - destruct (list_iterable x Hx') as [xs Hxs].
          apply (Hx eq_refl (d + 1) xs Hxs).
          + intros k Hk. rewrite <- Z.add_assoc.
            replace (1 + Z.of_nat k) with (Z.of_nat (S k)) by lia.
            apply Hfit. unfold depth in *. simpl.
            rewrite (nesting_list x xs Hx' Hxs). unfold depth. lia.
          + unfold all_accepted. now rewrite <- (leaves_list x xs Hx' Hxs).
        - rewrite (leaves_scalar x Hx') in Hleaf. now inversion Hleaf. }
      destruct Hy as [y Hy].
      destruct IHl as [ys Hys].
      + intros k Hk. apply Hfit. unfold depth in *. simpl. lia.
      + exact Hrest.
      + exists (y :: ys). simpl. now rewrite Hy, Hys. }
    destruct H as [ys ->]. eexists; reflexivity. }
  assert (top : forall (v : pyval) (d : Z) (items : list pyval),
    py_iter v = Some items ->
    Forall (fun v => isinstance_list v = true ->
              forall d items, py_iter v = Some items ->
              fits self d (depth items) ->
              all_accepted (Array.type self) items ->
              exists a, Array._cast self v d = Ok a) items ->
    fits self d (depth items) ->
    all_accepted (Array.type self) items ->
    exists a, Array._cast self v d = Ok a).
  { intros v d items Hiter IH Hfit Hacc.
    rewrite (cast_iter self v d items Hiter).
    assert (H0 : Array.depth_exceeded self d = None).
    { rewrite <- (Z.add_0_r d). apply (Hfit O). unfold depth. lia. }
    rewrite H0. now apply step. }
  induction v as [| b | z | s | l IH | l IH | t l IH] using pyval_nested_ind;
    intros d items Hiter Hfit Hacc; try discriminate;
    apply (top _ d items Hiter); try assumption;
    simpl in Hiter; injection Hiter as <-.
  - eapply Forall_impl; [|apply chars_not_lists].
    intros x Hx Hx'. rewrite Hx in Hx'. discriminate.
  - eapply Forall_impl; [|exact IH]. auto.
  - eapply Forall_impl; [|exact IH]. auto.
  - eapply Forall_impl; [|exact IH]. auto.
Qed.

Lemma fits_unchecked (d : Z) (levels : nat) :
  (Array.dimensions self = None \/ Array.dimensions self = Some 0) ->
  fits self d levels.
Proof.
  intros H k _. unfold Array.depth_exceeded.
  destruct H as [-> | ->]; reflexivity.
Qed.

Lemma fits_within (n d : Z) (levels : nat) :
  Array.dimensions self = Some n ->
  d + Z.of_nat levels - 1 <= n ->
  fits self d levels.
Proof.
  intros Hn Hle k Hk. unfold Array.depth_exceeded. rewrite Hn.
  destruct (n =? 0); [reflexivity|].
  destruct (d + Z.of_nat k >? n) eqn:E; [|reflexivity].
  apply Z.gtb_lt in E. lia.
Qed.

Lemma exceeded_above (n d : Z) :
  Array.dimensions self = Some n -> n <> 0 -> n < d ->
  Array.depth_exceeded self d = Some n.
Proof.
  intros Hn Hnz Hlt. unfold Array.depth_exceeded. rewrite Hn.
  destruct (n =? 0) eqn:E0; [apply Z.eqb_eq in E0; contradiction|].
  destruct (d >? n) eqn:E; [reflexivity|].
  rewrite Z.gtb_ltb in E. apply Z.ltb_ge in E. lia.
Qed.

Lemma not_exceeded_below (n d : Z) :
  Array.dimensions self = Some n -> d <= n ->
  Array.depth_exceeded self d = None.
Proof.
  intros Hn Hle. unfold Array.depth_exceeded. rewrite Hn.
  destruct (n =? 0); [reflexivity|].
  destruct (d >? n) eqn:E; [|reflexivity].
  apply Z.gtb_lt in E. lia.
Qed.

(** A value with a level past the bound, all of whose scalars the element
    field accepts, is refused at the first dimension past the bound. *)
Lemma cast_rejects (n : Z) :
  Array.dimensions self = Some n -> n <> 0 ->
  forall (v : pyval) (d : Z) (items : list pyval),
    py_iter v = Some items ->
    all_accepted (Array.type self) items ->
    n < d + Z.of_nat (depth items) - 1 ->
    Array._cast self v d =
      Raise (ValueError (Array.depth_message (Z.max d (n + 1)) n)).
Proof.
  intros Hn Hnz.
  set (goal := fun (v : pyval) =>
    forall (d : Z) (items : list pyval),
      py_iter v = Some items ->
      all_accepted (Array.type self) items ->
      n < d + Z.of_nat (depth items) - 1 ->
      Array._cast self v d =
        Raise (ValueError (Array.depth_message (Z.max d (n + 1)) n))).
  assert (top : forall (v : pyval) (items : list pyval),
    py_iter v = Some items ->
    Forall (fun x => isinstance_list x = true -> goal x) items -> goal v).
  { intros v items Hiter IH d items' Hiter' Hacc Hdeep.
    rewrite Hiter in Hiter'. injection Hiter' as <-.
    rewrite (cast_iter self v d items Hiter).
    destruct (Z_lt_le_dec n d) as [Hlt | Hle].
    { rewrite (exceeded_above n d Hn Hnz Hlt).
      now replace (Z.max d (n + 1)) with d by lia. }
    rewrite (not_exceeded_below n d Hn Hle).
    replace (Z.max d (n + 1)) with (n + 1) by lia.
    assert (E : mapM (cast_item self (d + 1)) items =
                Raise (ValueError (Array.depth_message (n + 1) n))).
    { unfold depth in Hdeep.
      assert (Hmax : n < d + Z.of_nat (list_max (map nesting items))) by lia.
      clear Hdeep Hiter.
      induction IH as [|x l Hx _ IHl]; simpl in Hmax; [lia|].
      apply all_accepted_cons in Hacc. destruct Hacc as [Hleaf Hrest].
      simpl. unfold cast_item at 1.
      destruct (isinstance_list x) eqn:Hx'; simpl.
      - destruct (list_iterable x Hx') as [xs Hxs].
        assert (Hxacc : all_accepted (Array.type self) xs).
        { unfold all_accepted. now rewrite <- (leaves_list x xs Hx' Hxs). }
        destruct (Z_lt_le_dec n (d + Z.of_nat (nesting x))) as [Hdeepx | Hfitx].
        + rewrite (Hx eq_refl (d + 1) xs Hxs Hxacc).
          * now replace (Z.max (d + 1) (n + 1)) with (n + 1) by lia.
          * rewrite <- (nesting_list x xs Hx' Hxs). lia.
        + destruct (cast_accepts x (d + 1) xs Hxs) as [y Hy].
          * apply (fits_within n); [exact Hn|].
            rewrite <- (nesting_list x xs Hx' Hxs). lia.
          * exact Hxacc.
          * rewrite Hy. simpl. rewrite IHl; [reflexivity|exact Hrest|lia].
      - rewrite (leaves_scalar x Hx') in Hleaf.
        inversion Hleaf as [|? ? [y Hy] _]; subst.
        rewrite Hy. simpl.
        rewrite (nesting_scalar x Hx') in Hmax.
        rewrite IHl; [reflexivity|exact Hrest|lia]. }
    now rewrite E. }
  assert (all : forall v, goal v); [|exact all].
  induction v as [| b | z | s | l IH | l IH | t l IH] using pyval_nested_ind.
  1-3: intros d items Hiter; discriminate.
  - apply (top (VStr s) (chars s) eq_refl).
    eapply Forall_impl; [|apply chars_not_lists].
    intros x Hx Hx'. rewrite Hx in Hx'. discriminate.
  - apply (top (VTuple l) l eq_refl).
    eapply Forall_impl; [|exact IH]. auto.
  - apply (top (VList l) l eq_refl).
    eapply Forall_impl; [|exact IH]. auto.
  - apply (top (VArr t l) l eq_refl).
    eapply Forall_impl; [|exact IH]. auto.
Qed.

(** Where every level passes the check, the check changes nothing. *)
Lemma cast_unchecked_same :
  forall (v : pyval) (d : Z) (items : list pyval),
    py_iter v = Some items ->
    fits self d (depth items) ->
    Array._cast self v d = Array._cast (unchecked self) v d.
Proof.
  set (goal := fun (v : pyval) =>
    forall (d : Z) (items : list pyval),
      py_iter v = Some items ->
      fits self d (depth items) ->
      Array._cast self v d = Array._cast (unchecked self) v d).
  assert (top : forall (v : pyval) (items : list pyval),
    py_iter v = Some items ->
    Forall (fun x => isinstance_list x = true -> goal x) items -> goal v).
  { intros v items Hiter IH d items' Hiter' Hfit.
    rewrite Hiter in Hiter'. injection Hiter' as <-.
    rewrite (cast_iter self v d items Hiter).
    rewrite (cast_iter (unchecked self) v d items Hiter).
    assert (H0 : Array.depth_exceeded self d = None).
    { rewrite <- (Z.add_0_r d). apply (Hfit O). unfold depth. lia. }
    rewrite H0. change (Array.depth_exceeded (unchecked self) d) with (@None Z).
    rewrite (mapM_ext (cast_item self (d + 1))
                      (cast_item (unchecked self) (d + 1))); [reflexivity|].
    assert (Hlevels : forall k : nat,
      (k < list_max (map nesting items))%nat ->
      Array.depth_exceeded self (d + 1 + Z.of_nat k) = None).
    { intros k Hk. rewrite <- Z.add_assoc.
      replace (1 + Z.of_nat k) with (Z.of_nat (S k)) by lia.
      apply Hfit. unfold depth. lia. }
    clear Hfit H0 Hiter.
    induction IH as [|x l Hx _ IHl]; constructor.
    - unfold cast_item. cbv beta in Hx.
      destruct (isinstance_list x) eqn:Hx'; simpl; [|reflexivity].
      destruct (list_iterable x Hx') as [xs Hxs].
      apply (Hx eq_refl (d + 1) xs Hxs).
      intros k Hk. apply Hlevels. simpl.
      rewrite (nesting_list x xs Hx' Hxs). lia.
    - apply IHl. intros k Hk. apply Hlevels. simpl. lia. }
  assert (all : forall v, goal v); [|exact all].
  induction v as [| b | z | s | l IH | l IH | t l IH] using pyval_nested_ind.
  1-3: intros d items Hiter; discriminate.
  - apply (top (VStr s) (chars s) eq_refl).
    eapply Forall_impl; [|apply chars_not_lists].
    intros x Hx Hx'. rewrite Hx in Hx'. discriminate.
  - apply (top (VTuple l) l eq_refl).
    eapply Forall_impl; [|exact IH]. auto.
  - apply (top (VList l) l eq_refl).
    eapply Forall_impl; [|exact IH]. auto.
  - apply (top (VArr t l) l eq_refl).
    eapply Forall_impl; [|exact IH]. auto.
Qed.

(** A value with a level past the bound is never cast, whatever the
    element field does. *)
Lemma cast_too_deep_fails (n : Z) :
  Array.dimensions self = Some n -> n <> 0 ->
  forall (v : pyval) (d : Z) (items : list pyval),
    py_iter v = Some items ->
    n < d + Z.of_nat (depth items) - 1 ->
    exists e, Array._cast self v d = Raise e.
Proof.
  intros Hn Hnz.
  set (goal := fun (v : pyval) =>
    forall (d : Z) (items : list pyval),
      py_iter v = Some items ->
      n < d + Z.of_nat (depth items) - 1 ->
      exists e, Array._cast self v d = Raise e).
  assert (top : forall (v : pyval) (items : list pyval),
    py_iter v = Some items ->
    Forall (fun x => isinstance_list x = true -> goal x) items -> goal v).
  { intros v items Hiter IH d items' Hiter' Hdeep.
    rewrite Hiter in Hiter'. injection Hiter' as <-.
    rewrite (cast_iter self v d items Hiter).
    destruct (Z_lt_le_dec n d) as [Hlt | Hle].
    { rewrite (exceeded_above n d Hn Hnz Hlt). eexists; reflexivity. }
    rewrite (not_exceeded_below n d Hn Hle).
    assert (E : exists e, mapM (cast_item self (d + 1)) items = Raise e).
    { unfold depth in Hdeep.
      assert (Hmax : n < d + Z.of_nat (list_max (map nesting items))) by lia.
      clear Hdeep Hiter.
      induction IH as [|x l Hx _ IHl]; simpl in Hmax; [lia|].
      simpl. destruct (cast_item self (d + 1) x) as [y|e] eqn:Ey; simpl;
        [|eexists; reflexivity].
      destruct IHl as [e He]; [|rewrite He; eexists; reflexivity].
      destruct (Z_lt_le_dec n (d + Z.of_nat (nesting x))) as [Hdeepx | Hfitx];
        [|lia].
      exfalso. unfold cast_item in Ey. cbv beta in Hx.
      destruct (isinstance_list x) eqn:Hx'; simpl in Ey.
      - destruct (list_iterable x Hx') as [xs Hxs].
        destruct (Hx eq_refl (d + 1) xs Hxs) as [e He].
        + rewrite <- (nesting_list x xs Hx' Hxs). lia.
        + rewrite He in Ey. discriminate.
      - rewrite (nesting_scalar x Hx') in Hdeepx. lia. }
    destruct E as [e ->]. eexists; reflexivity. }
  assert (all : forall v, goal v); [|exact all].
  induction v as [| b | z | s | l IH | l IH | t l IH] using pyval_nested_ind.
  1-3: intros d items Hiter; discriminate.
  - apply (top (VStr s) (chars s) eq_refl).
    eapply Forall_impl; [|apply chars_not_lists].
    intros x Hx Hx'. rewrite Hx in Hx'. discriminate.
  - apply (top (VTuple l) l eq_refl).
    eapply Forall_impl; [|exact IH]. auto.
  - apply (top (VList l) l eq_refl).
    eapply Forall_impl; [|exact IH]. auto.
  - apply (top (VArr t l) l eq_refl).
    eapply Forall_impl; [|exact IH]. auto.
Qed.

End ArrayDepthCheck.

(** ** What a cast meets before a list past the bound *)

Section ArrayWalk.

Import ArrayDepth.

Variable self : Array.t.
Variable n : Z.
Hypothesis Hn : Array.dimensions self = Some n.
Hypothesis Hnz : n <> 0.

Lemma walk_list (d : Z) (x : pyval) (items : list pyval) :
  isinstance_list x = true -> py_iter x = Some items ->
  walk n d x = if d + 1 >? n then ([], true) else walk_items n (d + 1) items.
Proof.
  assert (loop : forall l,
    (fix walk_in (items : list pyval) : list pyval * bool :=
       match items with
       | [] => ([], false)
       | y :: rest =>
           let (p, stop) := walk n (d + 1) y in
           if stop then (p, true)
           else let (q, stop') := walk_in rest in ((p ++ q)%list, stop')
       end) l = walk_items n (d + 1) l).
  { induction l as [|y l IH]; [reflexivity|].
    cbn [walk_items]. rewrite <- IH. reflexivity. }
  destruct x; try discriminate; intros _ H; injection H as <-;
    cbn [walk]; destruct (d + 1 >? n); try reflexivity; apply loop.
Qed.

Lemma walk_scalar (d : Z) (x : pyval) :
  isinstance_list x = false -> walk n d x = ([x], false).
Proof. destruct x; try discriminate; reflexivity. Qed.

Lemma walked_scalar (x : pyval) :
  walked self n ([x], false) (call (Array.type self) x).
Proof.
  split; cbn [fst snd].
  - intros H. inversion H as [|? ? Hx _]; subst. exact Hx.
  - intros pre z post e E _ Hz.
    destruct pre as [|a pre]; simpl in E.
    + injection E as <- _. exact Hz.
    + injection E as _ E. destruct pre; discriminate.
Qed.

Lemma walked_past_bound {A : Type} (r : result A) :
  r = Raise (ValueError (Array.depth_message (n + 1) n)) ->
  walked self n ([], true) r.
Proof.
  intros ->. split; cbn [fst snd].
  - reflexivity.
  - intros pre z post e E. destruct pre; discriminate.
Qed.

Lemma walked_then {A B : Type} (w : list pyval * bool) (r : result A)
      (f : A -> B) :
  walked self n w r -> walked self n w (a <- r ;; Ok (f a)).
Proof.
  intros [H1 H3]. split.
  - intros Hacc. specialize (H1 Hacc). destruct (snd w).
    + now rewrite H1.
    + destruct H1 as [a ->]. eexists; reflexivity.
  - intros pre z post e E Hpre Hz. now rewrite (H3 pre z post e E Hpre Hz).
Qed.

(** The loop of a cast follows the walk over the items when each item
    does. *)
Lemma walked_items (d : Z) (l : list pyval) :
  Forall (fun x => walked self n (walk n d x) (cast_item self (d + 1) x)) l ->
  walked self n (walk_items n d l) (mapM (cast_item self (d + 1)) l).
Proof.
  induction 1 as [|x rest Hx _ IH].
  - split; cbn [walk_items mapM fst snd].
    + intros _. eexists; reflexivity.
    + intros pre z post e E. destruct pre; discriminate.
  - cbn [walk_items mapM].
    destruct (walk n d x) as [p stop]. destruct Hx as [Hx1 Hx3].
    cbn [fst snd] in Hx1, Hx3.
    destruct stop.
    + split; cbn [fst snd].
      * intros Hacc. now rewrite (Hx1 Hacc).
      * intros pre z post e E Hpre Hz.
        now rewrite (Hx3 pre z post e E Hpre Hz).
    + destruct (walk_items n d rest) as [q stop']. destruct IH as [IH1 IH3].
      cbn [fst snd] in IH1, IH3.
      split; cbn [fst snd].
      * intros Hacc. apply Forall_app in Hacc. destruct Hacc as [Hp Hq].
        destruct (Hx1 Hp) as [y ->]. cbn [bind].
        specialize (IH1 Hq). destruct stop'.
        -- now rewrite IH1.
        -- destruct IH1 as [ys ->]. eexists; reflexivity.
      * intros pre z post e E Hpre Hz.
        apply app_eq_app in E. destruct E as [m [[E1 E2] | [E1 E2]]].
        -- destruct m as [|z' m].
           ++ rewrite app_nil_r in E1. subst p. simpl in E2. subst q.
              destruct (Hx1 Hpre) as [y ->]. cbn [bind].
              now rewrite (IH3 [] z post e eq_refl (Forall_nil _) Hz).
           ++ simpl in E2. injection E2 as <- E2.
              now rewrite (Hx3 pre z m e E1 Hpre Hz).
        -- subst pre. apply Forall_app in Hpre. destruct Hpre as [Hp Hm].
           destruct (Hx1 Hp) as [y ->]. cbn [bind].
           now rewrite (IH3 m z post e E2 Hm Hz).
Qed.

(** A cast that starts within the bound follows the walk over its
    items. *)
Lemma cast_walked :
  forall (v : pyval) (d : Z) (items : list pyval),
    py_iter v = Some items -> d <= n ->
    walked self n (walk_items n d items) (Array._cast self v d).
Proof.
  set (goal := fun (v : pyval) =>
    forall (d : Z) (items : list pyval),
      py_iter v = Some items -> d <= n ->
      walked self n (walk_items n d items) (Array._cast self v d)).
  assert (top : forall (v : pyval) (items : list pyval),
    py_iter v = Some items ->
    Forall (fun x => isinstance_list x = true -> goal x) items -> goal v).
  { intros v items Hiter IH d items' Hiter' Hd.
    rewrite Hiter in Hiter'. injection Hiter' as <-.
    rewrite (cast_iter self v d items Hiter).
    rewrite (not_exceeded_below self n d Hn Hd).
    apply walked_then, walked_items.
    eapply Forall_impl; [|exact IH].
    intros x Hx. cbv beta in Hx. unfold cast_item.
    destruct (isinstance_list x) eqn:Hx'; cbn [negb].
    - destruct (list_iterable x Hx') as [xs Hxs].
      rewrite (walk_list d x xs Hx' Hxs).
      destruct (d + 1 >? n) eqn:Hdeep.
      + apply walked_past_bound. apply Z.gtb_lt in Hdeep.
        rewrite (cast_iter self x (d + 1) xs Hxs).
        rewrite (exceeded_above self n (d + 1) Hn Hnz Hdeep).
        now replace (d + 1) with (n + 1) by lia.
      + apply (Hx eq_refl (d + 1) xs Hxs).
        rewrite Z.gtb_ltb in Hdeep. apply Z.ltb_ge in Hdeep. exact Hdeep.
    - rewrite (walk_scalar d x Hx'). apply walked_scalar. }
  assert (all : forall v, goal v); [|exact all].
  induction v as [| b | z | s | l IH | l IH | t l IH] using pyval_nested_ind.
  1-3: intros d items Hiter; discriminate.
  - apply (top (VStr s) (chars s) eq_refl).
    eapply Forall_impl; [|apply chars_not_lists].
    intros x Hx Hx'. rewrite Hx in Hx'. discriminate.
  - apply (top (VTuple l) l eq_refl).
    eapply Forall_impl; [|exact IH]. auto.
  - apply (top (VList l) l eq_refl).
    eapply Forall_impl; [|exact IH]. auto.
  - apply (top (VArr t l) l eq_refl).
    eapply Forall_impl; [|exact IH]. auto.
Qed.

(** A walk over items with a level past the bound comes to a list past
    the bound. *)
Lemma walk_items_stops :
  forall (l : list pyval) (d : Z),
    d <= n -> n < d + Z.of_nat (list_max (map nesting l)) ->
    snd (walk_items n d l) = true.
Proof.
  set (goal := fun (x : pyval) =>
    forall d, d <= n -> n < d + Z.of_nat (nesting x) ->
              snd (walk n d x) = true).
  assert (items : forall l, Forall goal l ->
    forall d, d <= n -> n < d + Z.of_nat (list_max (map nesting l)) ->
              snd (walk_items n d l) = true).
  { induction 1 as [|x rest Hx _ IH]; intros d Hd Hdeep; simpl in Hdeep;
      [lia|].
    cbn [walk_items]. destruct (walk n d x) as [p stop] eqn:Ew.
    destruct stop; [reflexivity|].
    destruct (walk_items n d rest) as [q stop'] eqn:Er. cbn [snd].
    destruct (Z_lt_le_dec n (d + Z.of_nat (nesting x))) as [Hx' | Hx'].
    - specialize (Hx d Hd Hx'). rewrite Ew in Hx. discriminate.
    - specialize (IH d Hd ltac:(lia)). rewrite Er in IH. exact IH. }
  assert (list_case : forall x l,
    isinstance_list x = true -> py_iter x = Some l -> Forall goal l -> goal x).
  { intros x l Hx Hl IH d Hd Hdeep.
    rewrite (walk_list d x l Hx Hl).
    destruct (d + 1 >? n) eqn:E; [reflexivity|].
    rewrite Z.gtb_ltb in E. apply Z.ltb_ge in E.
    apply (items l IH (d + 1) E).
    rewrite (nesting_list x l Hx Hl) in Hdeep. unfold depth in Hdeep. lia. }
  assert (all : forall x, goal x).
  { induction x as [| b | z | s | l IH | l IH | t l IH] using pyval_nested_ind;
      try (intros d Hd Hdeep; simpl in Hdeep; lia).
    - exact (list_case (VList l) l eq_refl eq_refl IH).
    - exact (list_case (VArr t l) l eq_refl eq_refl IH). }
  intros l. apply items. apply Forall_forall. intros x _. apply all.
Qed.

(** The values of a walk are scalars of the value walked. *)
Lemma walk_items_leaves :
  forall (l : list pyval) (d : Z),
    incl (fst (walk_items n d l)) (flat_map leaves l).
Proof.
  set (goal := fun (x : pyval) =>
    forall d, incl (fst (walk n d x)) (leaves x)).
  assert (items : forall l, Forall goal l ->
    forall d, incl (fst (walk_items n d l)) (flat_map leaves l)).
  { induction 1 as [|x rest Hx _ IH]; intros d; cbn [walk_items flat_map].
    - intros a [].
    - specialize (Hx d). specialize (IH d).
      destruct (walk n d x) as [p stop]. cbn [fst] in Hx.
      destruct stop; cbn [fst].
      + now apply incl_appl.
      + destruct (walk_items n d rest) as [q stop']. cbn [fst] in IH |- *.
        now apply incl_app_app. }
  assert (all : forall x, goal x).
  { induction x as [| b | z | s | l IH | l IH | t l IH] using pyval_nested_ind;
      try (intros d; apply incl_refl).
    - intros d. rewrite (walk_list d (VList l) l eq_refl eq_refl).
      destruct (d + 1 >? n); [intros a [] | apply (items l IH)].
    - intros d. rewrite (walk_list d (VArr t l) l eq_refl eq_refl).
      destruct (d + 1 >? n); [intros a [] | apply (items l IH)]. }
  intros l. apply items. apply Forall_forall. intros x _. apply all.
Qed.

(** A field that accepts every scalar of a value accepts those the walk
    meets. *)
Lemma all_accepted_met_before (d : Z) (items : list pyval) :
  all_accepted (Array.type self) items ->
  accepts (Array.type self) (met_before n d items).
Proof.
  unfold all_accepted, accepts, met_before. intros H.
  destruct (d >? n); [constructor|].
  apply Forall_forall. intros x Hx.
  apply (proj1 (Forall_forall _ _) H). now apply (walk_items_leaves items d).
Qed.

(** A value with a level past the bound is refused with the depth
    ValueError once the element field accepts what the walk meets before
    the first list past the bound. *)
Lemma cast_refused (v : pyval) (d : Z) (items : list pyval) :
  py_iter v = Some items ->
  n < d + Z.of_nat (depth items) - 1 ->
  accepts (Array.type self) (met_before n d items) ->
  Array._cast self v d =
    Raise (ValueError (Array.depth_message (Z.max d (n + 1)) n)).
Proof.
  intros Hiter Hdeep Hacc. unfold met_before in Hacc.
  destruct (d >? n) eqn:E.
  - apply Z.gtb_lt in E.
    rewrite (cast_iter self v d items Hiter).
    rewrite (exceeded_above self n d Hn Hnz E).
    now replace (Z.max d (n + 1)) with d by lia.
  - rewrite Z.gtb_ltb in E. apply Z.ltb_ge in E.
    destruct (cast_walked v d items Hiter E) as [H1 _].
    specialize (H1 Hacc).
    rewrite (walk_items_stops items d E) in H1
      by (unfold depth in Hdeep; lia).
    rewrite H1. now replace (Z.max d (n + 1)) with (n + 1) by lia.
Qed.

(** The first value of the walk that the element field refuses ends the
    cast with its exception. *)
Lemma cast_first_refusal (v : pyval) (d : Z) (items pre post : list pyval)
      (x : pyval) (e : exn) :
  py_iter v = Some items ->
  met_before n d items = (pre ++ x :: post)%list ->
  accepts (Array.type self) pre ->
  call (Array.type self) x = Raise e ->
  Array._cast self v d = Raise e.
Proof.
  intros Hiter Hmet Hpre Hx. unfold met_before in Hmet.
  destruct (d >? n) eqn:E; [destruct pre; discriminate|].
  rewrite Z.gtb_ltb in E. apply Z.ltb_ge in E.
  destruct (cast_walked v d items Hiter E) as [_ H3].
  exact (H3 pre x post e Hmet Hpre Hx).
Qed.

End ArrayWalk.

(** ** Depth enforcement on assignment *)

Lemma array_call_cast (self : Array.t) (value : pyval) (items : list pyval) :
  py_iter value = Some items ->
  Array.__call__ self (Val value) =
    match Array._cast self value 1 with
    | Ok a => (Ok (Val a), Array.set_value self (Val a))
    | Raise e => (Raise e, self)
    end.
Proof.
  destruct value; try discriminate; intros _; unfold Array.__call__;
    match goal with |- context [Array._cast ?s ?v ?d] =>
      destruct (Array._cast s v d) end; reflexivity.
Qed.

(** C2: assigning a whole value casts it from dimension 1, the value
    itself being level 1 and each nested list one level deeper.  When
    [dimensions] is an integer n other than 0 and the value has a level
    past n, the assignment raises and the field keeps what it held.  The
    exception is the ValueError that reports the first dimension past the
    bound (n + 1 for n >= 1) and the bound n whenever the walk reaches a
    list past the bound, that is, whenever the element field accepts the
    values met before the first such list; what comes after that list
    plays no part.  When the element field refuses one of the values met
    before it, the exception of the first value refused comes out
    instead.  When [dimensions] is None or 0, or the depth of the value is
    at most n (exactly n included), the depth check changes nothing: the
    outcome is that of a cast without any check, and the value is accepted
    and stored whenever the element field accepts its scalars. *)
Theorem array_call_depth_enforcement
        (self : Array.t) (value : pyval) (items : list pyval) :
  py_iter value = Some items ->
  (forall n : Z, Array.dimensions self = Some n -> n <> 0 ->
     n < Z.of_nat (ArrayDepth.depth items) ->
     (exists e, Array.__call__ self (Val value) = (Raise e, self))
     /\
     (ArrayDepth.accepts (Array.type self) (ArrayDepth.met_before n 1 items) ->
      Array.__call__ self (Val value) =
        (Raise (ValueError
                  ("Invalid dimensions (" ++ str_of_Z (Z.max 1 (n + 1)) ++
                   "): max depth is set to " ++ str_of_Z n)), self))
     /\
     (forall (pre : list pyval) (x : pyval) (post : list pyval) (e : exn),
         ArrayDepth.met_before n 1 items = (pre ++ x :: post)%list ->
         ArrayDepth.accepts (Array.type self) pre ->
         call (Array.type self) x = Raise e ->
         Array.__call__ self (Val value) = (Raise e, self)))
  /\
  ((Array.dimensions self = None \/ Array.dimensions self = Some 0 \/
    exists n : Z, Array.dimensions self = Some n /\
                  Z.of_nat (ArrayDepth.depth items) <= n) ->
   Array._cast self value 1 = Array._cast (ArrayDepth.unchecked self) value 1
   /\
   (ArrayDepth.all_accepted (Array.type self) items ->
    exists a, Array._cast self value 1 = Ok a /\
              Array.__call__ self (Val value) =
                (Ok (Val a), Array.set_value self (Val a)))).
Proof.
  intros Hiter. split.
  - intros n Hn Hnz Hdeep. split; [|split].
    + rewrite (array_call_cast self value items Hiter).
      destruct (cast_too_deep_fails self n Hn Hnz value 1 items Hiter)
        as [e ->]; [lia|].
      eexists; reflexivity.
    + intros Hacc.
      rewrite (array_call_cast self value items Hiter).
      rewrite (cast_refused self n Hn Hnz value 1 items Hiter) by
        (exact Hacc || lia).
      reflexivity.
    + intros pre x post e Hmet Hpre Hx.
      rewrite (array_call_cast self value items Hiter).
      rewrite (cast_first_refusal self n Hn Hnz value 1 items pre post x e
                 Hiter Hmet Hpre Hx).
      reflexivity.
  - intros Hdims.
    assert (Hfit : fits self 1 (ArrayDepth.depth items)).
    { destruct Hdims as [H | [H | [n [Hn Hle]]]].
      - apply fits_unchecked. now left.
      - apply fits_unchecked. now right.
      - apply (fits_within self n); [exact Hn | lia]. }
    split.
    + exact (cast_unchecked_same self value 1 items Hiter Hfit).
    + intros Hacc.
      destruct (cast_accepts self value 1 items Hiter Hfit Hacc) as [a Ha].
      exists a. split; [exact Ha|].
      rewrite (array_call_cast self value items Hiter), Ha. reflexivity.
Qed.

Lemma array_call_depth_enforcement_witness :
  (exists a,
      Array.__call__ (ArrayDepth.new_array ArrayDepth.plain (Some 2))
                     (Val (VList [VList [VInt 1]; VInt 2])) =
        (Ok (Val a),
         Array.set_value (ArrayDepth.new_array ArrayDepth.plain (Some 2)) (Val a)))
  /\ Array.__call__ (ArrayDepth.new_array ArrayDepth.strict_int (Some 1))
                    (Val (VList [VList [VInt 1]; VStr "x"])) =
       (Raise (ValueError "Invalid dimensions (2): max depth is set to 1"),
        ArrayDepth.new_array ArrayDepth.strict_int (Some 1))
  /\ Array.__call__ (ArrayDepth.new_array ArrayDepth.strict_int (Some 1))
                    (Val (VList [VStr "x"; VList [VInt 1]])) =
       (Raise (TypeError "an integer is required"),
        ArrayDepth.new_array ArrayDepth.strict_int (Some 1)).
Proof.
  split; [|split].
  - destruct (array_call_depth_enforcement
                (ArrayDepth.new_array ArrayDepth.plain (Some 2))
                (VList [VList [VInt 1]; VInt 2]) [VList [VInt 1]; VInt 2]
                eq_refl) as [_ H].
    destruct H as [_ H].
    + right. right. exists 2. split; [reflexivity|]. vm_compute. discriminate.
    + destruct H as [a [_ Ha]].
      * repeat constructor; eexists; reflexivity.
      * exists a. exact Ha.
  - destruct (array_call_depth_enforcement
                (ArrayDepth.new_array ArrayDepth.strict_int (Some 1))
                (VList [VList [VInt 1]; VStr "x"]) [VList [VInt 1]; VStr "x"]
                eq_refl) as [H _].
    destruct (H 1 eq_refl) as [_ [H2 _]].
    + discriminate.
    + vm_compute. reflexivity.
    + apply H2. constructor.
  - destruct (array_call_depth_enforcement
                (ArrayDepth.new_array ArrayDepth.strict_int (Some 1))
                (VList [VStr "x"; VList [VInt 1]]) [VStr "x"; VList [VInt 1]]
                eq_refl) as [H _].
    destruct (H 1 eq_refl) as [_ [_ H3]].
    + discriminate.
    + vm_compute. reflexivity.
    + apply (H3 [] (VStr "x") [] (TypeError "an integer is required")).
      * reflexivity.
      * constructor.
      * reflexivity.
Defined.

(** ** Mutation of an array *)

Lemma cast_same_config (s1 s2 : Array.t) :
  Array.type s1 = Array.type s2 ->
  Array.dimensions s1 = Array.dimensions s2 ->
  forall (v : pyval) (d : Z), Array._cast s1 v d = Array._cast s2 v d.
Proof.
  intros Hty Hdim.
  assert (Hex : forall d, Array.depth_exceeded s1 d = Array.depth_exceeded s2 d).
  { intros d. unfold Array.depth_exceeded. now rewrite Hdim. }
  assert (Hfin : forall d ys, finish s1 d ys = finish s2 d ys).
  { intros d ys. unfold finish, Array._add_arr_type, Array._get_type_name.
    now rewrite Hty. }
  assert (top : forall (v : pyval) (items : list pyval),
    py_iter v = Some items ->
    Forall (fun x => isinstance_list x = true ->
              forall d, Array._cast s1 x d = Array._cast s2 x d) items ->
    forall d, Array._cast s1 v d = Array._cast s2 v d).
  { intros v items Hiter IH d.
    rewrite (cast_iter s1 v d items Hiter), (cast_iter s2 v d items Hiter), Hex.
    destruct (Array.depth_exceeded s2 d); [reflexivity|].
    rewrite (mapM_ext (cast_item s1 (d + 1)) (cast_item s2 (d + 1))).
    - destruct (mapM (cast_item s2 (d + 1)) items); simpl;
        [now rewrite Hfin | reflexivity].
    - eapply Forall_impl; [|exact IH].
      intros x Hx. unfold cast_item. rewrite Hty.
      cbv beta in Hx.
      destruct (isinstance_list x); simpl; [now apply Hx | reflexivity]. }
  induction v as [| b | z | s | l IH | l IH | t l IH] using pyval_nested_ind.
  1-3: intros d; rewrite !cast_not_iterable by reflexivity; rewrite Hex; reflexivity.
  - apply (top (VStr s) (chars s) eq_refl).
    eapply Forall_impl; [|apply chars_not_lists].
    intros x Hx Hx'. rewrite Hx in Hx'. discriminate.
  - apply (top (VTuple l) l eq_refl). eapply Forall_impl; [|exact IH]. auto.
  - apply (top (VList l) l eq_refl). eapply Forall_impl; [|exact IH]. auto.
  - apply (top (VArr t l) l eq_refl). eapply Forall_impl; [|exact IH]. auto.
Qed.

Lemma make_list_config (self : Array.t) :
  Array.type (Array._make_list self) = Array.type self /\
  Array.dimensions (Array._make_list self) = Array.dimensions self.
Proof.
  unfold Array._make_list. destruct (slot_is_null (Array.value self)); now split.
Qed.

Lemma select_cast_made (self : Array.t) (v : pyval) (d : Z) :
  Array._select_cast (Array._make_list self) v d = Array._select_cast self v d.
Proof.
  destruct (make_list_config self) as [Hty Hdim].
  unfold Array._select_cast. rewrite Hty.
  destruct (isinstance_list_tuple v); simpl; [|reflexivity].
  now apply cast_same_config.
Qed.

Lemma on_list_held (self : Array.t) (ty : string) (held : list pyval)
      (meth : string) (f : list pyval -> result (list pyval)) :
  Array.value self = Val (VArr ty held) ->
  Array.on_list self meth f =
    match f held with
    | Ok l' => (Ok tt, Array.set_value self (Val (VArr ty l')))
    | Raise e => (Raise e, self)
    end.
Proof. intros H. unfold Array.on_list. rewrite H. reflexivity. Qed.

Lemma cast_accepts_shape (self : Array.t) (v : pyval) (items : list pyval) :
  py_iter v = Some items ->
  fits self 1 (ArrayDepth.depth items) ->
  ArrayDepth.all_accepted (Array.type self) items ->
  exists ys, Array._cast self v 1 = Ok (VArr (Array._get_type_name self) ys).
Proof.
  intros Hiter Hfit Hacc.
  destruct (cast_accepts self v 1 items Hiter Hfit Hacc) as [a Ha].
  rewrite (cast_iter self v 1 items Hiter) in Ha |- *.
  destruct (Array.depth_exceeded self 1); [discriminate|].
  destruct (mapM (cast_item self (1 + 1)) items) as [ys|e]; [|discriminate].
  exists ys. reflexivity.
Qed.

(** C3, as amended: [append] and [insert] normalize what they add from
    dimension 2: a value that is neither a list nor a tuple goes through
    the element field and is added as one element, and a list or tuple is
    cast as a nested array whose depth check starts at 2, so that on an
    array of one dimension both raise the depth ValueError for every list
    and every tuple, whatever they hold and whatever the element field
    does.  With a bound n, a list with a level past the bound counted from
    2 is refused with the depth ValueError once the element field accepts
    the values met before the first list past the bound.  [extend] casts
    its list from dimension 1, as a whole-array assignment does, and adds
    the cast items; on an array of one dimension it accepts a flat list. *)
Theorem array_mutation_dimensions
        (self : Array.t) (ty : string) (held : list pyval) (value : pyval) :
  Array.value (Array._make_list self) = Val (VArr ty held) ->
  let made := Array._make_list self in
  let store := fun l => Array.set_value made (Val (VArr ty l)) in
  (isinstance_list_tuple value = false ->
   forall y, call (Array.type self) value = Ok y ->
     Array.append self value = (Ok tt, store (held ++ [y])%list) /\
     forall i, Array.insert self i value =
                 (Ok tt, store (Array.list_insert i y held)))
  /\
  (isinstance_list_tuple value = true ->
   Array.dimensions self = Some 1 ->
   Array.append self value =
     (Raise (ValueError (Array.depth_message 2 1)), made) /\
   forall i, Array.insert self i value =
               (Raise (ValueError (Array.depth_message 2 1)), made))
  /\
  (isinstance_list_tuple value = true ->
   forall (n : Z) (items : list pyval),
     Array.dimensions self = Some n -> n <> 0 ->
     py_iter value = Some items ->
     (n < Z.of_nat (ArrayDepth.depth items) + 1 ->
      ArrayDepth.accepts (Array.type self) (ArrayDepth.met_before n 2 items) ->
      let refused :=
        Raise (ValueError (Array.depth_message (Z.max 2 (n + 1)) n)) in
      Array.append self value = (refused, made) /\
      forall i, Array.insert self i value = (refused, made))
     /\
     (Z.of_nat (ArrayDepth.depth items) + 1 <= n ->
      ArrayDepth.all_accepted (Array.type self) items ->
      exists a, Array._cast self value 2 = Ok a /\
        Array.append self value = (Ok tt, store (held ++ [a])%list) /\
        forall i, Array.insert self i value =
                    (Ok tt, store (Array.list_insert i a held)))
     /\
     (Z.of_nat (ArrayDepth.depth items) <= n ->
      ArrayDepth.all_accepted (Array.type self) items ->
      exists ys,
        Array._cast self value 1 = Ok (VArr (Array._get_type_name self) ys) /\
        Array.extend self value = (Ok tt, store (held ++ ys)%list))
     /\
     (n < Z.of_nat (ArrayDepth.depth items) ->
      ArrayDepth.accepts (Array.type self) (ArrayDepth.met_before n 1 items) ->
      Array.extend self value =
        (Raise (ValueError (Array.depth_message (Z.max 1 (n + 1)) n)), made))).
Proof.
  intros Hheld made store.
  assert (Esel : isinstance_list_tuple value = true ->
                 forall d, Array._select_cast self value d =
                           Array._cast self value d).
  { intros Hseq d. unfold Array._select_cast. now rewrite Hseq. }
  assert (refusal : isinstance_list_tuple value = true ->
    forall (n : Z) (items : list pyval),
      Array.dimensions self = Some n -> n <> 0 ->
      py_iter value = Some items ->
      n < Z.of_nat (ArrayDepth.depth items) + 1 ->
      ArrayDepth.accepts (Array.type self) (ArrayDepth.met_before n 2 items) ->
      Array.append self value =
        (Raise (ValueError (Array.depth_message (Z.max 2 (n + 1)) n)), made) /\
      forall i, Array.insert self i value =
        (Raise (ValueError (Array.depth_message (Z.max 2 (n + 1)) n)), made)).
  { intros Hseq n items Hn Hnz Hiter Hdeep Hacc.
    split; [|intros i]; unfold Array.append, Array.insert;
      rewrite (on_list_held _ ty held _ _ Hheld), select_cast_made,
              (Esel Hseq);
      rewrite (cast_refused self n Hn Hnz value 2 items Hiter) by
        (exact Hacc || lia);
      reflexivity. }
  split; [|split].
  - intros Hscalar y Hy.
    assert (E : Array._select_cast self value 2 = Ok y).
    { unfold Array._select_cast. now rewrite Hscalar. }
    split; [|intros i]; unfold Array.append, Array.insert;
      rewrite (on_list_held _ ty held _ _ Hheld), select_cast_made, E;
      reflexivity.
  - intros Hseq Hone.
    assert (Hiter : exists items, py_iter value = Some items).
    { destruct value; try discriminate; eexists; reflexivity. }
    destruct Hiter as [items Hiter].
    apply (refusal Hseq 1 items Hone ltac:(discriminate) Hiter).
    + unfold ArrayDepth.depth. lia.
    + unfold ArrayDepth.accepts, ArrayDepth.met_before.
      change (2 >? 1) with true. constructor.
  - intros Hseq n items Hn Hnz Hiter.
    repeat split.
    + apply (refusal Hseq n items Hn Hnz Hiter); assumption.
    + apply (refusal Hseq n items Hn Hnz Hiter); assumption.
    + intros Hle Hacc.
      destruct (cast_accepts self value 2 items Hiter) as [a Ha].
      * apply (fits_within self n); [exact Hn | lia].
      * exact Hacc.
      * exists a. split; [exact Ha|].
        split; [|intros i]; unfold Array.append, Array.insert;
          rewrite (on_list_held _ ty held _ _ Hheld), select_cast_made,
                  (Esel Hseq), Ha;
          reflexivity.
    + intros Hle Hacc.
      destruct (cast_accepts_shape self value items Hiter) as [ys Hys].
      * apply (fits_within self n); [exact Hn | lia].
      * exact Hacc.
      * exists ys. split; [exact Hys|].
        unfold Array.extend.
        rewrite (on_list_held _ ty held _ _ Hheld), select_cast_made,
                (Esel Hseq), Hys.
        reflexivity.
    + intros Hdeep Hacc. unfold Array.extend.
      rewrite (on_list_held _ ty held _ _ Hheld), select_cast_made,
              (Esel Hseq).
      rewrite (cast_refused self n Hn Hnz value 1 items Hiter) by
        (exact Hacc || lia).
      reflexivity.
Qed.

Lemma array_mutation_dimensions_witness :
  Array.append (ArrayDepth.new_array ArrayDepth.strict_int (Some 1))
               (VList [VStr "x"]) =
    (Raise (ValueError "Invalid dimensions (2): max depth is set to 1"),
     Array._make_list (ArrayDepth.new_array ArrayDepth.strict_int (Some 1)))
  /\ exists ys,
       Array.extend Samples.one_dimension (VList [VInt 7]) =
         (Ok tt, Array.set_value (Array._make_list Samples.one_dimension)
                                 (Val (VArr "text" ([] ++ ys)%list))).
Proof.
  split.
  - destruct (array_mutation_dimensions
                (ArrayDepth.new_array ArrayDepth.strict_int (Some 1))
                "integer" [] (VList [VStr "x"]) eq_refl) as [_ [H _]].
    exact (proj1 (H eq_refl eq_refl)).
  - destruct (array_mutation_dimensions Samples.one_dimension "text" []
                (VList [VInt 7]) eq_refl) as [_ [_ H]].
    destruct (H eq_refl 1 [VInt 7] eq_refl) as [_ [_ [Hext _]]].
    + discriminate.
    + reflexivity.
    + destruct Hext as [ys [_ Hys]].
      * vm_compute. discriminate.
      * repeat constructor; eexists; reflexivity.
      * exists ys. exact Hys.
Defined.

(** C3 as stated fails for [extend]: on an array of one dimension,
    extending with a list is accepted, where appending the same list raises
    the depth ValueError. *)
Lemma extend_casts_from_dimension_one :
  Array.extend Samples.one_dimension (VList [VInt 7]) =
    (Ok tt, Array.set_value Samples.one_dimension (Val (VArr "text" [VInt 7])))
  /\ fst (Array.extend Samples.one_dimension (VList [VInt 7])) <>
       Raise (ValueError (Array.depth_message 2 1))
  /\ fst (Array.append Samples.one_dimension (VList [VInt 7])) =
       Raise (ValueError (Array.depth_message 2 1)).
Proof.
  repeat split. discriminate.
Qed.

(** ** The two implementations of the cast *)

Lemma py_eq_items (l m : list pyval) :
  Forall2 (fun a b => py_eq a b = true) l m ->
  forall t u,
    py_eq (VList l) (VArr u m) = true /\ py_eq (VArr t l) (VArr u m) = true.
Proof.
  intros H t u.
  assert (E : py_eq (VList l) (VList m) = true).
  { induction H as [|a b l m Hab _ IH]; [reflexivity|].
    simpl in *. now rewrite Hab. }
  split; exact E.
Qed.

Section CastEquivalence.

Variable self : Array.t.
Variable n : Z.
Hypothesis Hn : Array.dimensions self = Some n.
Hypothesis Hpos : 0 < n.

Lemma exceeded_iff_gt (d : Z) :
  Array.depth_exceeded self d = if d >? n then Some n else None.
Proof.
  unfold Array.depth_exceeded. rewrite Hn.
  destruct (n =? 0) eqn:E; [apply Z.eqb_eq in E; lia | reflexivity].
Qed.

Lemma cast_agree : forall (v : pyval) (d : Z),
  agree (Array._cast self v d) (BloomArray._cast self v d).
Proof.
  assert (items_agree : forall (l : list pyval) (d : Z),
    Forall (fun x => isinstance_list x = true ->
              forall d, agree (Array._cast self x d)
                              (BloomArray._cast self x d)) l ->
    match mapM (cast_item self d) l, mapM (bloom_cast_item self d) l with
    | Ok ys, Ok zs => Forall2 (fun a b => py_eq a b = true) ys zs
    | Raise e1, Raise e2 => e1 = e2
    | _, _ => False
    end).
  { intros l d IH. induction IH as [|x l Hx _ IHl]; simpl; [constructor|].
    assert (Hitem : agree (cast_item self d x) (bloom_cast_item self d x)).
    { unfold cast_item, bloom_cast_item.
      destruct (isinstance_list x); simpl; [now apply Hx|].
      destruct (call (Array.type self) x); simpl;
        [apply py_eq_refl | reflexivity]. }
    unfold agree in Hitem.
    destruct (cast_item self d x) as [y|e1],
             (bloom_cast_item self d x) as [z|e2]; simpl; try contradiction;
      [|exact Hitem].
    destruct (mapM (cast_item self d) l) as [ys|e1],
             (mapM (bloom_cast_item self d) l) as [zs|e2]; simpl;
      try contradiction; [now constructor | exact IHl]. }
  assert (top : forall (v : pyval) (items : list pyval),
    py_iter v = Some items ->
    Forall (fun x => isinstance_list x = true ->
              forall d, agree (Array._cast self x d)
                              (BloomArray._cast self x d)) items ->
    forall d, agree (Array._cast self v d) (BloomArray._cast self v d)).
  { intros v items Hiter IH d.
    rewrite (cast_iter self v d items Hiter).
    rewrite (bloom_cast_iter self v d n items Hn Hiter).
    rewrite exceeded_iff_gt.
    destruct (d >? n); [reflexivity|].
    specialize (items_agree items (d + 1) IH).
    destruct (mapM (cast_item self (d + 1)) items) as [ys|e1],
             (mapM (bloom_cast_item self (d + 1)) items) as [zs|e2]; simpl;
      try contradiction; [|exact items_agree].
    unfold finish, Array._add_arr_type.
    destruct (d >? 1);
      [apply (proj1 (py_eq_items ys zs items_agree EmptyString _))
      |apply (proj2 (py_eq_items ys zs items_agree _ _))]. }
  induction v as [| b | z | s | l IH | l IH | t l IH] using pyval_nested_ind.
  1-3: intros d; rewrite cast_not_iterable by reflexivity;
       rewrite (bloom_cast_not_iterable self _ d n Hn) by reflexivity;
       rewrite exceeded_iff_gt; destruct (d >? n); reflexivity.
  - apply (top (VStr s) (chars s) eq_refl).
    eapply Forall_impl; [|apply chars_not_lists].
    intros x Hx Hx'. rewrite Hx in Hx'. discriminate.
  - apply (top (VTuple l) l eq_refl). eapply Forall_impl; [|exact IH]. auto.
  - apply (top (VList l) l eq_refl). eapply Forall_impl; [|exact IH]. auto.
  - apply (top (VArr t l) l eq_refl). eapply Forall_impl; [|exact IH]. auto.
Qed.

End CastEquivalence.

(** C9: for an array whose [dimensions] is a positive integer, and for
    every input value, the cast of cargo and the cast of bloom, over the
    same element field, either raise the same exception (so one raises a
    ValueError exactly when the other does) or return values that compare
    equal as nested lists. *)
Theorem cargo_bloom_cast_equivalent
        (self : Array.t) (n : Z) (value : pyval) :
  Array.dimensions self = Some n -> 0 < n ->
  match Array._cast self value 1, BloomArray._cast self value 1 with
  | Ok a, Ok b => py_eq a b = true
  | Raise e1, Raise e2 => e1 = e2
  | _, _ => False
  end.
Proof.
  intros Hn Hpos. exact (cast_agree self n Hn Hpos value 1).
Qed.

Lemma cargo_bloom_cast_equivalent_witness :
  match Array._cast (ArrayDepth.new_array ArrayDepth.strict_int (Some 2))
                    (VList [VList [VInt 1; VInt 2]; VInt 3]) 1,
        BloomArray._cast (ArrayDepth.new_array ArrayDepth.strict_int (Some 2))
                    (VList [VList [VInt 1; VInt 2]; VInt 3]) 1 with
  | Ok a, Ok b => py_eq a b = true
  | Raise e1, Raise e2 => e1 = e2
  | _, _ => False
  end.
Proof.
  apply (cargo_bloom_cast_equivalent
           (ArrayDepth.new_array ArrayDepth.strict_int (Some 2)) 2
           (VList [VList [VInt 1; VInt 2]; VInt 3]) eq_refl).
  reflexivity.
Defined.

(** ** Registration of an enum type *)

Section Registering.

Import Clients Registration.

Lemma register_oid_cached (self : OneOf.t) (d : Postgres) :
  cached self -> _register_oid self d = (Ok tt, self, d).
Proof.
  unfold cached, _register_oid. intros H.
  destruct (OneOf._type_oid self), (OneOf._type_array_oid self);
    try reflexivity.
  destruct H as [H | H]; now elim H.
Qed.

Lemma register_type_cached (self : OneOf.t) (w : world) :
  cached self ->
  exists w', register_type self w = (Ok tt, self, w') /\ queries w' = queries w.
Proof.
  intros H. unfold register_type. rewrite (register_oid_cached self (db w) H).
  simpl. eexists. split; reflexivity.
Qed.

Lemma register_times_cached (k : nat) :
  forall (self : OneOf.t) (w : world),
    cached self ->
    fst (register_times k self w) = self /\
    queries (snd (register_times k self w)) = queries w.
Proof.
  induction k as [|k IH]; intros self w H; [now split|].
  simpl. destruct (register_type_cached self w H) as [w' [E Hq]].
  rewrite E. destruct (IH self w' H) as [Hs Hw]. split; congruence.
Qed.

(** C6, as amended: [_register_oid] asks the database only when both cached
    identifiers are None.  When the lookup returns exactly two identifiers,
    [register_type] caches them, and from then on any number of further
    calls, against any database, execute no query.  When the lookup returns
    another number of rows, none in particular, [register_type] returns
    normally, adds one warning that names the type, registers nothing and
    leaves the cache empty, so the next call asks the database again. *)
Theorem register_type_resolution (self : OneOf.t) (w : world) :
  let name := OneOf.type_name self in
  let rows := pg_type (db w) ("_" ++ name) name in
  (cached self ->
   _register_oid self (db w) = (Ok tt, self, db w))
  /\
  (OneOf._type_oid self = None -> OneOf._type_array_oid self = None ->
   executed (snd (_register_oid self (db w))) =
     ("_" ++ name, name) :: executed (db w))
  /\
  (OneOf._type_oid self = None -> OneOf._type_array_oid self = None ->
   forall oid array_oid, map fst rows = [oid; array_oid] ->
     exists w',
       register_type self w =
         (Ok tt, OneOf.set_oids self (Some oid) (Some array_oid), w') /\
       queries w' = ("_" ++ name, name) :: queries w /\
       warnings w' = warnings w /\
       forall (k : nat) (later : world),
         queries (snd (register_times k
                         (OneOf.set_oids self (Some oid) (Some array_oid))
                         later)) = queries later)
  /\
  (OneOf._type_oid self = None -> OneOf._type_array_oid self = None ->
   List.length rows <> 2%nat ->
   exists w',
     register_type self w = (Ok tt, self, w') /\
     queries w' = ("_" ++ name, name) :: queries w /\
     warnings w' =
       ("Type `" ++ name ++ "` not found in the database.") :: warnings w /\
     types_registered w' = types_registered w /\
     forall later : world,
       queries (snd (register_type self later)) =
         ("_" ++ name, name) :: queries later).
Proof.
  intros name rows. subst rows name. split; [|split; [|split]].
  - apply register_oid_cached.
  - intros H1 H2. unfold _register_oid. rewrite H1, H2.
    unfold get_type_OID. simpl.
    destruct (unpack2 _) as [[a b]|e]; reflexivity.
  - intros H1 H2 oid array_oid Hrows.
    unfold register_type, _register_oid. rewrite H1, H2.
    unfold get_type_OID. cbn [fst snd]. rewrite Hrows. cbn [unpack2].
    eexists. split; [reflexivity|]. split; [reflexivity|].
    split; [reflexivity|].
    intros k later. apply register_times_cached. left. discriminate.
  - intros H1 H2 Hlen.
    assert (Hq : forall later : world,
      queries (snd (register_type self later)) =
        ("_" ++ OneOf.type_name self, OneOf.type_name self) :: queries later).
    { intros later. unfold register_type, _register_oid. rewrite H1, H2.
      unfold get_type_OID. simpl.
      destruct (unpack2 _) as [[a b]|[m|m|c m]]; reflexivity. }
    assert (E : register_type self w =
      (Ok tt, self,
       {| db := {| pg_type := pg_type (db w);
                   executed := ("_" ++ OneOf.type_name self,
                                OneOf.type_name self) :: executed (db w) |};
          types_registered := types_registered w;
          warnings := ("Type `" ++ OneOf.type_name self ++
                       "` not found in the database.") :: warnings w |})).
    { unfold register_type, _register_oid. rewrite H1, H2.
      unfold get_type_OID. cbn [fst snd].
      destruct (pg_type (db w) ("_" ++ OneOf.type_name self)
                        (OneOf.type_name self))
        as [|r1 [|r2 [|r3 l]]]; cbn in *; try (now elim Hlen); reflexivity. }
    eexists. split; [exact E|]. repeat split. exact Hq.
Qed.

End Registering.

Lemma register_type_resolution_witness :
  (exists w',
      Registration.register_type Samples.pets Samples.pets_world =
        (Ok tt, OneOf.set_oids Samples.pets (Some 16385) (Some 16384), w') /\
      forall (k : nat) (later : Registration.world),
        queries (snd (Registration.register_times k
                        (OneOf.set_oids Samples.pets (Some 16385) (Some 16384))
                        later)) = queries later)
  /\
  (exists w',
      Registration.register_type Samples.pets Samples.blank_world =
        (Ok tt, Samples.pets, w') /\
      Registration.warnings w' =
        ["Type `__enumtype` not found in the database."]).
Proof.
  destruct (register_type_resolution Samples.pets Samples.pets_world)
    as [_ [_ [Hfound _]]].
  destruct (register_type_resolution Samples.pets Samples.blank_world)
    as [_ [_ [_ Hmissing]]].
  split.
  - destruct (Hfound eq_refl eq_refl 16385 16384 eq_refl)
      as [w' [E [_ [_ Hlater]]]].
    exists w'. split; [exact E | exact Hlater].
  - destruct (Hmissing eq_refl eq_refl) as [w' [E [_ [Hw _]]]].
    + discriminate.
    + exists w'. split; [exact E | exact Hw].
Defined.

(** C6 as stated fails when the database does not know the type: the cache
    stays empty, so a second call of [register_type] on the same field
    executes the lookup again. *)
Lemma second_registration_queries_again :
  let '(r1, s1, w1) :=
    Registration.register_type Samples.pets Samples.blank_world in
  let '(r2, s2, w2) := Registration.register_type s1 w1 in
  r1 = Ok tt /\ r2 = Ok tt /\
  List.length (queries w1) = 1%nat /\ List.length (queries w2) = 2%nat /\
  queries w2 <> queries w1.
Proof.
  cbn. repeat split. discriminate.
Qed.

(** ** The binary codec *)

Section Base64Facts.

Import Base64.

Ltac nlia := zify; Z.to_euclidean_division_equations; lia.

Lemma alphabet_checked :
  forallb (fun n => match b64_index (b64_char n) with
                    | Some m => (m =? n)%N
                    | None => false
                    end && negb (Byte.eqb (b64_char n) pad))
          (map N.of_nat (seq 0 64)) = true.
Proof. vm_compute. reflexivity. Qed.

Lemma alphabet_char (n : N) :
  (n < 64)%N ->
  b64_index (b64_char n) = Some n /\ Byte.eqb (b64_char n) pad = false.
Proof.
  intros Hn.
  assert (Hin : In n (map N.of_nat (seq 0 64))).
  { rewrite <- (N2Nat.id n). apply in_map. apply in_seq. lia. }
  pose proof (proj1 (forallb_forall _ _) alphabet_checked n Hin) as H.
  apply andb_true_iff in H. destruct H as [H1 H2].
  split.
  - destruct (b64_index (b64_char n)) as [m|]; [|discriminate].
    apply N.eqb_eq in H1. now subst.
  - now apply negb_true_iff.
Qed.

Lemma loop_char (v : N) (rest : bytes) (quad_pos leftchar pads : N)
      (out : bytes) :
  (v < 64)%N ->
  a2b_loop (b64_char v :: rest) quad_pos leftchar pads out =
    match quad_pos with
    | 0%N => a2b_loop rest 1%N v 0%N out
    | 1%N => a2b_loop rest 2%N (v mod 16)%N 0%N
                      (byte_of (leftchar * 4 + v / 16) :: out)
    | 2%N => a2b_loop rest 3%N (v mod 4)%N 0%N
                      (byte_of (leftchar * 16 + v / 4) :: out)
    | _ => a2b_loop rest 0%N 0%N 0%N (byte_of (leftchar * 64 + v) :: out)
    end.
Proof.
  intros Hv. destruct (alphabet_char v Hv) as [Hi Hp].
  cbn [a2b_loop]. rewrite Hp, Hi. reflexivity.
Qed.

Lemma loop_pad (rest : bytes) (quad_pos leftchar pads : N) (out : bytes) :
  a2b_loop (pad :: rest) quad_pos leftchar pads out =
    if (2 <=? quad_pos)%N then
      if (4 <=? quad_pos + (pads + 1))%N then Ok (rev out)
      else a2b_loop rest quad_pos leftchar (pads + 1)%N out
    else a2b_loop rest quad_pos leftchar pads out.
Proof. reflexivity. Qed.

Lemma byte_of_to_N (b : Byte.byte) : byte_of (Byte.to_N b) = b.
Proof. unfold byte_of. now rewrite Byte.of_to_N. Qed.

Lemma byte_of_eq (b : Byte.byte) (n : N) : n = Byte.to_N b -> byte_of n = b.
Proof. intros ->. apply byte_of_to_N. Qed.

Lemma triple_ind {A : Type} (P : list A -> Prop) :
  P [] -> (forall a, P [a]) -> (forall a b, P [a; b]) ->
  (forall a b c l, P l -> P (a :: b :: c :: l)) ->
  forall l, P l.
Proof.
  intros H0 H1 H2 H3. fix IH 1.
  intros [|a [|b [|c l]]]; [exact H0 | apply H1 | apply H2 | apply H3, IH].
Qed.

(** Decoding what [b64encode] produced gives the bytes back. *)
Lemma a2b_loop_encode (data : bytes) :
  forall out, a2b_loop (b64encode data) 0%N 0%N 0%N out = Ok (rev out ++ data)%list.
Proof.
  induction data as [| a | a b | a b c l IH] using triple_ind; intros out.
  - simpl. now rewrite app_nil_r.
  - pose proof (Byte.to_N_bounded a) as Ha.
    cbn [b64encode]. cbv zeta.
    rewrite loop_char by nlia. rewrite loop_char by nlia.
    rewrite loop_pad. cbn [N.leb N.compare Pos.compare Pos.compare_cont N.add Pos.add Pos.succ].
    rewrite loop_pad. cbn.
    rewrite (byte_of_eq a) by nlia. reflexivity.
  - pose proof (Byte.to_N_bounded a) as Ha.
    pose proof (Byte.to_N_bounded b) as Hb.
    cbn [b64encode]. cbv zeta.
    rewrite loop_char by nlia. rewrite loop_char by nlia.
    rewrite loop_char by nlia.
    rewrite loop_pad. cbn.
    rewrite (byte_of_eq a) by nlia. rewrite (byte_of_eq b) by nlia.
    rewrite <- app_assoc. reflexivity.
  - pose proof (Byte.to_N_bounded a) as Ha.
    pose proof (Byte.to_N_bounded b) as Hb.
    pose proof (Byte.to_N_bounded c) as Hc.
    cbn [b64encode]. cbv zeta.
    rewrite loop_char by nlia. rewrite loop_char by nlia.
    rewrite loop_char by nlia. rewrite loop_char by nlia.
    rewrite IH. cbn [rev].
    rewrite (byte_of_eq a) by nlia. rewrite (byte_of_eq b) by nlia.
    rewrite (byte_of_eq c) by nlia.
    rewrite <- !app_assoc. reflexivity.
Qed.

Lemma b64decode_b64encode (data : bytes) :
  b64decode (Some (b64encode data)) = Ok data.
Proof. unfold b64decode. now rewrite a2b_loop_encode. Qed.

Lemma a2b_loop_errors (input : bytes) :
  forall (quad_pos leftchar pads : N) (out : bytes) (e : exn),
    a2b_loop input quad_pos leftchar pads out = Raise e ->
    exists msg, e = binascii_Error msg.
Proof.
  induction input as [|ch rest IH]; intros q lc p out e; cbn [a2b_loop].
  - destruct (q =? 0)%N; [discriminate|].
    destruct (q =? 1)%N; intros H; injection H as <-; eexists; reflexivity.
  - destruct (Byte.eqb ch pad).
    + destruct (2 <=? q)%N; [|apply IH].
      destruct (4 <=? q + (p + 1))%N; [discriminate | apply IH].
    + destruct (b64_index ch) as [v|]; [|apply IH].
      destruct q as [|[[?|?|]|[?|?|]|]]; apply IH.
Qed.

Lemma b64decode_errors (s : option bytes) (e : exn) :
  b64decode s = Raise e ->
  (exists msg, e = TypeError msg) \/ (exists msg, e = binascii_Error msg).
Proof.
  destruct s as [data|]; simpl.
  - intros H. right. exact (a2b_loop_errors data _ _ _ _ e H).
  - intros H. injection H as <-. left. eexists. reflexivity.
Qed.

End Base64Facts.

(** C7: [to_db] hands the base64 text of the bytes to the driver's binary
    wrapper.  Whenever the driver gives back, on reading, the bytes it was
    given on writing, [to_python] of what [to_db] stored is the original
    bytes, for every bytes value.  And whenever base64 decoding of a
    received value fails, [to_python] returns what the driver parsed instead
    of raising. *)
Theorem binary_codec_round_trip
        (adapted wire : Type) (Binary : Base64.bytes -> adapted)
        (sent : adapted -> wire)
        (BINARY : option wire -> option Base64.bytes) :
  (forall b, BINARY (Some (sent (Binary b))) = Some b) ->
  (forall v, BloomBinary.to_db adapted Binary v = Binary (Base64.b64encode v))
  /\
  (forall v,
      BloomBinary.to_python wire BINARY
        (Some (sent (BloomBinary.to_db adapted Binary v))) = Ok (Some v))
  /\
  (forall w e,
      Base64.b64decode (BINARY w) = Raise e ->
      BloomBinary.to_python wire BINARY w = Ok (BINARY w)).
Proof.
  intros Hdriver. split; [reflexivity|]. split.
  - intros v. unfold BloomBinary.to_python, BloomBinary.to_db.
    rewrite Hdriver, b64decode_b64encode. reflexivity.
  - intros w e He. unfold BloomBinary.to_python. rewrite He.
    destruct (b64decode_errors _ _ He) as [[msg ->] | [msg ->]]; reflexivity.
Qed.

Lemma binary_codec_round_trip_witness :
  BloomBinary.to_python Base64.bytes (fun w => w)
    (Some (BloomBinary.to_db Base64.bytes (fun b => b)
             [Byte.x68; Byte.x69; Byte.x00; Byte.xff])) =
    Ok (Some [Byte.x68; Byte.x69; Byte.x00; Byte.xff])
  /\ BloomBinary.to_python Base64.bytes (fun w => w) (Some [Byte.x61]) =
       Ok (Some [Byte.x61]).
Proof.
  destruct (binary_codec_round_trip Base64.bytes Base64.bytes
              (fun b => b) (fun a => a) (fun w => w) (fun b => eq_refl))
    as [_ [Hround Hraw]].
  split.
  - exact (Hround [Byte.x68; Byte.x69; Byte.x00; Byte.xff]).
  - apply (Hraw (Some [Byte.x61])
                (Base64.binascii_Error "Invalid base64-encoded string")).
    reflexivity.
Defined.

(** ** Compilation of a case *)

(** C8: the case of the test, built in one call over the field [foo.bar],
    compiles to CASE WHEN foo.bar = %s THEN %s WHEN foo.bar = %s THEN %s
    ELSE %s END with the parameters 1, one, 2, two, three, which inlined
    reads CASE WHEN foo.bar = 1 THEN one WHEN foo.bar = 2 THEN two ELSE
    three END; the same case built by two [when] calls and two [el] calls,
    the second [el] replacing the first, compiles to the same text and
    parameters.  In general a later [el] replaces an earlier one and [when]
    appends, so that the step-by-step tree is the tree built in one call. *)
Theorem case_compilation :
  Expressions.inlined (Expressions.case_node Samples.case) =
    Ok "CASE WHEN foo.bar = 1 THEN one WHEN foo.bar = 2 THEN two ELSE three END"
  /\
  Expressions.compiled_of (Expressions.case_node Samples.case) =
    Ok {| Expressions.text :=
            "CASE WHEN foo.bar = %s THEN %s WHEN foo.bar = %s THEN %s ELSE %s END";
          Expressions.params :=
            [VInt 1; VStr "one"; VInt 2; VStr "two"; VStr "three"] |}
  /\
  Expressions.compiled_of (Expressions.case_node Samples.caseb) =
    Expressions.compiled_of (Expressions.case_node Samples.case)
  /\
  Expressions.inlined (Expressions.case_node Samples.caseb) =
    Expressions.inlined (Expressions.case_node Samples.case)
  /\
  (forall (first second : list (Expressions.node * Expressions.node))
          (earlier later : Expressions.node)
          (alias : option string) (use_field_name : bool),
      Expressions.case_node
        (Expressions.el
           (Expressions.el
              (Expressions.when
                 (Expressions.when
                    (Expressions.new_case [] None alias use_field_name) first)
                 second)
              earlier)
           later) =
      Expressions.case_node
        (Expressions.new_case (first ++ second)%list (Some later)
                              alias use_field_name)).
Proof.
  repeat split.
Qed.

(** ** Placeholders and parameters *)

Section Alignment.

Import Expressions.

Lemma string_ind2 (P : string -> Prop) :
  P EmptyString ->
  (forall c, P (String c EmptyString)) ->
  (forall c d s, P s -> P (String d s) -> P (String c (String d s))) ->
  forall s, P s.
Proof.
  intros H0 H1 H2 s.
  assert (H : P s /\ forall c, P (String c s)).
  { induction s as [|d s [IHs IHc]]; [now split|].
    split; [apply IHc|]. intros c. apply H2; [exact IHs | apply IHc]. }
  apply H.
Qed.

Lemma count_app (a b : string) :
  closed a = true ->
  count_placeholders (a ++ b) = (count_placeholders a + count_placeholders b)%nat.
Proof.
  induction a as [| c | c d s IHs IHd] using string_ind2; intros Hc.
  - reflexivity.
  - simpl in Hc |- *. destruct (Ascii.eqb c "%"); [discriminate | reflexivity].
  - change ((String c (String d s)) ++ b) with (String c (String d (s ++ b))).
    cbn [closed] in Hc. cbn [count_placeholders].
    destruct (Ascii.eqb c "%").
    + apply andb_true_iff in Hc. destruct Hc as [Hd Hs].
      destruct (Ascii.eqb d "s"); [now rewrite (IHs Hs)|].
      destruct (Ascii.eqb d "%"); [now rewrite (IHs Hs) | discriminate].
    + change (String d (s ++ b)) with ((String d s) ++ b).
      now apply IHd.
Qed.

Lemma closed_app (a b : string) :
  closed a = true -> closed b = true -> closed (a ++ b) = true.
Proof.
  induction a as [| c | c d s IHs IHd] using string_ind2; intros Ha Hb.
  - exact Hb.
  - simpl in Ha |- *. destruct (Ascii.eqb c "%"); [discriminate | exact Hb].
  - change ((String c (String d s)) ++ b) with (String c (String d (s ++ b))).
    cbn [closed] in Ha |- *.
    destruct (Ascii.eqb c "%").
    + apply andb_true_iff in Ha. destruct Ha as [Hd Hs].
      rewrite Hd. now apply IHs.
    + change (String d (s ++ b)) with ((String d s) ++ b).
      now apply IHd.
Qed.

Lemma escaped_closed (a : string) :
  escaped a = true -> closed a = true /\ count_placeholders a = O.
Proof.
  induction a as [| c | c d s IHs IHd] using string_ind2; intros Ha.
  - now split.
  - simpl in Ha |- *. destruct (Ascii.eqb c "%"); [discriminate | now split].
  - cbn [escaped] in Ha. cbn [closed count_placeholders].
    destruct (Ascii.eqb c "%").
    + apply andb_true_iff in Ha. destruct Ha as [Hd Hs].
      destruct (IHs Hs) as [Hcl Hct].
      destruct (Ascii.eqb d "s") eqn:Eds.
      * apply Ascii.eqb_eq in Eds. apply Ascii.eqb_eq in Hd. subst.
        discriminate.
      * rewrite Hd. now split.
    + now apply IHd.
Qed.

End Alignment.

Section NodeInduction.

Import Expressions.

Variable P : node -> Prop.
Hypothesis HField : forall f, P (Field f).
Hypothesis HLiteral : forall v, P (Literal v).
Hypothesis HSafe : forall s, P (Safe s).
Hypothesis HExpression :
  forall l op r alias group, P l -> P r -> P (Expression l op r alias group).
Hypothesis HFunction :
  forall name argument alias,
    (forall a, argument = Some a -> P a) -> P (Function name argument alias).
Hypothesis HClause :
  forall keyword children alias,
    Forall P children -> P (Clause keyword children alias).
Hypothesis HCase :
  forall conditions el alias use_field_name,
    Forall (fun cr => P (fst cr) /\ P (snd cr)) conditions ->
    (forall x, el = Some x -> P x) ->
    P (Case conditions el alias use_field_name).

Lemma node_nested_ind : forall n, P n.
Proof.
  fix IH 1.
  intros [f | v | s | l op r alias group | name argument alias
          | keyword children alias | conditions el alias use_field_name].
  - apply HField.
  - apply HLiteral.
  - apply HSafe.
  - apply HExpression; apply IH.
  - apply HFunction. destruct argument as [a|].
    + intros a' E. injection E as <-. apply IH.
    + intros a' E. discriminate E.
  - apply HClause. revert children. fix IHl 1. intros [|x l].
    + constructor.
    + constructor; [apply IH | apply IHl].
  - apply HCase.
    + revert conditions. fix IHl 1. intros [|[c r] l].
      * constructor.
      * constructor; [split; apply IH | apply IHl].
    + destruct el as [x|].
      * intros x' E. injection E as <-. apply IH.
      * intros x' E. discriminate E.
Qed.

End NodeInduction.

Section Compilation.

Import Expressions.

Lemma compile_clause (bare nested : bool) (keyword : string)
      (children : list node) (alias : option string) :
  compile bare nested (Clause keyword children alias) =
    cs <- mapM (compile bare true) children ;;
    Ok {| text := with_alias nested alias (join " " (keyword :: map text cs));
          params := concat (map params cs) |}.
Proof.
  cbn [compile].
  match goal with |- bind ?a _ = bind ?b _ => assert (E : a = b) end.
  { induction children as [|x l IH]; [reflexivity|].
    cbn [mapM]. rewrite <- IH. reflexivity. }
  now rewrite E.
Qed.

Lemma compile_case (bare nested : bool) (conditions : list (node * node))
      (el : option node) (alias : option string) (use_field_name : bool) :
  compile bare nested (Case conditions el alias use_field_name) =
    match conditions, el with
    | [], None => Raise (BuildError "CASE without WHEN or ELSE")
    | _, _ =>
        w <- compile_whens bare use_field_name conditions ;;
        e <- compile_else bare el ;;
        Ok {| text := with_alias nested alias
                        ("CASE" ++ text w ++ text e ++ " END");
              params := (params w ++ params e)%list |}
    end.
Proof.
  assert (E : forall l,
    (fix whens (l : list (node * node)) : result compiled :=
       match l with
       | [] => Ok nothing
       | (c, r) :: rest =>
           cc <- compile (bare || use_field_name) true c ;;
           cr <- compile bare true r ;;
           cs <- whens rest ;;
           Ok {| text := " WHEN " ++ text cc ++ " THEN " ++ text cr ++ text cs;
                 params := (params cc ++ params cr ++ params cs)%list |}
       end) l = compile_whens bare use_field_name l).
  { induction l as [|[c r] l IH]; [reflexivity|].
    cbn [compile_whens]. rewrite <- IH. reflexivity. }
  cbn [compile]. rewrite E.
  destruct conditions, el; reflexivity.
Qed.

End Compilation.

Section AlignmentProof.

Import Expressions.

Lemma holds_app (a b : string) (n m : nat) :
  holds a n -> holds b m -> holds (a ++ b) (n + m).
Proof.
  intros [Ha Hn] [Hb Hm]. split.
  - now apply closed_app.
  - rewrite count_app by exact Ha. congruence.
Qed.

Lemma holds_escaped (s : string) : escaped s = true -> holds s 0.
Proof. intros H. exact (escaped_closed s H). Qed.

Lemma holds_eq (s : string) (n m : nat) : holds s n -> n = m -> holds s m.
Proof. intros H <-. exact H. Qed.

Lemma holds_with_alias (nested : bool) (alias : option string) (s : string)
      (n : nat) :
  escaped_opt alias = true -> holds s n -> holds (with_alias nested alias s) n.
Proof.
  intros Ha Hs. unfold with_alias.
  destruct nested; [exact Hs|]. destruct alias as [a|]; [|exact Hs].
  eapply holds_eq.
  - apply holds_app; [exact Hs|].
    apply (holds_app " " a 0 0); [now apply holds_escaped|].
    now apply holds_escaped.
  - lia.
Qed.

Lemma holds_grouped (group : bool) (s : string) (n : nat) :
  holds s n -> holds (grouped group s) n.
Proof.
  intros Hs. unfold grouped. destruct group; [|exact Hs].
  eapply holds_eq.
  - apply (holds_app "(" _ 0); [now apply holds_escaped|].
    apply holds_app; [exact Hs|]. apply (holds_escaped ")"). reflexivity.
  - lia.
Qed.

Lemma holds_aligned (c : compiled) :
  aligned c <-> holds (text c) (List.length (params c)).
Proof. reflexivity. Qed.

Lemma holds_join (cs : list compiled) :
  Forall aligned cs ->
  forall (first : string) (n0 : nat),
    holds first n0 ->
    holds (join " " (first :: map text cs))
          (n0 + List.length (concat (map params cs))).
Proof.
  induction 1 as [|c cs Hc _ IH]; intros first n0 Hfirst.
  - simpl. eapply holds_eq; [exact Hfirst | lia].
  - change (join " " (first :: map text (c :: cs)))
      with (first ++ " " ++ join " " (text c :: map text cs)).
    eapply holds_eq.
    + apply holds_app; [exact Hfirst|].
      apply (holds_app " " _ 0); [now apply holds_escaped|].
      apply IH. exact Hc.
    + simpl. rewrite length_app. lia.
Qed.

Lemma mapM_Forall {A B : Type} (f : A -> result B) (Q : B -> Prop)
      (l : list A) :
  Forall (fun x => forall y, f x = Ok y -> Q y) l ->
  forall ys, mapM f l = Ok ys -> Forall Q ys.
Proof.
  induction 1 as [|x l Hx _ IH]; intros ys E; simpl in E.
  - injection E as <-. constructor.
  - destruct (f x) as [y|e] eqn:Ey; [|discriminate].
    destruct (mapM f l) as [ys'|e]; [|discriminate].
    simpl in E. injection E as <-. constructor; [now apply Hx | now apply IH].
Qed.

Lemma whens_aligned (bare use_field_name : bool) (l : list (node * node)) :
  Forall (fun cr => compiles_aligned (fst cr) /\ compiles_aligned (snd cr)) l ->
  forallb (fun cr => verbatim_escaped (fst cr) && verbatim_escaped (snd cr)) l
    = true ->
  forall w, compile_whens bare use_field_name l = Ok w -> aligned w.
Proof.
  induction 1 as [|[c r] l [Hc Hr] _ IH]; intros Hesc w E.
  - injection E as <-. now split.
  - cbn [forallb fst snd] in Hesc.
    apply andb_true_iff in Hesc. destruct Hesc as [Hcr Hl].
    apply andb_true_iff in Hcr. destruct Hcr as [Hec Her].
    cbn [compile_whens] in E. cbn [fst snd] in *.
    destruct (compile (bare || use_field_name) true c) as [cc|] eqn:Ec;
      [|discriminate].
    destruct (compile bare true r) as [cr|] eqn:Er; [|discriminate].
    destruct (compile_whens bare use_field_name l) as [cs|] eqn:Es;
      [|discriminate].
    cbn [bind] in E. injection E as <-.
    specialize (Hc Hec _ _ _ Ec). specialize (Hr Her _ _ _ Er).
    specialize (IH Hl _ eq_refl).
    apply holds_aligned. cbn [text params].
    eapply holds_eq.
    + apply (holds_app " WHEN " _ 0); [now apply holds_escaped|].
      apply holds_app; [exact Hc|].
      apply (holds_app " THEN " _ 0); [now apply holds_escaped|].
      apply holds_app; [exact Hr | exact IH].
    + rewrite !length_app. lia.
Qed.

Lemma compile_aligned : forall n, compiles_aligned n.
Proof.
  induction n as [f | v | s | l op r alias group IHl IHr
                  | name argument alias IHa | keyword children alias IHc
                  | conditions el alias use_field_name IHw IHe]
    using node_nested_ind; intros Hesc bare nested c E.
  - cbn in E. injection E as <-. apply holds_aligned. cbn [text params].
    cbn [verbatim_escaped] in Hesc. apply andb_true_iff in Hesc.
    destruct Hesc as [Ht Hf]. unfold render_field.
    destruct bare; [now apply holds_escaped|].
    destruct (table f) as [t|]; [|now apply holds_escaped].
    apply (holds_app t _ 0 0); [now apply holds_escaped|].
    apply (holds_app "." _ 0 0); now apply holds_escaped.
  - cbn in E. injection E as <-. now split.
  - cbn in E. injection E as <-. apply holds_aligned. now apply holds_escaped.
  - cbn [verbatim_escaped] in Hesc.
    apply andb_true_iff in Hesc. destruct Hesc as [Hesc Halias].
    apply andb_true_iff in Hesc. destruct Hesc as [Hesc Hr].
    apply andb_true_iff in Hesc. destruct Hesc as [Hl Hop].
    cbn [compile] in E.
    destruct (compile bare true l) as [cl|] eqn:El; [|discriminate].
    destruct (compile bare true r) as [cr|] eqn:Er; [|discriminate].
    cbn [bind] in E. injection E as <-.
    specialize (IHl Hl _ _ _ El). specialize (IHr Hr _ _ _ Er).
    apply holds_aligned. cbn [text params].
    apply holds_with_alias; [exact Halias|]. apply holds_grouped.
    eapply holds_eq.
    + apply holds_app; [exact IHl|].
      apply (holds_app " " _ 0); [now apply holds_escaped|].
      apply (holds_app op _ 0); [now apply holds_escaped|].
      apply (holds_app " " _ 0); [now apply holds_escaped | exact IHr].
    + rewrite length_app. lia.
  - cbn [verbatim_escaped] in Hesc.
    apply andb_true_iff in Hesc. destruct Hesc as [Hesc Harg].
    apply andb_true_iff in Hesc. destruct Hesc as [Hname Halias].
    cbn [compile] in E. destruct argument as [a|].
    + destruct (compile bare true a) as [ca|] eqn:Ea; [|discriminate].
      cbn [bind] in E. injection E as <-.
      specialize (IHa a eq_refl Harg _ _ _ Ea).
      apply holds_aligned. cbn [text params].
      apply holds_with_alias; [exact Halias|].
      eapply holds_eq.
      * apply (holds_app name _ 0); [now apply holds_escaped|].
        apply (holds_app "(" _ 0); [now apply holds_escaped|].
        apply holds_app; [exact IHa|]. apply (holds_escaped ")"). reflexivity.
      * lia.
    + injection E as <-. apply holds_aligned. cbn [text params].
      apply holds_with_alias; [exact Halias|].
      apply (holds_app name _ 0 0); now apply holds_escaped.
  - cbn [verbatim_escaped] in Hesc.
    apply andb_true_iff in Hesc. destruct Hesc as [Hesc Hch].
    apply andb_true_iff in Hesc. destruct Hesc as [Hkw Halias].
    rewrite compile_clause in E.
    destruct (mapM (compile bare true) children) as [cs|] eqn:Ecs;
      [|discriminate].
    cbn [bind] in E. injection E as <-.
    assert (Hcs : Forall aligned cs).
    { apply (mapM_Forall (compile bare true) aligned children); [|exact Ecs].
      rewrite forallb_forall in Hch. rewrite Forall_forall in IHc |- *.
      intros x Hx y Ey. exact (IHc x Hx (Hch x Hx) _ _ _ Ey). }
    apply holds_aligned. cbn [text params].
    apply holds_with_alias; [exact Halias|].
    apply (holds_join cs Hcs keyword 0). now apply holds_escaped.
  - cbn [verbatim_escaped] in Hesc.
    apply andb_true_iff in Hesc. destruct Hesc as [Hesc Hel].
    apply andb_true_iff in Hesc. destruct Hesc as [Halias Hconds].
    rewrite compile_case in E.
    assert (E' : w <- compile_whens bare use_field_name conditions ;;
                 e <- compile_else bare el ;;
                 Ok {| text := with_alias nested alias
                                 ("CASE" ++ text w ++ text e ++ " END");
                       params := (params w ++ params e)%list |} = Ok c).
    { destruct conditions, el; try exact E. discriminate. }
    clear E.
    destruct (compile_whens bare use_field_name conditions) as [w|] eqn:Ew;
      [|discriminate].
    destruct (compile_else bare el) as [e|] eqn:Ee; [|discriminate].
    cbn [bind] in E'. injection E' as <-.
    pose proof (whens_aligned bare use_field_name conditions IHw Hconds w Ew)
      as Hw.
    assert (He : aligned e).
    { unfold compile_else in Ee. destruct el as [x|].
      - destruct (compile bare true x) as [ce|] eqn:Ex; [|discriminate].
        cbn [bind] in Ee. injection Ee as <-.
        specialize (IHe x eq_refl Hel _ _ _ Ex).
        apply holds_aligned. cbn [text params].
        apply (holds_app " ELSE " _ 0); [now apply holds_escaped | exact IHe].
      - injection Ee as <-. now split. }
    apply holds_aligned. cbn [text params].
    apply holds_with_alias; [exact Halias|].
    eapply holds_eq.
    + apply (holds_app "CASE" _ 0); [now apply holds_escaped|].
      apply holds_app; [exact Hw|].
      apply holds_app; [exact He|]. apply (holds_escaped " END"). reflexivity.
    + rewrite length_app. lia.
Qed.

End AlignmentProof.

Section Subtrees.

Import Expressions.

Lemma subtrees_escaped :
  forall n, verbatim_escaped n = true ->
  forall m, In m (subtrees n) -> verbatim_escaped m = true.
Proof.
  induction n as [f | v | s | l op r alias group IHl IHr
                  | name argument alias IHa | keyword children alias IHc
                  | conditions el alias use_field_name IHw IHe]
    using node_nested_ind; intros Hesc m Hm; cbn [subtrees] in Hm;
    destruct Hm as [<- | Hm]; try exact Hesc; try contradiction;
    cbn [verbatim_escaped] in Hesc.
  - apply andb_true_iff in Hesc. destruct Hesc as [Hesc Halias].
    apply andb_true_iff in Hesc. destruct Hesc as [Hesc Hr].
    apply andb_true_iff in Hesc. destruct Hesc as [Hl Hop].
    apply in_app_or in Hm. destruct Hm; [now apply IHl | now apply IHr].
  - apply andb_true_iff in Hesc. destruct Hesc as [_ Harg].
    destruct argument as [a|]; [|contradiction].
    now apply (IHa a eq_refl).
  - apply andb_true_iff in Hesc. destruct Hesc as [_ Hch].
    apply in_flat_map in Hm. destruct Hm as [x [Hx Hmx]].
    rewrite forallb_forall in Hch. rewrite Forall_forall in IHc.
    exact (IHc x Hx (Hch x Hx) m Hmx).
  - apply andb_true_iff in Hesc. destruct Hesc as [Hesc Hel].
    apply andb_true_iff in Hesc. destruct Hesc as [_ Hconds].
    apply in_app_or in Hm. destruct Hm as [Hm | Hm].
    + apply in_flat_map in Hm. destruct Hm as [cr [Hcr Hmcr]].
      rewrite forallb_forall in Hconds. rewrite Forall_forall in IHw.
      specialize (Hconds cr Hcr). apply andb_true_iff in Hconds.
      destruct (IHw cr Hcr) as [IH1 IH2].
      apply in_app_or in Hmcr.
      destruct Hmcr; [now apply IH1 | now apply IH2].
    + destruct el as [x|]; [|contradiction].
      now apply (IHe x eq_refl).
Qed.

Lemma mapM_raise {A B : Type} (f : A -> result B) (l : list A) (e : exn) :
  mapM f l = Raise e -> exists x, In x l /\ f x = Raise e.
Proof.
  induction l as [|x l IH]; simpl; [discriminate|].
  destruct (f x) as [y|e'] eqn:Ex; simpl.
  - destruct (mapM f l) as [ys|e'']; simpl; [discriminate|].
    intros H. injection H as <-.
    destruct (IH eq_refl) as [x' [Hin Hx']]. exists x'. auto.
  - intros H. injection H as <-. exists x. auto.
Qed.

(** The only failure of a compilation is the case with no branch at all. *)
Lemma compile_failure :
  forall n (bare nested : bool) (e : exn),
    compile bare nested n = Raise e ->
    e = BuildError "CASE without WHEN or ELSE".
Proof.
  induction n as [f | v | s | l op r alias group IHl IHr
                  | name argument alias IHa | keyword children alias IHc
                  | conditions el alias use_field_name IHw IHe]
    using node_nested_ind; intros bare nested e E.
  - discriminate.
  - discriminate.
  - discriminate.
  - cbn [compile] in E.
    destruct (compile bare true l) as [cl|e1] eqn:El;
      [|injection E as <-; exact (IHl _ _ _ El)].
    destruct (compile bare true r) as [cr|e2] eqn:Er;
      [discriminate | injection E as <-; exact (IHr _ _ _ Er)].
  - cbn [compile] in E. destruct argument as [a|]; [|discriminate].
    destruct (compile bare true a) as [ca|e1] eqn:Ea;
      [discriminate | injection E as <-; exact (IHa a eq_refl _ _ _ Ea)].
  - rewrite compile_clause in E.
    destruct (mapM (compile bare true) children) as [cs|e1] eqn:Ecs;
      [discriminate|].
    injection E as <-.
    destruct (mapM_raise _ _ _ Ecs) as [x [Hx Ex]].
    rewrite Forall_forall in IHc. exact (IHc x Hx _ _ _ Ex).
  - rewrite compile_case in E.
    assert (Hw : forall e', compile_whens bare use_field_name conditions
                            = Raise e' ->
                            e' = BuildError "CASE without WHEN or ELSE").
    { clear E. induction IHw as [|[c r] l [Hc Hr] _ IH]; intros e' E;
        [discriminate|].
      cbn [compile_whens] in E. cbn [fst snd] in *.
      destruct (compile (bare || use_field_name) true c) as [cc|e1] eqn:Ec;
        [|injection E as <-; exact (Hc _ _ _ Ec)].
      destruct (compile bare true r) as [cr|e2] eqn:Er;
        [|injection E as <-; exact (Hr _ _ _ Er)].
      destruct (compile_whens bare use_field_name l) as [cs|e3];
        [discriminate | injection E as <-; now apply IH]. }
    assert (He : forall e', compile_else bare el = Raise e' ->
                            e' = BuildError "CASE without WHEN or ELSE").
    { intros e' E'. unfold compile_else in E'. destruct el as [x|];
        [|discriminate].
      destruct (compile bare true x) as [ce|e1] eqn:Ex;
        [discriminate | injection E' as <-; exact (IHe x eq_refl _ _ _ Ex)]. }
    destruct conditions as [|p conditions], el as [x|];
      try (injection E as <-; reflexivity);
      (destruct (compile_whens bare use_field_name _) as [w|e1] eqn:Ew;
       [|injection E as <-; now apply Hw]);
      (destruct (compile_else bare _) as [ce|e2] eqn:Ee;
       [discriminate | injection E as <-; now apply He]).
Qed.

End Subtrees.

(** C1, as amended: take a tree whose verbatim texts (table and column
    names, operators, function names, keywords, aliases and safe literals)
    hold a percent sign only doubled.  Then every node of the tree, the
    root included, whether compiled on its own or as an operand, in bare
    field-name mode or not, either fails with the BuildError of a case
    without branches or compiles to a text that holds exactly as many
    [%s] placeholders as it has parameters. *)
Theorem placeholders_match_parameters (n : Expressions.node) :
  Expressions.verbatim_escaped n = true ->
  forall m : Expressions.node, In m (Expressions.subtrees n) ->
  forall bare nested : bool,
    match Expressions.compile bare nested m with
    | Ok c =>
        Expressions.count_placeholders (Expressions.text c) =
          List.length (Expressions.params c)
    | Raise e => e = Expressions.BuildError "CASE without WHEN or ELSE"
    end.
Proof.
  intros Hesc m Hm bare nested.
  destruct (Expressions.compile bare nested m) as [c|e] eqn:E.
  - apply (compile_aligned m (subtrees_escaped n Hesc m Hm) bare nested c E).
  - exact (compile_failure m bare nested e E).
Qed.

Lemma placeholders_match_parameters_witness :
  match Expressions.compile false false
          (Expressions.eq Samples.fielda (Expressions.Literal (VInt 1))) with
  | Ok c =>
      Expressions.count_placeholders (Expressions.text c) =
        List.length (Expressions.params c)
  | Raise e => e = Expressions.BuildError "CASE without WHEN or ELSE"
  end.
Proof.
  apply (placeholders_match_parameters
           (Expressions.case_node Samples.case) eq_refl).
  cbn. right. left. reflexivity.
Defined.

(** C1 as stated fails on an expression over a safe literal that holds a
    placeholder marker: the literal is rendered as it is and brings no
    parameter, so the text has one placeholder and no parameter, at the
    root and at the literal. *)
Lemma safe_literal_breaks_alignment :
  exists c,
    Expressions.compiled_of
      (Expressions.Expression Samples.fielda "=" (Expressions.Safe "%s")
                              None false) = Ok c /\
    Expressions.text c = "foo.bar = %s" /\
    Expressions.params c = [] /\
    Expressions.count_placeholders (Expressions.text c) = 1%nat /\
    List.length (Expressions.params c) = 0%nat /\
    Expressions.py_format (Expressions.text c) (Expressions.params c) =
      Raise (TypeError "not enough arguments for format string").
Proof.
  eexists. repeat split.
Qed.

(** * Further properties *)

(** ** The position of an enumerated value *)

Lemma index_from_found (x : pyval) (l : list pyval) :
  forall i j, EnumIndex.index_from x l i = Some j ->
    (i <= j)%nat /\
    (exists m, nth_error l (j - i) = Some m /\ py_eq m x = true) /\
    (forall k m', (k < j - i)%nat -> nth_error l k = Some m' ->
                  py_eq m' x = false).
Proof.
  induction l as [|item rest IH]; intros i j H; simpl in H; [discriminate|].
  destruct (py_eq item x) eqn:E.
  - injection H as <-. split; [lia|]. rewrite Nat.sub_diag. split.
    + exists item. now split.
    + intros k m' Hk. lia.
  - destruct (IH (S i) j H) as [Hle [[m [Hm Heq]] Hfirst]].
    split; [lia|]. replace (j - i)%nat with (S (j - S i)) by lia. split.
    + exists m. now split.
    + intros [|k] m' Hk Hnth; simpl in Hnth.
      * injection Hnth as <-. exact E.
      * apply (Hfirst k m'); [lia | exact Hnth].
Qed.

Lemma index_from_member (x : pyval) (l : list pyval) :
  py_in x l = true -> forall i, exists j, EnumIndex.index_from x l i = Some j.
Proof.
  unfold py_in. induction l as [|item rest IH]; simpl; [discriminate|].
  intros H i. destruct (py_eq item x); [eexists; reflexivity|].
  simpl in H. exact (IH H (S i)).
Qed.

(** X1: once a member of [types] has been set, [index_of()] returns the
    position of the first item of [types] equal to it; and an argument that
    is falsy (0, the empty string, False) is not looked up: the position of
    the held value is returned for it as well. *)
Theorem oneof_index_of_held (self : OneOf.t) (v : pyval) :
  py_in v (OneOf.types self) = true ->
  exists i : nat,
    EnumIndex.index_of (snd (OneOf.__call__ self (Val v))) VNone = Ok i /\
    (exists m, nth_error (OneOf.types self) i = Some m /\ py_eq m v = true) /\
    (forall j m', (j < i)%nat -> nth_error (OneOf.types self) j = Some m' ->
                  py_eq m' v = false) /\
    (forall type, Networking.truthy type = false ->
       EnumIndex.index_of (snd (OneOf.__call__ self (Val v))) type = Ok i).
Proof.
  intros Hin.
  destruct (index_from_member v _ Hin O) as [i Hi].
  destruct (index_from_found v _ O i Hi) as [_ [Hm Hfirst]].
  rewrite Nat.sub_0_r in Hm, Hfirst.
  assert (Hcall : OneOf.__call__ self (Val v) =
                  (Ok (Val v), OneOf.set_value self (Val v))).
  { unfold OneOf.__call__. rewrite Hin, orb_true_r. reflexivity. }
  rewrite Hcall. cbn [snd].
  assert (Hidx : forall type, Networking.truthy type = false ->
            EnumIndex.index_of (OneOf.set_value self (Val v)) type = Ok i).
  { intros type Hty. unfold EnumIndex.index_of. rewrite Hty. cbn.
    now rewrite Hi. }
  exists i. split; [now apply Hidx|]. split; [exact Hm|]. split; assumption.
Qed.

Lemma oneof_index_of_held_witness :
  exists i : nat,
    EnumIndex.index_of
      (snd (OneOf.__call__ Samples.pets (Val (VStr "dog")))) VNone = Ok i /\
    i = 1%nat.
Proof.
  destruct (oneof_index_of_held Samples.pets (VStr "dog") eq_refl)
    as [i [Hi _]].
  exists i. split; [exact Hi|].
  cbn in Hi. injection Hi as <-. reflexivity.
Defined.

(** ** The depth of what an array holds *)

Lemma mapM_length {A B : Type} (f : A -> result B) (l : list A) :
  forall ys, mapM f l = Ok ys -> List.length ys = List.length l.
Proof.
  induction l as [|x l IH]; intros ys E; simpl in E.
  - injection E as <-. reflexivity.
  - destruct (f x) as [y|e]; [|discriminate].
    destruct (mapM f l) as [ys'|e]; [|discriminate].
    simpl in E. injection E as <-. simpl. now rewrite (IH ys' eq_refl).
Qed.

Lemma mapM_nesting (f : pyval -> result pyval) (l : list pyval) :
  Forall (fun x => forall y, f x = Ok y ->
                   ArrayDepth.nesting y = ArrayDepth.nesting x) l ->
  forall ys, mapM f l = Ok ys ->
    map ArrayDepth.nesting ys = map ArrayDepth.nesting l.
Proof.
  induction 1 as [|x l Hx _ IH]; intros ys E; simpl in E.
  - injection E as <-. reflexivity.
  - destruct (f x) as [y|e] eqn:Ey; [|discriminate].
    destruct (mapM f l) as [ys'|e]; [|discriminate].
    simpl in E. injection E as <-. simpl.
    now rewrite (Hx y eq_refl), (IH ys' eq_refl).
Qed.

Lemma nesting_finish (self : Array.t) (d : Z) (ys : list pyval) :
  ArrayDepth.nesting (finish self d ys) = ArrayDepth.depth ys.
Proof. unfold finish, Array._add_arr_type. destruct (d >? 1); reflexivity. Qed.

(** A cast keeps the shape of a value: as many items, nested as deep. *)
Lemma cast_shape (self : Array.t) :
  scalar_results (Array.type self) ->
  forall (v : pyval) (d : Z) (items : list pyval) (a : pyval),
    py_iter v = Some items ->
    Array._cast self v d = Ok a ->
    exists ys, a = finish self d ys /\
               map ArrayDepth.nesting ys = map ArrayDepth.nesting items.
Proof.
  intros Hscalar.
  set (goal := fun (v : pyval) =>
    forall (d : Z) (items : list pyval) (a : pyval),
      py_iter v = Some items ->
      Array._cast self v d = Ok a ->
      exists ys, a = finish self d ys /\
                 map ArrayDepth.nesting ys = map ArrayDepth.nesting items).
  assert (top : forall (v : pyval) (items : list pyval),
    py_iter v = Some items ->
    Forall (fun x => isinstance_list x = true -> goal x) items -> goal v).
  { intros v items Hiter IH d items' a Hiter' E.
    rewrite Hiter in Hiter'. injection Hiter' as <-.
    rewrite (cast_iter self v d items Hiter) in E.
    destruct (Array.depth_exceeded self d); [discriminate|].
    destruct (mapM (cast_item self (d + 1)) items) as [ys|e] eqn:Eys;
      [|discriminate].
    simpl in E. injection E as <-. exists ys. split; [reflexivity|].
    apply (mapM_nesting (cast_item self (d + 1))); [|exact Eys].
    eapply Forall_impl; [|exact IH].
    intros x Hx y Ey. cbv beta in Hx. unfold cast_item in Ey.
    destruct (isinstance_list x) eqn:Hx'; simpl in Ey.
    - destruct (list_iterable x Hx') as [xs Hxs].
      destruct (Hx eq_refl (d + 1) xs y Hxs Ey) as [ys' [-> Hmap]].
      rewrite nesting_finish, (nesting_list x xs Hx' Hxs).
      unfold ArrayDepth.depth. now rewrite Hmap.
    - rewrite (nesting_scalar x Hx').
      apply nesting_scalar. exact (Hscalar x y Hx' Ey). }
  assert (all : forall v, goal v); [|exact all].
  induction v as [| b | z | s | l IH | l IH | t l IH] using pyval_nested_ind.
  1-3: intros d items a Hiter; discriminate.
  - apply (top (VStr s) (chars s) eq_refl).
    eapply Forall_impl; [|apply chars_not_lists].
    intros x Hx Hx'. rewrite Hx in Hx'. discriminate.
  - apply (top (VTuple l) l eq_refl).
    eapply Forall_impl; [|exact IH]. auto.
  - apply (top (VList l) l eq_refl).
    eapply Forall_impl; [|exact IH]. auto.
  - apply (top (VArr t l) l eq_refl).
    eapply Forall_impl; [|exact IH]. auto.
Qed.

Lemma cast_ok_within (self : Array.t) (n : Z) :
  Array.dimensions self = Some n -> n <> 0 ->
  forall (v : pyval) (d : Z) (items : list pyval) (a : pyval),
    py_iter v = Some items ->
    Array._cast self v d = Ok a ->
    d + Z.of_nat (ArrayDepth.depth items) - 1 <= n.
Proof.
  intros Hn Hnz v d items a Hiter E.
  destruct (Z_lt_le_dec n (d + Z.of_nat (ArrayDepth.depth items) - 1))
    as [Hdeep | Hle]; [|exact Hle].
  destruct (cast_too_deep_fails self n Hn Hnz v d items Hiter Hdeep) as [e He].
  rewrite He in E. discriminate.
Qed.

Lemma depth_app (l m : list pyval) :
  ArrayDepth.depth (l ++ m) =
    Nat.max (ArrayDepth.depth l) (ArrayDepth.depth m).
Proof.
  unfold ArrayDepth.depth. rewrite map_app, list_max_app. lia.
Qed.

Lemma depth_cons (x : pyval) (l : list pyval) :
  ArrayDepth.depth (x :: l) =
    Nat.max (S (ArrayDepth.nesting x)) (ArrayDepth.depth l).
Proof. unfold ArrayDepth.depth. simpl. lia. Qed.

Lemma depth_list_insert (i : Z) (y : pyval) (l : list pyval) :
  ArrayDepth.depth (Array.list_insert i y l) =
    Nat.max (ArrayDepth.depth l) (S (ArrayDepth.nesting y)).
Proof.
  unfold Array.list_insert.
  set (k := Z.to_nat _).
  rewrite depth_app, depth_cons.
  rewrite <- (firstn_skipn k l) at 3. rewrite depth_app. lia.
Qed.

Lemma select_cast_nesting (self : Array.t) (n : Z) (v x : pyval) :
  Array.dimensions self = Some n -> n <> 0 ->
  scalar_results (Array.type self) ->
  Array._select_cast self v 2 = Ok x ->
  Z.of_nat (S (ArrayDepth.nesting x)) <= Z.max 1 n.
Proof.
  intros Hn Hnz Hscalar E. unfold Array._select_cast in E.
  destruct (isinstance_list_tuple v) eqn:Hv; simpl in E.
  - assert (Hiter : exists items, py_iter v = Some items).
    { destruct v; try discriminate; eexists; reflexivity. }
    destruct Hiter as [items Hiter].
    pose proof (cast_ok_within self n Hn Hnz v 2 items x Hiter E) as Hle.
    destruct (cast_shape self Hscalar v 2 items x Hiter E) as [ys [-> Hmap]].
    rewrite nesting_finish. unfold ArrayDepth.depth in *. rewrite Hmap. lia.
  - assert (Hx : isinstance_list v = false) by (destruct v; easy).
    rewrite (nesting_scalar x (Hscalar v x Hx E)). lia.
Qed.

Lemma made_within (self : Array.t) (n : Z) :
  1 <= n -> within_bound (Array.value self) n ->
  within_bound (Array.value (Array._make_list self)) n.
Proof.
  intros Hpos H. unfold Array._make_list.
  destruct (slot_is_null (Array.value self)); [|exact H].
  simpl. lia.
Qed.

Lemma on_list_ok (self self' : Array.t) (meth : string)
      (f : list pyval -> result (list pyval)) :
  Array.on_list self meth f = (Ok tt, self') ->
  exists l l',
    f l = Ok l' /\
    ((Array.value self = Val (VList l) /\ Array.value self' = Val (VList l'))
     \/ (exists ty, Array.value self = Val (VArr ty l) /\
                    Array.value self' = Val (VArr ty l'))).
Proof.
  unfold Array.on_list. intros H.
  destruct (Array.value self) as [|[| | | | |l|ty l]] eqn:Hv; try discriminate.
  - destruct (f l) as [l'|e] eqn:Ef; [|discriminate].
    injection H as <-. exists l, l'. split; [exact Ef|]. left. now split.
  - destruct (f l) as [l'|e] eqn:Ef; [|discriminate].
    injection H as <-. exists l, l'. split; [exact Ef|]. right.
    exists ty. now split.
Qed.

(** X2: with a bound of at least one level and an element field that
    returns no lists for values that are not lists, the bound is an
    invariant of the array's value under [__call__], [append] and [insert],
    and under [extend] with a list or a tuple: whenever one of them
    succeeds, what the field then holds has at most [dimensions] levels. *)
Theorem array_depth_invariant (self : Array.t) (n : Z) :
  Array.dimensions self = Some n -> 1 <= n ->
  scalar_results (Array.type self) ->
  (forall v r self',
      Array.__call__ self (Val v) = (Ok r, self') ->
      within_bound (Array.value self') n) /\
  (within_bound (Array.value self) n ->
   (forall v self',
       Array.append self v = (Ok tt, self') ->
       within_bound (Array.value self') n) /\
   (forall i v self',
       Array.insert self i v = (Ok tt, self') ->
       within_bound (Array.value self') n) /\
   (forall v self',
       isinstance_list_tuple v = true ->
       Array.extend self v = (Ok tt, self') ->
       within_bound (Array.value self') n)).
Proof.
  intros Hn Hpos Hscalar.
  assert (Hnz : n <> 0) by lia.
  assert (bound_of : forall s l l', within_bound (Array.value s) n ->
            forall s', Z.of_nat (ArrayDepth.depth l') <= n ->
            (Array.value s = Val (VList l) /\ Array.value s' = Val (VList l'))
            \/ (exists ty, Array.value s = Val (VArr ty l) /\
                           Array.value s' = Val (VArr ty l')) ->
            within_bound (Array.value s') n).
  { intros s l l' _ s' Hle [[_ ->] | [ty [_ ->]]]; exact Hle. }
  assert (held_bound : forall s l, within_bound (Array.value s) n ->
            (Array.value s = Val (VList l)
             \/ exists ty, Array.value s = Val (VArr ty l)) ->
            Z.of_nat (ArrayDepth.depth l) <= n).
  { intros s l Hw [E | [ty E]]; rewrite E in Hw; exact Hw. }
  split.
  - intros v r self' E. unfold Array.__call__ in E.
    destruct (py_iter v) as [items|] eqn:Hiter.
    + assert (Hv : v <> VNone) by (intros ->; discriminate).
      destruct (Array._cast self v 1) as [a|e] eqn:Ea.
      * pose proof (cast_ok_within self n Hn Hnz v 1 items a Hiter Ea) as Hle.
        destruct (cast_shape self Hscalar v 1 items a Hiter Ea)
          as [ys [-> Hmap]].
        assert (Hs : Array.value self' = Val (finish self 1 ys)).
        { destruct v; try congruence; injection E as _ <-; reflexivity. }
        rewrite Hs. unfold finish, Array._add_arr_type. simpl.
        unfold ArrayDepth.depth in *. rewrite Hmap. lia.
      * destruct v; try congruence; discriminate.
    + destruct v; try discriminate.
      * injection E as _ <-. exact I.
      * rewrite (cast_not_iterable self (VBool b) 1 eq_refl) in E.
        destruct (Array.depth_exceeded self 1); discriminate.
      * rewrite (cast_not_iterable self (VInt z) 1 eq_refl) in E.
        destruct (Array.depth_exceeded self 1); discriminate.
  - intros Hw.
    pose proof (made_within self n Hpos Hw) as Hmade.
    destruct (make_list_config self) as [Hty Hdim].
    repeat split.
    + intros v self' E. unfold Array.append in E.
      destruct (on_list_ok _ _ _ _ E) as [l [l' [Ef Hheld]]].
      rewrite select_cast_made in Ef.
      destruct (Array._select_cast self v 2) as [x|e] eqn:Ex; [|discriminate].
      simpl in Ef. injection Ef as <-.
      pose proof (select_cast_nesting self n v x Hn Hnz Hscalar Ex) as Hx.
      apply (bound_of _ l (l ++ [x])%list Hmade); [|exact Hheld].
      assert (Hl : Z.of_nat (ArrayDepth.depth l) <= n).
      { apply (held_bound _ l Hmade).
        destruct Hheld as [[E1 _] | [ty [E1 _]]]; eauto. }
      rewrite depth_app, depth_cons.
      change (ArrayDepth.depth []) with 1%nat. lia.
    + intros i v self' E. unfold Array.insert in E.
      destruct (on_list_ok _ _ _ _ E) as [l [l' [Ef Hheld]]].
      rewrite select_cast_made in Ef.
      destruct (Array._select_cast self v 2) as [x|e] eqn:Ex; [|discriminate].
      simpl in Ef. injection Ef as <-.
      pose proof (select_cast_nesting self n v x Hn Hnz Hscalar Ex) as Hx.
      apply (bound_of _ l (Array.list_insert i x l) Hmade); [|exact Hheld].
      assert (Hl : Z.of_nat (ArrayDepth.depth l) <= n).
      { apply (held_bound _ l Hmade).
        destruct Hheld as [[E1 _] | [ty [E1 _]]]; eauto. }
      rewrite depth_list_insert. lia.
    + intros v self' Hv E. unfold Array.extend in E.
      destruct (on_list_ok _ _ _ _ E) as [l [l' [Ef Hheld]]].
      rewrite select_cast_made in Ef.
      unfold Array._select_cast in Ef. rewrite Hv in Ef. simpl negb in Ef.
      cbv iota in Ef.
      assert (Hiter : exists items, py_iter v = Some items).
      { destruct v; try discriminate; eexists; reflexivity. }
      destruct Hiter as [items Hiter].
      destruct (Array._cast self v 1) as [a|e] eqn:Ea; [|discriminate].
      pose proof (cast_ok_within self n Hn Hnz v 1 items a Hiter Ea) as Hle.
      destruct (cast_shape self Hscalar v 1 items a Hiter Ea)
        as [ys [-> Hmap]].
      simpl in Ef. injection Ef as <-.
      apply (bound_of _ l (l ++ ys)%list Hmade); [|exact Hheld].
      assert (Hl : Z.of_nat (ArrayDepth.depth l) <= n).
      { apply (held_bound _ l Hmade).
        destruct Hheld as [[E1 _] | [ty [E1 _]]]; eauto. }
      rewrite depth_app.
      assert (Hys : ArrayDepth.depth ys = ArrayDepth.depth items).
      { unfold ArrayDepth.depth. now rewrite Hmap. }
      rewrite Hys. lia.
Qed.

Lemma strict_int_scalar_results : scalar_results ArrayDepth.strict_int.
Proof.
  intros x y Hx E. destruct x; simpl in E; try discriminate.
  injection E as <-. reflexivity.
Qed.

Lemma plain_scalar_results : scalar_results ArrayDepth.plain.
Proof. intros x y Hx E. simpl in E. injection E as <-. exact Hx. Qed.

Lemma array_depth_invariant_witness :
  within_bound
    (Array.value
       (snd (Array.append
               (ArrayDepth.new_array ArrayDepth.strict_int (Some 2))
               (VList [VInt 1; VInt 2])))) 2.
Proof.
  destruct (array_depth_invariant
              (ArrayDepth.new_array ArrayDepth.strict_int (Some 2)) 2
              eq_refl ltac:(lia) strict_int_scalar_results) as [_ H].
  destruct (H I) as [Happend _].
  apply (Happend (VList [VInt 1; VInt 2])). reflexivity.
Defined.

(** ** Item assignment, removal and lookup *)

Lemma list_position_lt (index : Z) (l : list pyval) (k : nat) :
  ArrayOps.list_position index l = Some k -> (k < List.length l)%nat.
Proof.
  unfold ArrayOps.list_position. intros H.
  destruct (index <? 0) eqn:Hneg;
    match type of H with
    | (if ?c then _ else _) = _ => destruct c eqn:Hc; [|discriminate]
    end; injection H as <-;
    apply andb_prop in Hc; destruct Hc as [H0 H1];
    apply Z.leb_le in H0; apply Z.ltb_lt in H1;
    apply Nat2Z.inj_lt; rewrite Z2Nat.id by lia; lia.
Qed.

Lemma depth_replace_at (y : pyval) (l : list pyval) :
  forall k, (k < List.length l)%nat ->
    (S (ArrayDepth.nesting y) <=
       ArrayDepth.depth (ArrayOps.replace_at k y l))%nat.
Proof.
  induction l as [|x l IH]; intros k Hk; simpl in Hk; [lia|].
  destruct k as [|k]; simpl ArrayOps.replace_at; rewrite depth_cons.
  - lia.
  - specialize (IH k ltac:(lia)). lia.
Qed.

Lemma make_list_held (self : Array.t) (v : pyval) :
  Array.value self = Val v -> v <> VNone -> Array._make_list self = self.
Proof.
  intros H Hv. unfold Array._make_list. rewrite H.
  destruct v; try reflexivity. congruence.
Qed.

(** X3: item assignment casts its value from dimension 1, whatever the
    level of the position assigned to.  So a list or a tuple that the array
    would take as its whole value is also taken as one item, and after
    assigning a value of [dimensions] levels the array holds more levels
    than [dimensions] allows. *)
Theorem setitem_exceeds_dimensions (self : Array.t) (n : Z) (ty : string)
        (held : list pyval) (index : Z) (k : nat) (value : pyval)
        (items : list pyval) :
  Array.dimensions self = Some n -> 1 <= n ->
  scalar_results (Array.type self) ->
  Array.value self = Val (VArr ty held) ->
  ArrayOps.list_position index held = Some k ->
  isinstance_list_tuple value = true ->
  py_iter value = Some items ->
  ArrayDepth.all_accepted (Array.type self) items ->
  Z.of_nat (ArrayDepth.depth items) = n ->
  exists self',
    ArrayOps.__setitem__ self index value = (Ok tt, self') /\
    ~ within_bound (Array.value self') n.
Proof.
  intros Hn Hpos Hscalar Hheld Hk Hv Hiter Hacc Hdepth.
  assert (Hfits : fits self 1 (ArrayDepth.depth items)).
  { apply (fits_within self n); [exact Hn | lia]. }
  destruct (cast_accepts_shape self value items Hiter Hfits Hacc) as [ys Eys].
  destruct (cast_shape self Hscalar value 1 items _ Hiter Eys)
    as [ys' [Hfin Hmap]].
  unfold finish, Array._add_arr_type in Hfin. simpl in Hfin.
  injection Hfin as <-.
  unfold ArrayOps.__setitem__.
  rewrite (make_list_held self _ Hheld) by discriminate.
  unfold Array._select_cast. rewrite Hv. simpl negb. cbv iota.
  rewrite Eys, Hheld, Hk.
  eexists. split; [reflexivity|].
  intros Hle.
  change (Z.of_nat (ArrayDepth.depth
            (ArrayOps.replace_at k (VArr (Array._get_type_name self) ys)
                                 held)) <= n) in Hle.
  pose proof (depth_replace_at (VArr (Array._get_type_name self) ys) held k
                (list_position_lt index held k Hk)) as Hge.
  simpl ArrayDepth.nesting in Hge.
  unfold ArrayDepth.depth in Hdepth. rewrite <- Hmap in Hdepth. lia.
Qed.

Lemma setitem_exceeds_dimensions_witness :
  exists self',
    ArrayOps.__setitem__
      (Array.set_value (ArrayDepth.new_array ArrayDepth.strict_int (Some 1))
                       (Val (VArr "integer" [VInt 0])))
      0 (VList [VInt 5]) = (Ok tt, self') /\
    ~ within_bound (Array.value self') 1.
Proof.
  apply (setitem_exceeds_dimensions
           (Array.set_value
              (ArrayDepth.new_array ArrayDepth.strict_int (Some 1))
              (Val (VArr "integer" [VInt 0])))
           1 "integer" [VInt 0] 0 0%nat (VList [VInt 5]) [VInt 5]).
  - reflexivity.
  - lia.
  - exact strict_int_scalar_results.
  - reflexivity.
  - reflexivity.
  - reflexivity.
  - reflexivity.
  - repeat constructor; eexists; reflexivity.
  - reflexivity.
Defined.

(** X4: [append] and [insert] make the list before they cast.  On a field
    that is unset or NULL, a value that the cast refuses still leaves the
    field changed: the exception of the cast comes out, and the field now
    holds an empty array of its element type. *)
Theorem failed_append_leaves_empty_array (self : Array.t) (v : pyval)
        (e : exn) :
  slot_is_null (Array.value self) = true ->
  Array._select_cast self v 2 = Raise e ->
  forall op, op = Array.append self v \/ (exists i, op = Array.insert self i v) ->
    fst op = Raise e /\
    Array.value (snd op) = Val (VArr (Array._get_type_name self) []) /\
    Array.value (snd op) <> Array.value self.
Proof.
  intros Hnull Hcast op Hop.
  assert (Hmade : Array._make_list self =
                  Array.set_value self (Val (Array._add_arr_type self []))).
  { unfold Array._make_list. now rewrite Hnull. }
  assert (Hne : Val (VArr (Array._get_type_name self) []) <> Array.value self).
  { intros E. rewrite <- E in Hnull. discriminate. }
  destruct Hop as [-> | [i ->]].
  - unfold Array.append.
    rewrite (on_list_held _ (Array._get_type_name self) []);
      [|rewrite Hmade; reflexivity].
    rewrite select_cast_made, Hcast. simpl. rewrite Hmade. simpl.
    repeat split. exact Hne.
  - unfold Array.insert.
    rewrite (on_list_held _ (Array._get_type_name self) []);
      [|rewrite Hmade; reflexivity].
    rewrite select_cast_made, Hcast. simpl. rewrite Hmade. simpl.
    repeat split. exact Hne.
Qed.

Lemma failed_append_leaves_empty_array_witness :
  fst (Array.append (ArrayDepth.new_array ArrayDepth.strict_int (Some 1))
                    (VStr "x")) =
    Raise (TypeError "an integer is required") /\
  Array.value
    (snd (Array.append (ArrayDepth.new_array ArrayDepth.strict_int (Some 1))
                       (VStr "x"))) = Val (VArr "integer" []).
Proof.
  destruct (failed_append_leaves_empty_array
              (ArrayDepth.new_array ArrayDepth.strict_int (Some 1))
              (VStr "x") (TypeError "an integer is required")
              eq_refl eq_refl _ (or_introl eq_refl)) as [H1 [H2 _]].
  split; [exact H1 | exact H2].
Defined.

Lemma insert_at_length (y : pyval) (l : list pyval) (k : nat) :
  List.length (firstn k l ++ y :: skipn k l) = S (List.length l).
Proof.
  rewrite length_app. simpl. rewrite Nat.add_succ_r.
  rewrite <- length_app, firstn_skipn. reflexivity.
Qed.

Lemma nth_insert_at (y : pyval) (l : list pyval) :
  forall k, (k <= List.length l)%nat ->
    nth_error (firstn k l ++ y :: skipn k l) k = Some y.
Proof.
  induction l as [|x l IH]; intros [|k] Hk; simpl in *; try reflexivity.
  - lia.
  - apply IH. lia.
Qed.

Lemma remove_insert_at (y : pyval) (l : list pyval) :
  forall k, (k <= List.length l)%nat ->
    ArrayOps.remove_at k (firstn k l ++ y :: skipn k l) = l.
Proof.
  induction l as [|x l IH]; intros [|k] Hk; simpl in *; try reflexivity.
  - lia.
  - f_equal. apply IH. lia.
Qed.

Lemma list_position_inside (index : Z) (l : list pyval) :
  0 <= index < Z.of_nat (List.length l) ->
  ArrayOps.list_position index l = Some (Z.to_nat index).
Proof.
  intros H. unfold ArrayOps.list_position.
  destruct (index <? 0) eqn:Hneg; [apply Z.ltb_lt in Hneg; lia|].
  destruct (0 <=? index) eqn:H0; [|apply Z.leb_gt in H0; lia].
  destruct (index <? Z.of_nat (List.length l)) eqn:H1;
    [reflexivity | apply Z.ltb_ge in H1; lia].
Qed.

Lemma list_position_beyond (index : Z) (l : list pyval) :
  Z.of_nat (List.length l) <= index ->
  ArrayOps.list_position index l = None.
Proof.
  intros H. unfold ArrayOps.list_position.
  destruct (index <? 0) eqn:Hneg; [apply Z.ltb_lt in Hneg; lia|].
  destruct (index <? Z.of_nat (List.length l)) eqn:H1;
    [apply Z.ltb_lt in H1; lia | now rewrite andb_false_r].
Qed.

Lemma list_insert_length (i : Z) (y : pyval) (l : list pyval) :
  List.length (Array.list_insert i y l) = S (List.length l).
Proof. unfold Array.list_insert. apply insert_at_length. Qed.

Lemma list_insert_inside (i : Z) (y : pyval) (l : list pyval) :
  0 <= i <= Z.of_nat (List.length l) ->
  Array.list_insert i y l =
    (firstn (Z.to_nat i) l ++ y :: skipn (Z.to_nat i) l)%list.
Proof.
  intros H. unfold Array.list_insert.
  destruct (i <? 0) eqn:Hneg; [apply Z.ltb_lt in Hneg; lia|].
  now rewrite Z.min_l by lia.
Qed.

Lemma pop_held (self : Array.t) (ty : string) (l : list pyval) (index : Z) :
  Array.value self = Val (VArr ty l) -> l <> [] ->
  ArrayOps.pop self index =
    match ArrayOps.list_position index l with
    | Some k =>
        match nth_error l k with
        | Some x =>
            (Ok x, Array.set_value self
                     (Val (VArr ty (ArrayOps.remove_at k l))))
        | None => (Raise (ArrayOps.IndexError "pop index out of range"), self)
        end
    | None => (Raise (ArrayOps.IndexError "pop index out of range"), self)
    end.
Proof.
  intros H Hl. unfold ArrayOps.pop. rewrite H.
  destruct l; [congruence | reflexivity].
Qed.

(** X5: [insert] followed by [pop] at the same index.  For an index from 0
    to the length of the array, [pop(i)] after [insert(i, v)] returns the
    cast value and leaves the items that were there before.  For an index
    past the end, [insert] still succeeds, putting the value last, and
    [pop] at that index raises IndexError and removes nothing. *)
Theorem insert_then_pop (self : Array.t) (ty : string) (held : list pyval)
        (i : Z) (v y : pyval) :
  Array.value (Array._make_list self) = Val (VArr ty held) ->
  Array._select_cast self v 2 = Ok y ->
  0 <= i ->
  exists self1,
    Array.insert self i v = (Ok tt, self1) /\
    (i <= Z.of_nat (List.length held) ->
       ArrayOps.pop self1 i =
         (Ok y, Array.set_value self1 (Val (VArr ty held)))) /\
    (Z.of_nat (List.length held) < i ->
       Array.value self1 = Val (VArr ty (held ++ [y])%list) /\
       ArrayOps.pop self1 i =
         (Raise (ArrayOps.IndexError "pop index out of range"), self1)).
Proof.
  intros Hheld Hy Hi.
  unfold Array.insert.
  rewrite (on_list_held _ ty held _ _ Hheld), select_cast_made, Hy.
  cbn [bind].
  set (self1 := Array.set_value (Array._make_list self)
                  (Val (VArr ty (Array.list_insert i y held)))).
  exists self1. split; [reflexivity|].
  assert (Hne : Array.list_insert i y held <> []).
  { intros E. pose proof (list_insert_length i y held) as Hl.
    rewrite E in Hl. discriminate. }
  split.
  - intros Hle.
    rewrite (pop_held self1 ty (Array.list_insert i y held) i eq_refl Hne).
    rewrite list_position_inside by (rewrite list_insert_length; lia).
    rewrite list_insert_inside by lia.
    rewrite nth_insert_at, remove_insert_at by lia. reflexivity.
  - intros Hgt.
    assert (Hend : Array.list_insert i y held = (held ++ [y])%list).
    { unfold Array.list_insert.
      destruct (i <? 0) eqn:Hneg; [apply Z.ltb_lt in Hneg; lia|].
      rewrite Z.min_r, Nat2Z.id by lia.
      now rewrite firstn_all, skipn_all. }
    split; [simpl; now rewrite Hend|].
    rewrite (pop_held self1 ty (Array.list_insert i y held) i eq_refl Hne).
    rewrite list_position_beyond by (rewrite list_insert_length; lia).
    reflexivity.
Qed.

Lemma insert_then_pop_witness :
  exists self1,
    Array.insert Samples.one_dimension 0 (VInt 7) = (Ok tt, self1) /\
    ArrayOps.pop self1 0 =
      (Ok (VInt 7), Array.set_value self1 (Val (VArr "text" []))).
Proof.
  destruct (insert_then_pop Samples.one_dimension "text" [] 0 (VInt 7)
              (VInt 7) eq_refl eq_refl ltac:(lia)) as [self1 [H1 [H2 _]]].
  exists self1. split; [exact H1 | apply H2; simpl; lia].
Defined.

Lemma replace_at_length (y : pyval) (l : list pyval) :
  forall k, List.length (ArrayOps.replace_at k y l) = List.length l.
Proof.
  induction l as [|x l IH]; intros [|k]; simpl; try reflexivity.
  now rewrite IH.
Qed.

Lemma replace_at_same (y : pyval) (l : list pyval) :
  forall k, (k < List.length l)%nat ->
    nth_error (ArrayOps.replace_at k y l) k = Some y.
Proof.
  induction l as [|x l IH]; intros [|k] Hk; simpl in *; try lia.
  - reflexivity.
  - apply IH. lia.
Qed.

Lemma replace_at_other (y : pyval) (l : list pyval) :
  forall k j, j <> k ->
    nth_error (ArrayOps.replace_at k y l) j = nth_error l j.
Proof.
  induction l as [|x l IH]; intros [|k] [|j] Hj; simpl; try reflexivity.
  - congruence.
  - apply IH. congruence.
Qed.

Lemma list_position_length (index : Z) (l m : list pyval) :
  List.length l = List.length m ->
  ArrayOps.list_position index l = ArrayOps.list_position index m.
Proof. intros H. unfold ArrayOps.list_position. now rewrite H. Qed.

(** X6: after [array[index] = v] succeeds, [array[index]] is the cast
    value, the array is as long as before, and every other position, by
    whatever index it is named, reads as before. *)
Theorem setitem_then_getitem (self : Array.t) (ty : string)
        (held : list pyval) (index : Z) (k : nat) (v y : pyval) :
  Array.value self = Val (VArr ty held) ->
  ArrayOps.list_position index held = Some k ->
  Array._select_cast self v 1 = Ok y ->
  exists self',
    ArrayOps.__setitem__ self index v = (Ok tt, self') /\
    ArrayOps.__getitem__ self' index = Ok y /\
    (exists items, Array.value self' = Val (VArr ty items) /\
                   List.length items = List.length held) /\
    (forall j kj, ArrayOps.list_position j held = Some kj -> kj <> k ->
                  ArrayOps.__getitem__ self' j = ArrayOps.__getitem__ self j).
Proof.
  intros Hheld Hk Hy.
  unfold ArrayOps.__setitem__.
  rewrite (make_list_held self _ Hheld) by discriminate.
  rewrite Hy, Hheld, Hk.
  eexists. split; [reflexivity|].
  pose proof (replace_at_length y held k) as Hlen.
  pose proof (list_position_lt index held k Hk) as Hlt.
  split; [|split].
  - unfold ArrayOps.__getitem__. cbn [Array.value Array.set_value].
    rewrite (list_position_length index _ held Hlen), Hk.
    now rewrite (replace_at_same y held k Hlt).
  - eexists. split; [reflexivity | exact Hlen].
  - intros j kj Hj Hne.
    unfold ArrayOps.__getitem__. cbn [Array.value Array.set_value].
    rewrite Hheld, (list_position_length j _ held Hlen), Hj.
    now rewrite (replace_at_other y held k kj Hne).
Qed.

Lemma setitem_then_getitem_witness :
  exists self',
    ArrayOps.__setitem__
      (Array.set_value Samples.one_dimension
                       (Val (VArr "text" [VInt 1; VInt 2; VInt 3])))
      (-1) (VInt 9) = (Ok tt, self') /\
    ArrayOps.__getitem__ self' (-1) = Ok (VInt 9) /\
    ArrayOps.__getitem__ self' 2 = Ok (VInt 9).
Proof.
  destruct (setitem_then_getitem
              (Array.set_value Samples.one_dimension
                 (Val (VArr "text" [VInt 1; VInt 2; VInt 3])))
              "text" [VInt 1; VInt 2; VInt 3] (-1) 2%nat (VInt 9) (VInt 9)
              eq_refl eq_refl eq_refl) as [self' [H1 [H2 _]]].
  exists self'. split; [exact H1|]. split; [exact H2|].
  injection H1 as <-. reflexivity.
Defined.

(** X7: a value that is not a list or a tuple and that the element field
    accepts is found in the array after it was appended: [v in array] is
    True, and the appended item is the last one. *)
Theorem append_then_contains (self : Array.t) (ty : string)
        (held : list pyval) (v y : pyval) :
  Array.value (Array._make_list self) = Val (VArr ty held) ->
  isinstance_list_tuple v = false ->
  call (Array.type self) v = Ok y ->
  exists self',
    Array.append self v = (Ok tt, self') /\
    ArrayOps.__contains__ self' v = Ok true /\
    ArrayOps.__getitem__ self' (-1) = Ok y.
Proof.
  intros Hheld Hv Hy.
  assert (Hcast : forall d, Array._select_cast self v d = Ok y).
  { intros d. unfold Array._select_cast. now rewrite Hv. }
  unfold Array.append.
  rewrite (on_list_held _ ty held _ _ Hheld), select_cast_made, Hcast.
  cbn [bind].
  set (self' := Array.set_value (Array._make_list self)
                  (Val (VArr ty (held ++ [y])%list))).
  exists self'. split; [reflexivity|]. split.
  - unfold ArrayOps.__contains__.
    replace (Array._select_cast self' v 1) with (Ok y).
    + cbn [Array.value Array.set_value self']. f_equal.
      unfold py_in. rewrite existsb_app. simpl.
      rewrite py_eq_refl. now rewrite orb_true_r.
    + symmetry. unfold Array._select_cast. rewrite Hv. simpl.
      unfold self'. cbn [Array.type Array.set_value].
      destruct (make_list_config self) as [-> _]. exact Hy.
  - unfold ArrayOps.__getitem__. cbn [Array.value Array.set_value self'].
    assert (Hpos : ArrayOps.list_position (-1) (held ++ [y]) =
                   Some (List.length held)).
    { unfold ArrayOps.list_position.
      change (-1 <? 0) with true. cbv iota.
      set (len := Z.of_nat (List.length (held ++ [y]))).
      assert (Hlen : len = Z.of_nat (List.length held) + 1).
      { unfold len. rewrite length_app. simpl. lia. }
      destruct ((0 <=? -1 + len) && (-1 + len <? len)) eqn:E.
      - f_equal. lia.
      - apply andb_false_iff in E.
        destruct E as [E|E]; [apply Z.leb_gt in E | apply Z.ltb_ge in E];
          lia. }
    rewrite Hpos, nth_error_app2 by lia.
    now rewrite Nat.sub_diag.
Qed.

Lemma append_then_contains_witness :
  exists self',
    Array.append Samples.one_dimension (VInt 7) = (Ok tt, self') /\
    ArrayOps.__contains__ self' (VInt 7) = Ok true.
Proof.
  destruct (append_then_contains Samples.one_dimension "text" [] (VInt 7)
              (VInt 7) eq_refl eq_refl eq_refl) as [self' [H1 [H2 _]]].
  exists self'. split; [exact H1 | exact H2].
Defined.

(** ** The address of a forwarded request *)

Lemma contains_char_app (c : ascii) (a b : string) :
  contains_char c (a ++ b) = contains_char c a || contains_char c b.
Proof.
  induction a as [|d a IH]; simpl; [reflexivity|].
  now rewrite IH, orb_assoc.
Qed.

Lemma last_field_no_comma (s : string) :
  forall acc, contains_char "," acc = false ->
    contains_char "," (Networking.last_field s acc) = false.
Proof.
  induction s as [|c s IH]; intros acc Hacc; cbn [Networking.last_field];
    [exact Hacc|].
  destruct (Ascii.eqb c ",") eqn:Hc.
  - apply IH. reflexivity.
  - apply IH. rewrite contains_char_app, Hacc. cbn [contains_char orb].
    rewrite Ascii.eqb_sym, Hc. reflexivity.
Qed.

Lemma last_field_app (a b : string) :
  forall acc,
    Networking.last_field (a ++ b) acc =
      Networking.last_field b (Networking.last_field a acc).
Proof.
  induction a as [|c a IH]; intros acc; [reflexivity|].
  change (String c a ++ b)%string with (String c (a ++ b)).
  cbn [Networking.last_field].
  destruct (Ascii.eqb c ","); apply IH.
Qed.

Lemma app_assoc_string (a b c : string) : ((a ++ b) ++ c = a ++ (b ++ c))%string.
Proof. induction a as [|x a IH]; simpl; [reflexivity | now rewrite IH]. Qed.

Lemma last_field_plain (t : string) :
  forall acc, contains_char "," t = false ->
    Networking.last_field t acc = (acc ++ t)%string.
Proof.
  induction t as [|c t IH]; intros acc Ht;
    cbn [Networking.last_field contains_char] in *.
  - induction acc as [|x acc IHa]; simpl; [reflexivity | now rewrite <- IHa].
  - apply orb_false_elim in Ht. destruct Ht as [Hc Ht].
    rewrite Ascii.eqb_sym, Hc, (IH _ Ht), app_assoc_string. reflexivity.
Qed.

Lemma lstrip_keeps_out (c : ascii) (s : string) :
  contains_char c s = false -> contains_char c (Networking.lstrip s) = false.
Proof.
  induction s as [|d s IH]; intros H; simpl in *; [reflexivity|].
  destruct (Networking.is_space d); [|exact H].
  apply IH. now apply orb_false_elim in H.
Qed.

Lemma rstrip_keeps_out (c : ascii) (s : string) :
  contains_char c s = false -> contains_char c (Networking.rstrip s) = false.
Proof.
  induction s as [|d s IH]; intros H; simpl in *; [reflexivity|].
  apply orb_false_elim in H. destruct H as [Hd Hs]. specialize (IH Hs).
  destruct (Networking.rstrip s) as [|e r].
  - destruct (Networking.is_space d); simpl; [reflexivity|].
    now rewrite Hd.
  - change (contains_char c (String d (String e r)) = false).
    simpl. simpl in IH. now rewrite Hd, IH.
Qed.

Lemma lstrip_no_leading_space (s : string) :
  starts_with_space (Networking.lstrip s) = false.
Proof.
  induction s as [|d s IH]; simpl; [reflexivity|].
  destruct (Networking.is_space d) eqn:Hd; [exact IH|].
  simpl. exact Hd.
Qed.

Lemma rstrip_keeps_start (s : string) :
  starts_with_space s = false ->
  starts_with_space (Networking.rstrip s) = false.
Proof.
  destruct s as [|d s]; intros H; simpl in *; [reflexivity|].
  destruct (Networking.rstrip s).
  - rewrite H. simpl. exact H.
  - simpl. exact H.
Qed.

Lemma rstrip_no_trailing_space (s : string) :
  ends_with_space (Networking.rstrip s) = false.
Proof.
  induction s as [|d s IH]; simpl; [reflexivity|].
  destruct (Networking.rstrip s) as [|e r] eqn:Hr.
  - destruct (Networking.is_space d) eqn:Hd; simpl; [reflexivity | exact Hd].
  - change (ends_with_space (String d (String e r))) with
      (ends_with_space (String e r)). exact IH.
Qed.

(** X8: the address taken from [X-Forwarded-For].  For a request without
    [remote_addr] whose META carries a non-empty forwarding header,
    [request_ip] is the text after the last comma of the header, stripped:
    it holds no comma and has no white space at either end.  [IP.__call__]
    with [IP.current] hands exactly this text to the address
    constructor. *)
Theorem request_ip_forwarded (IPAddress : pyval -> result pyval)
        (self : Networking.IP) (r : Networking.request)
        (meta : list (string * pyval)) (s : string) :
  Networking._request self = Some r ->
  Networking.remote_addr r = None ->
  Networking.META r = Some meta ->
  Networking.dict_get meta "HTTP_X_FORWARDED_FOR" = VStr s ->
  s <> EmptyString ->
  exists ip,
    Networking.request_ip self = Ok (VStr ip) /\
    contains_char "," ip = false /\
    starts_with_space ip = false /\
    ends_with_space ip = false /\
    (forall head tail, s = (head ++ "," ++ tail)%string ->
                       contains_char "," tail = false ->
                       ip = Networking.strip tail) /\
    (contains_char "," s = false -> ip = Networking.strip s) /\
    Networking.IP__call__ IPAddress self (Val Networking.current) =
      match IPAddress (VStr ip) with
      | Ok a => (Ok (Val a), Networking.set_ip_value self (Val a))
      | Raise e => (Raise e, self)
      end.
Proof.
  intros Hreq Haddr Hmeta Hfwd Hs.
  assert (Hip : Networking.request_ip self =
                Ok (VStr (Networking.strip
                            (Networking.last_field s EmptyString)))).
  { unfold Networking.request_ip. rewrite Hreq, Haddr, Hmeta, Hfwd.
    destruct s; [congruence | reflexivity]. }
  exists (Networking.strip (Networking.last_field s EmptyString)).
  split; [exact Hip|].
  repeat split.
  - unfold Networking.strip.
    apply rstrip_keeps_out, lstrip_keeps_out, last_field_no_comma.
    reflexivity.
  - unfold Networking.strip.
    apply rstrip_keeps_start, lstrip_no_leading_space.
  - apply rstrip_no_trailing_space.
  - intros head tail -> Htail.
    rewrite last_field_app.
    change ("," ++ tail)%string with (String "," tail).
    cbn [Networking.last_field]. rewrite Ascii.eqb_refl.
    now rewrite (last_field_plain tail EmptyString Htail).
  - intros Hplain. now rewrite (last_field_plain s EmptyString Hplain).
  - unfold Networking.IP__call__.
    change (py_eq Networking.current Networking.current) with true.
    cbv iota. rewrite Hip. reflexivity.
Qed.

Lemma request_ip_forwarded_witness :
  Networking.request_ip
    {| Networking._request :=
         Some {| Networking.remote_addr := None;
                 Networking.META :=
                   Some [("HTTP_X_FORWARDED_FOR",
                          VStr ("10.0.0.1, 192.168.0.7" ++
                                String (ascii_of_nat 160) " "))] |};
       Networking._default := VNone;
       Networking.ip_value := empty |} = Ok (VStr "192.168.0.7").
Proof.
  destruct (request_ip_forwarded (fun v => Ok v)
              {| Networking._request :=
                   Some {| Networking.remote_addr := None;
                           Networking.META :=
                             Some [("HTTP_X_FORWARDED_FOR",
                                    VStr ("10.0.0.1, 192.168.0.7" ++
                                          String (ascii_of_nat 160) " "))] |};
                 Networking._default := VNone;
                 Networking.ip_value := empty |}
              _ _ ("10.0.0.1, 192.168.0.7" ++ String (ascii_of_nat 160) " ")
              eq_refl eq_refl eq_refl eq_refl ltac:(discriminate))
    as [ip [H1 [_ [_ [_ [H2 _]]]]]].
  rewrite H1.
  rewrite (H2 "10.0.0.1" (" 192.168.0.7" ++ String (ascii_of_nat 160) " ")
              eq_refl eq_refl).
  reflexivity.
Defined.

(** ** Hooks of a client *)

Lemma lookup_store_same {A : Type} (key : string) (v : A)
      (d : list (string * A)) :
  ClientEvents.lookup key (ClientEvents.store key v d) = Some v.
Proof.
  induction d as [|[k old] d IH]; simpl.
  - now rewrite String.eqb_refl.
  - destruct (String.eqb k key) eqn:Hk; simpl; rewrite Hk; [reflexivity|].
    exact IH.
Qed.

Lemma lookup_store_other {A : Type} (key key' : string) (v : A)
      (d : list (string * A)) :
  key' <> key ->
  ClientEvents.lookup key' (ClientEvents.store key v d) =
    ClientEvents.lookup key' d.
Proof.
  intros Hne. induction d as [|[k old] d IH]; simpl.
  - destruct (String.eqb_spec key key'); [congruence | reflexivity].
  - destruct (String.eqb_spec k key) as [->|Hk]; simpl.
    + destruct (String.eqb_spec key key'); [congruence | reflexivity].
    + destruct (String.eqb k key'); [reflexivity | exact IH].
Qed.

Lemma upper_char_idempotent (c : ascii) :
  Registration.upper_char (Registration.upper_char c) =
    Registration.upper_char c.
Proof. destruct c as [[] [] [] [] [] [] [] []]; reflexivity. Qed.

Lemma upper_idempotent (s : string) :
  Registration.upper (Registration.upper s) = Registration.upper s.
Proof.
  induction s as [|c s IH]; simpl; [reflexivity|].
  now rewrite upper_char_idempotent, IH.
Qed.

Lemma existsb_last (task : nat) (l : list nat) :
  existsb (Nat.eqb task) (l ++ [task]) = true.
Proof.
  rewrite existsb_app. simpl. rewrite Nat.eqb_refl. now rewrite orb_true_r.
Qed.

(** X9: attaching a hook.  On a client with the default hook table,
    [_attach_event] always succeeds; the task is put after the tasks
    already attached to the event unless it is among them; attaching it a
    second time changes nothing; the event name counts without regard to
    case; and no other event is touched. *)
Theorem attach_event_registers (ev : ClientEvents.events)
        (when event : string) (task : nat) :
  ClientEvents.is_defaultdict ev = true ->
  exists ev',
    ClientEvents._attach_event ev when event task = (Ok tt, ev') /\
    ClientEvents.is_defaultdict ev' = true /\
    registered ev' when event =
      (if existsb (Nat.eqb task) (registered ev when event)
       then registered ev when event
       else registered ev when event ++ [task])%list /\
    ClientEvents._attach_event ev' when event task = (Ok tt, ev') /\
    ClientEvents._attach_event ev when (Registration.upper event) task =
      (Ok tt, ev') /\
    (forall when2 event2,
        when2 <> when \/ Registration.upper event2 <> Registration.upper event ->
        registered ev' when2 event2 = registered ev when2 event2).
Proof.
  destruct ev as [dd ws]. simpl. intros ->.
  unfold ClientEvents._attach_event. rewrite upper_idempotent.
  set (E := Registration.upper event).
  unfold registered. fold E.
  unfold ClientEvents.get_when. cbn [ClientEvents.whens ClientEvents.is_defaultdict].
  destruct (ClientEvents.lookup when ws) as [t|] eqn:Hw.
  - destruct (ClientEvents.lookup E t) as [l|] eqn:He.
    + destruct (existsb (Nat.eqb task) l) eqn:Hin.
      * exists {| ClientEvents.is_defaultdict := true; ClientEvents.whens := ws |}.
        cbn [ClientEvents.whens ClientEvents.is_defaultdict].
        rewrite Hw, He, Hin. repeat split.
      * unfold ClientEvents.set_hooks.
        cbn [ClientEvents.whens ClientEvents.is_defaultdict]. rewrite Hw.
        eexists. split; [reflexivity|].
        cbn [ClientEvents.whens ClientEvents.is_defaultdict].
        rewrite !lookup_store_same, existsb_last.
        repeat split.
        intros when2 event2 Hne.
        destruct (String.eqb_spec when2 when) as [->|Hwhen].
        -- rewrite lookup_store_same, Hw.
           destruct Hne as [Hne|Hne]; [congruence|].
           now rewrite lookup_store_other.
        -- now rewrite lookup_store_other.
    + unfold ClientEvents.KeyError.
      cbn [ClientEvents.whens ClientEvents.is_defaultdict]. rewrite Hw.
      unfold ClientEvents.set_hooks.
      cbn [ClientEvents.whens ClientEvents.is_defaultdict]. rewrite Hw.
      eexists. split; [reflexivity|].
      cbn [ClientEvents.whens ClientEvents.is_defaultdict].
      rewrite !lookup_store_same. cbn [existsb Nat.eqb orb app].
      rewrite Nat.eqb_refl. cbn [orb].
      repeat split.
      intros when2 event2 Hne.
      destruct (String.eqb_spec when2 when) as [->|Hwhen].
      -- rewrite lookup_store_same, Hw.
         destruct Hne as [Hne|Hne]; [congruence|].
         now rewrite lookup_store_other.
      -- now rewrite lookup_store_other.
  - cbn [ClientEvents.lookup]. unfold ClientEvents.KeyError.
    cbn [ClientEvents.whens ClientEvents.is_defaultdict].
    rewrite lookup_store_same.
    unfold ClientEvents.set_hooks.
    cbn [ClientEvents.whens ClientEvents.is_defaultdict].
    rewrite lookup_store_same.
    eexists. split; [reflexivity|].
    cbn [ClientEvents.whens ClientEvents.is_defaultdict].
    rewrite !lookup_store_same. cbn [existsb Nat.eqb orb app].
    rewrite Nat.eqb_refl. cbn [orb].
    repeat split.
    intros when2 event2 Hne.
    destruct (String.eqb_spec when2 when) as [->|Hwhen].
    -- rewrite lookup_store_same, Hw.
       destruct Hne as [Hne|Hne]; [congruence|].
       cbn [ClientEvents.store ClientEvents.lookup].
       destruct (String.eqb_spec E (Registration.upper event2));
         [congruence | reflexivity].
    -- now rewrite !lookup_store_other.
Qed.

Lemma attach_event_registers_witness :
  exists ev',
    ClientEvents.before
      {| ClientEvents.is_defaultdict := true; ClientEvents.whens := [] |}
      "connect" 4 = (Ok tt, ev') /\
    registered ev' "BEFORE" "CONNECT" = [4%nat].
Proof.
  destruct (attach_event_registers
              {| ClientEvents.is_defaultdict := true;
                 ClientEvents.whens := [] |}
              "BEFORE" "connect" 4 eq_refl) as [ev' [H1 [_ [H2 _]]]].
  exists ev'. split; [exact H1|].
  injection H1 as <-. reflexivity.
Defined.

Lemma run_all_app (W : Type) (run : nat -> W -> result unit * W)
      (l1 l2 : list nat) :
  forall w,
    ClientEvents.run_all W run (l1 ++ l2) w =
      match ClientEvents.run_all W run l1 w with
      | (Ok _, w') => ClientEvents.run_all W run l2 w'
      | (Raise e, w') => (Raise e, w')
      end.
Proof.
  induction l1 as [|t l1 IH]; intros w; simpl; [reflexivity|].
  destruct (run t w) as [[u|e] w']; [apply IH | reflexivity].
Qed.

Lemma registered_lookup (ev : ClientEvents.events) (when event : string)
      (l : list nat) :
  registered ev when event = l -> l <> [] ->
  exists t, ClientEvents.lookup when (ClientEvents.whens ev) = Some t /\
            ClientEvents.lookup (Registration.upper event) t = Some l.
Proof.
  unfold registered. intros H Hl.
  destruct (ClientEvents.lookup when (ClientEvents.whens ev)) as [t|];
    [|congruence].
  exists t. split; [reflexivity|].
  destruct (ClientEvents.lookup (Registration.upper event) t); congruence.
Qed.

(** X10: firing the hooks of an event.  The hooks run in the order in
    which they were attached.  When one of them raises KeyError, the
    client drops the exception: [_apply_event] returns normally, and the
    hooks after the failing one are not run.  A ValueError or a TypeError
    of a hook comes out, and also ends the run. *)
Theorem apply_event_drops_key_error (W : Type)
        (run : nat -> W -> result unit * W) (ev : ClientEvents.events)
        (when event : string) (l1 l2 : list nat) (t : nat) (w w1 w2 : W)
        (e : exn) :
  registered ev when event = (l1 ++ t :: l2)%list ->
  ClientEvents.run_all W run l1 w = (Ok tt, w1) ->
  run t w1 = (Raise e, w2) ->
  (forall key, e = ClientEvents.KeyError key ->
     ClientEvents._apply_event W run ev when event w = (Ok tt, ev, w2)) /\
  (forall msg, e = ValueError msg \/ e = TypeError msg ->
     ClientEvents._apply_event W run ev when event w = (Raise e, ev, w2)).
Proof.
  intros Hreg Hl1 Ht.
  destruct (registered_lookup ev when event _ Hreg) as [tb [Hw He]].
  { destruct l1; discriminate. }
  assert (Hrun : ClientEvents.run_all W run (l1 ++ t :: l2) w = (Raise e, w2)).
  { rewrite run_all_app, Hl1. simpl. now rewrite Ht. }
  unfold ClientEvents._apply_event, ClientEvents.get_when.
  rewrite Hw, He, Hrun.
  split.
  - intros key ->. reflexivity.
  - intros msg [-> | ->]; reflexivity.
Qed.

Lemma apply_event_drops_key_error_witness :
  ClientEvents._apply_event (list nat)
    (fun t w => if Nat.eqb t 2 then (Raise (ClientEvents.KeyError "k"), t :: w)
                else (Ok tt, t :: w))
    {| ClientEvents.is_defaultdict := true;
       ClientEvents.whens := [("AFTER", [("COMMIT", [1; 2; 3]%nat)])] |}
    "AFTER" "commit" [] =
  (Ok tt,
   {| ClientEvents.is_defaultdict := true;
      ClientEvents.whens := [("AFTER", [("COMMIT", [1; 2; 3]%nat)])] |},
   [2; 1]%nat).
Proof.
  destruct (apply_event_drops_key_error (list nat)
              (fun t w => if Nat.eqb t 2
                          then (Raise (ClientEvents.KeyError "k"), t :: w)
                          else (Ok tt, t :: w))
              {| ClientEvents.is_defaultdict := true;
                 ClientEvents.whens :=
                   [("AFTER", [("COMMIT", [1; 2; 3]%nat)])] |}
              "AFTER" "commit" [1%nat] [3%nat] 2%nat [] [1%nat] [2; 1]%nat
              (ClientEvents.KeyError "k") eq_refl eq_refl eq_refl)
    as [H _].
  exact (H "k" eq_refl).
Defined.

(** ** The configuration of a client *)

(** X11: the schema of a client.  [set_schema] decides the [schema]
    property only when the connection options name neither [schema] nor
    [search_path]; when they name one, the property keeps its value
    whatever schema is set, and [schema] in the options goes before
    [search_path]. *)
Theorem set_schema_effect (self : ClientConfig.config) (s : pyval) :
  let opt := ClientConfig._connection_options self in
  (ClientEvents.lookup "schema" opt = None ->
   ClientEvents.lookup "search_path" opt = None ->
   ClientConfig.schema (ClientConfig.set_schema self s) = s) /\
  (forall v, ClientEvents.lookup "schema" opt = Some v ->
             ClientConfig.schema (ClientConfig.set_schema self s) = v) /\
  (forall v, ClientEvents.lookup "schema" opt = None ->
             ClientEvents.lookup "search_path" opt = Some v ->
             ClientConfig.schema (ClientConfig.set_schema self s) = v).
Proof.
  unfold ClientConfig.schema, ClientConfig.set_schema. simpl.
  repeat split.
  - intros -> ->. reflexivity.
  - intros v ->. reflexivity.
  - intros v -> ->. reflexivity.
Qed.

(** X12: [get_type_name] gives a name exactly for the identifiers of
    [OID_map].  For any other identifier the catalog is queried, and the
    call then raises whatever rows come back: the database never supplies
    a name. *)
Theorem get_type_name_only_from_map (OID_map : Z -> option string)
        (fetch_type : Z -> result (list (Z * string))) (OID : Z) :
  (forall name,
      ClientConfig.get_type_name OID_map fetch_type OID = Ok name <->
      OID_map OID = Some name) /\
  (OID_map OID = None ->
   exists e, ClientConfig.get_type_name OID_map fetch_type OID = Raise e /\
             (forall rows, fetch_type OID = Ok rows ->
                e = OtherError "AttributeError"
                               "'list' object has no attribute 'oid'")).
Proof.
  unfold ClientConfig.get_type_name. split.
  - intros name. destruct (OID_map OID) as [n|].
    + split; intros H; injection H as <-; reflexivity.
    + destruct (fetch_type OID); split; discriminate.
  - intros ->. destruct (fetch_type OID) as [rows|e].
    + eexists. split; [reflexivity|]. reflexivity.
    + exists e. split; [reflexivity|]. discriminate.
Qed.

(** ** Reading binary values that are not base64 text *)

Lemma a2b_loop_filter (input : Base64.bytes) :
  forall (quad_pos leftchar pads : N) (out : Base64.bytes),
    Base64.a2b_loop (filter is_b64_byte input) quad_pos leftchar pads out =
      Base64.a2b_loop input quad_pos leftchar pads out.
Proof.
  induction input as [|ch rest IH]; intros q lc p out; [reflexivity|].
  cbn [filter]. unfold is_b64_byte at 1.
  destruct (Base64.b64_index ch) as [v|] eqn:Hv.
  - cbn [Base64.a2b_loop]. rewrite Hv.
    destruct (Byte.eqb ch Base64.pad).
    + destruct (2 <=? q)%N; [|apply IH].
      destruct (4 <=? q + (p + 1))%N; [reflexivity | apply IH].
    + destruct q as [|[[?|?|]|[?|?|]|]]; apply IH.
  - destruct (Byte.eqb ch Base64.pad) eqn:Hp.
    + cbn [Base64.a2b_loop]. rewrite Hp.
      destruct (2 <=? q)%N; [|apply IH].
      destruct (4 <=? q + (p + 1))%N; [reflexivity | apply IH].
    + cbn [Base64.a2b_loop]. rewrite Hp, Hv. apply IH.
Qed.

(** X13: [to_python] reads what decodes, not what was written as base64.
    Bytes outside the base64 alphabet are passed over by the decoder, so a
    received value whose alphabet and pad bytes spell the base64 text of
    [v] reads as [v]; and a received value without any such byte, which is
    no base64 text at all, reads as the empty bytes: it is not given back
    as it is. *)
Theorem to_python_passes_over_other_bytes
        (wire : Type) (BINARY : option wire -> option Base64.bytes)
        (w : option wire) (s : Base64.bytes) :
  BINARY w = Some s ->
  (forall v, filter is_b64_byte s = Base64.b64encode v ->
             BloomBinary.to_python wire BINARY w = Ok (Some v)) /\
  (forallb (fun b => negb (is_b64_byte b)) s = true ->
   BloomBinary.to_python wire BINARY w = Ok (Some [])).
Proof.
  intros Hs. unfold BloomBinary.to_python. rewrite Hs.
  unfold Base64.b64decode. rewrite <- a2b_loop_filter. split.
  - intros v ->. now rewrite a2b_loop_encode.
  - intros Hnone.
    assert (Hf : filter is_b64_byte s = []).
    { clear Hs. induction s as [|b s IH]; [reflexivity|].
      simpl in Hnone. apply andb_true_iff in Hnone.
      destruct Hnone as [Hb Hrest]. apply negb_true_iff in Hb.
      simpl. rewrite Hb. exact (IH Hrest). }
    rewrite Hf. reflexivity.
Qed.

Lemma to_python_passes_over_other_bytes_witness :
  BloomBinary.to_python Base64.bytes (fun w => w)
    (Some [Byte.x00; Byte.xff; Byte.x21]) = Ok (Some []).
Proof.
  destruct (to_python_passes_over_other_bytes Base64.bytes (fun w => w)
              (Some [Byte.x00; Byte.xff; Byte.x21])
              [Byte.x00; Byte.xff; Byte.x21] eq_refl) as [_ H].
  apply H. reflexivity.
Defined.

(** ** The bloom fields beside the cargo ones *)

Lemma bloom_register_type_queries (self : OneOf.t) (w : Registration.world) :
  queries (snd (BloomOneOf.register_type self w)) =
    ("_" ++ BloomOneOf.type_name self, BloomOneOf.type_name self)%string
    :: queries w.
Proof.
  unfold BloomOneOf.register_type, Clients.get_type_OID. cbv zeta.
  cbn [fst snd].
  destruct (Registration.unpack2 _) as [[typ atyp]|e].
  - reflexivity.
  - destruct e; reflexivity.
Qed.

(** X14: the [OneOf] of bloom keeps no identifiers.  Each call of its
    [register_type] runs the catalog query again, found or not: after [n]
    calls, [n] more queries have been executed, each with the type name of
    the field and its array form. *)
Theorem bloom_register_type_queries_each_time (n : nat) :
  forall (self : OneOf.t) (w : Registration.world),
    queries (BloomOneOf.register_times n self w) =
      (repeat ("_" ++ BloomOneOf.type_name self,
               BloomOneOf.type_name self)%string n ++ queries w)%list.
Proof.
  induction n as [|n IH]; intros self w; [reflexivity|].
  cbn [BloomOneOf.register_times]. rewrite IH, bloom_register_type_queries.
  change (repeat ?x (S n)) with (x :: repeat x n).
  rewrite (repeat_cons n). rewrite <- app_assoc. reflexivity.
Qed.

(** X15: where the two casts part.  Without a bound, [dimensions] being 0
    or [None], the cast of cargo checks no depth and accepts every iterable
    whose scalars the element field accepts; the cast of bloom raises on
    every value, a ValueError for 0 and a TypeError for [None]. *)
Theorem casts_part_without_bound (self : Array.t) (v : pyval) :
  (Array.dimensions self = Some 0 ->
   BloomArray._cast self v 1 = Raise (ValueError (Array.depth_message 1 0))) /\
  (Array.dimensions self = None ->
   BloomArray._cast self v 1 =
     Raise (TypeError
              "'>' not supported between instances of 'int' and 'NoneType'")) /\
  (Array.dimensions self = Some 0 \/ Array.dimensions self = None ->
   forall items, py_iter v = Some items ->
     ArrayDepth.all_accepted (Array.type self) items ->
     exists ys, Array._cast self v 1 = Ok (VArr (Array._get_type_name self) ys)).
Proof.
  repeat split.
  - intros H. destruct v; cbn [BloomArray._cast];
      unfold BloomArray.depth_exceeded; rewrite H; reflexivity.
  - intros H. destruct v; cbn [BloomArray._cast];
      unfold BloomArray.depth_exceeded; rewrite H; reflexivity.
  - intros H items Hiter Hacc.
    apply (cast_accepts_shape self v items Hiter); [|exact Hacc].
    apply fits_unchecked. tauto.
Qed.

(** ** The password hasher *)

(** X16: a hasher built with [raises=True] raises on every verification
    that the context answers, the right password included:
    [IncorrectPasswordError] comes out whether the context says yes or no.
    With any other [raises], the verdict of the context is returned. *)
Theorem verify_raises_whatever_the_verdict
        (context_verify : pyval -> pyval -> result bool)
        (value hash : pyval) (verdict : bool) :
  value <> VNone -> hash <> VNone ->
  context_verify value hash = Ok verdict ->
  BloomHasher.verify context_verify (VBool true) value hash =
    Raise BloomHasher.IncorrectPasswordError /\
  (forall raises, raises <> VBool true ->
     BloomHasher.verify context_verify raises value hash = Ok verdict).
Proof.
  intros Hv Hh Hc. split.
  - unfold BloomHasher.verify.
    destruct hash; try congruence; destruct value; try congruence;
      rewrite Hc; reflexivity.
  - intros raises Hr.
    assert (Hraise : BloomHasher._raise_if raises = Ok tt).
    { destruct raises as [| [|] | | | | |]; try reflexivity. congruence. }
    unfold BloomHasher.verify.
    destruct hash; try congruence; destruct value; try congruence;
      rewrite Hc, Hraise; reflexivity.
Qed.

Lemma verify_raises_whatever_the_verdict_witness :
  BloomHasher.verify (fun _ _ => Ok true) (VBool true)
                     (VStr "secret") (VStr "$2b$06$hash") =
    Raise BloomHasher.IncorrectPasswordError.
Proof.
  destruct (verify_raises_whatever_the_verdict (fun _ _ => Ok true)
              (VStr "secret") (VStr "$2b$06$hash") true
              ltac:(discriminate) ltac:(discriminate) eq_refl) as [H _].
  exact H.
Defined.

(** ** The options of a connection as a DSN *)

Lemma dsn_key_canonical (kv : string * pyval) :
  ClientConfig.dsn_key (fst (canonical_key kv)) =
    ClientConfig.dsn_key (fst kv).
Proof.
  unfold canonical_key. cbn [fst].
  destruct (String.eqb_spec (fst kv) "database") as [-> | _]; reflexivity.
Qed.

Lemma dsn_key_replace (k : string) :
  ClientConfig.dsn_key k = true ->
  ClientConfig.replace "database" "dbname" k =
    (if String.eqb k "database" then "dbname" else k).
Proof.
  unfold ClientConfig.dsn_key. cbn [existsb].
  intros H. repeat (apply orb_true_iff in H; destruct H as [H | H]);
    try discriminate; apply String.eqb_eq in H; subst k; reflexivity.
Qed.

(** X17: [to_dsn] takes [database] for [dbname].  Renaming the key
    [database] of the options to [dbname] beforehand gives the same DSN;
    every part of the DSN is one of the five names [dbname], [user],
    [password], [host] and [port] followed by its value, in the order of
    the options; and the other keys leave no trace. *)
Theorem to_dsn_database_alias (d : list (string * pyval)) :
  ClientConfig.to_dsn (ClientConfig.DsnDict d) =
    ClientConfig.to_dsn (ClientConfig.DsnDict (map canonical_key d)) /\
  ClientConfig.to_dsn (ClientConfig.DsnDict d) =
    join " " (map (fun kv => fst (canonical_key kv) ++ "=" ++ py_str (snd kv))
                  (filter (fun kv => ClientConfig.dsn_key (fst kv)) d)) /\
  (forall kv d', ClientConfig.dsn_key (fst kv) = false ->
     ClientConfig.to_dsn (ClientConfig.DsnDict (d ++ kv :: d')) =
       ClientConfig.to_dsn (ClientConfig.DsnDict (d ++ d'))).
Proof.
  assert (parts : forall l,
    map (fun kv => ClientConfig.replace "database" "dbname" (fst kv) ++ "=" ++
                   py_str (snd kv))
        (filter (fun kv => ClientConfig.dsn_key (fst kv)) l) =
    map (fun kv => fst (canonical_key kv) ++ "=" ++ py_str (snd kv))
        (filter (fun kv => ClientConfig.dsn_key (fst kv)) l)).
  { induction l as [|kv l IH]; [reflexivity|].
    cbn [filter]. destruct (ClientConfig.dsn_key (fst kv)) eqn:Hk; [|exact IH].
    cbn [map]. rewrite IH, (dsn_key_replace _ Hk). reflexivity. }
  assert (renamed : forall l,
    map (fun kv => fst (canonical_key kv) ++ "=" ++ py_str (snd kv))
        (filter (fun kv => ClientConfig.dsn_key (fst kv))
                (map canonical_key l)) =
    map (fun kv => fst (canonical_key kv) ++ "=" ++ py_str (snd kv))
        (filter (fun kv => ClientConfig.dsn_key (fst kv)) l)).
  { induction l as [|kv l IH]; [reflexivity|].
    cbn [map filter]. rewrite dsn_key_canonical.
    destruct (ClientConfig.dsn_key (fst kv)); [|exact IH].
    cbn [map]. rewrite IH. f_equal.
    destruct kv as [k v]. unfold canonical_key. cbn [fst snd].
    destruct (String.eqb k "database") eqn:Ek; [reflexivity|].
    now rewrite Ek. }
  unfold ClientConfig.to_dsn. repeat split.
  - now rewrite !parts, renamed.
  - now rewrite parts.
  - intros kv d' Hk. rewrite !filter_app. cbn [filter]. now rewrite Hk.
Qed.

(** ** What the driver is given for an array *)

(** X18: the text sent for an array.  After [__call__] has stored an
    iterable, the adapter quotes as many items as the iterable had, and
    follows them with a cast to the array type of the element field exactly
    when there is at least one item and the type name is not empty: an
    array set from an empty iterable goes out without its type. *)
Theorem stored_array_quoting (List_getquoted : list pyval -> string)
        (self self' : Array.t) (v : pyval) (items : list pyval) (r : slot) :
  py_iter v = Some items ->
  Array.__call__ self (Val v) = (Ok r, self') ->
  exists ys,
    Array.value self' = Val (VArr (Array._get_type_name self) ys) /\
    List.length ys = List.length items /\
    ListAdapter.adapt_held List_getquoted (Array.value self') =
      Some (if Nat.eqb (List.length items) 0 ||
               String.eqb (Array._get_type_name self) ""
            then List_getquoted ys
            else List_getquoted ys ++ "::" ++ Array._get_type_name self ++
                 "[]").
Proof.
  intros Hiter E.
  assert (Hcall : Array.__call__ self (Val v) =
                  match Array._cast self v 1 with
                  | Ok a => (Ok (Val a), Array.set_value self (Val a))
                  | Raise e => (Raise e, self)
                  end).
  { destruct v; try discriminate; reflexivity. }
  rewrite Hcall, (cast_iter self v 1 items Hiter) in E.
  destruct (Array.depth_exceeded self 1); [discriminate|].
  destruct (mapM (cast_item self (1 + 1)) items) as [ys|e] eqn:Eys;
    [|discriminate].
  cbn [bind] in E. injection E as _ <-.
  pose proof (mapM_length _ _ _ Eys) as Hlen.
  exists ys. split; [reflexivity|]. split; [exact Hlen|].
  unfold finish, Array._add_arr_type. cbn.
  unfold ListAdapter.getquoted. now rewrite Hlen.
Qed.

Lemma stored_array_quoting_witness :
  ListAdapter.adapt_held (fun l => "ARRAY" ++ py_repr (VList l))
    (Array.value (snd (Array.__call__ Samples.one_dimension (Val (VList [])))))
  = Some "ARRAY[]".
Proof.
  destruct (stored_array_quoting (fun l => "ARRAY" ++ py_repr (VList l))
              Samples.one_dimension
              (snd (Array.__call__ Samples.one_dimension (Val (VList []))))
              (VList []) [] (Val (VArr "text" [])) eq_refl eq_refl)
    as [ys [Hv [Hlen Hq]]].
  rewrite Hq. destruct ys; [reflexivity | discriminate].
Defined.
